(** * Evaluation harness of the YouTube-to-blog prototype

    A shallow embedding of [evals/run_evals.py] (metric library, output
    resolver, aggregator), of [evals/prepare_dataset.py] (dataset store),
    of the tone handling of [utils/summarizer.py] and of
    [extract_video_id] of [utils/downloader.py], with the properties the
    specification states about them and further properties of the code.

    Modelling conventions.
    - A Python [str] is a [string] and the texts are ASCII: [isalnum],
      [isspace], [lower], [split], [strip] and [splitlines] are the Python
      methods on code points below 128.  On the other values of [ascii]
      they are extended the plain way: not alphanumeric, not white space,
      its own lower case.
    - A Python [float] is a rational number ([Qc]).  [/] on two [int]s gives
      the binary64 float nearest to the quotient, a tie going to the even
      mantissa ([Py.binary64]), and [round(_, 4)] rounds the value of that
      float to the nearest multiple of 1/10000, a tie going to the even
      neighbour, as CPython does; so [round(1/160, 4)] is 0.0063 and
      [round(3/160, 4)] is 0.0187.  A number [k/10000] that [round] gives,
      and the exact mean [statistics.mean] gives, stand for the float
      nearest to them.  Lengths are below [2^63], so no quotient of two
      lengths overflows.
    - A [dict] or a [set] with string keys is a [gmap string _] or a
      [gset string]; the iteration order of a [dict] is not modelled.
    - A path is the string that names it and a file is its text; [pathlib]'s
      normalisation and directories are not modelled.
    - An exception is a value of [exn]; a function that may raise returns a
      [result]. *)

From Stdlib Require Import Ascii QArith Qcanon Qabs Qpower Lqa.
From stdpp Require Import base numbers gmap strings list fin_maps sorting.

(** ** Exceptions *)

Inductive exn : Type :=
  | ZeroDivisionError
  | StatisticsError
  | KeyError (key : string)
  | RuntimeError (msg : string)
  | TypeError (msg : string)
  | FileNotFoundError (msg : string)
  | JSONDecodeError
  | SystemExit (msg : string).

Inductive result (A : Type) : Type :=
  | Ok (a : A)
  | Raise (e : exn).
Arguments Ok {A} a.
Arguments Raise {A} e.

(** Sequencing: an exception raised by the first computation propagates.
    With these instances [x ← r; k] runs [r] and then [k]. *)
Global Instance result_ret : MRet result := λ A a, Ok a.
Global Instance result_bind : MBind result := λ A B k r,
  match r with
  | Ok a => k a
  | Raise e => Raise e
  end.

(** ** Characters and strings, as the Python methods see them *)

Module Py.

Definition code (c : ascii) : nat := nat_of_ascii c.

(** [ch.isalnum()] on ASCII: a decimal digit or a letter. *)
Definition isalnum (c : ascii) : bool :=
  let n := code c in
  ((48 <=? n) && (n <=? 57)) || ((65 <=? n) && (n <=? 90))
  || ((97 <=? n) && (n <=? 122)).

(** [ch.isspace()] on ASCII: TAB, LF, VT, FF, CR, FS, GS, RS, US, space. *)
Definition isspace (c : ascii) : bool :=
  let n := code c in
  ((9 <=? n) && (n <=? 13)) || ((28 <=? n) && (n <=? 32)).

(** [ch.lower()] on an ASCII character.  Beyond ASCII Python's [lower] is
    Unicode's and may give several characters for one (U+0130); the
    properties that depend on it are stated for ASCII texts. *)
Definition lower_char (c : ascii) : ascii :=
  let n := code c in
  if (65 <=? n) && (n <=? 90) then ascii_of_nat (n + 32) else c.

Fixpoint map_chars (f : ascii → ascii) (s : string) : string :=
  match s with
  | "" => ""
  | String c s' => String (f c) (map_chars f s')
  end.

(** [s.lower()] *)
Definition lower (s : string) : string := map_chars lower_char s.

(** A piece of a split is kept when it is not empty. *)
Definition cons_word (w : string) (ws : list string) : list string :=
  if decide (w = "") then ws else w :: ws.

(** Splitting at the characters [sep] holds of, runs of separators
    counting as one and no empty piece kept: the pair of the piece the
    text starts with and of the later pieces. *)
Fixpoint split_go (sep : ascii → bool) (s : string) : string * list string :=
  match s with
  | "" => ("", [])
  | String c s' =>
      let '(w, ws) := split_go sep s' in
      if sep c then ("", cons_word w ws) else (String c w, ws)
  end.

Definition split_by (sep : ascii → bool) (s : string) : list string :=
  let '(w, ws) := split_go sep s in cons_word w ws.

(** [s.split()] without argument: split at runs of white space. *)
Definition split (s : string) : list string := split_by isspace s.

(** [s.strip()] *)
Fixpoint lstrip (s : string) : string :=
  match s with
  | "" => ""
  | String c s' => if isspace c then lstrip s' else s
  end.

Definition strip (s : string) : string :=
  String.rev (lstrip (String.rev (lstrip s))).

(** [s.startswith(p)] *)
Fixpoint startswith (p s : string) : bool :=
  match p, s with
  | "", _ => true
  | String a p', String b s' => bool_decide (a = b) && startswith p' s'
  | String _ _, "" => false
  end.

(** [p in s] on strings *)
Fixpoint contains (p s : string) : bool :=
  startswith p s ||
  match s with
  | "" => false
  | String _ s' => contains p s'
  end.

(** The integer nearest to [x], a tie going to the even one. *)
Definition round_half_even (x : Q) : Z :=
  let n := Qnum x in
  let d := Zpos (Qden x) in
  let q := (n / d)%Z in
  let r := (n mod d)%Z in
  match (2 * r ?= d)%Z with
  | Lt => q
  | Gt => (q + 1)%Z
  | Eq => if Z.even q then q else (q + 1)%Z
  end.

(** [round(x, 4)] of a float, on the rational it denotes: the nearest
    multiple of 1/10000. *)
Definition round4 (x : Qc) : Qc :=
  Q2Qc (round_half_even (Qmult (this x) (10000 # 1)) # 10000).

(** The lines of a text, broken at the characters [brk] holds of; a
    carriage return followed by a line feed is one break, and a break at
    the very end opens no further line. *)
Fixpoint lines_by (brk : ascii → bool) (s : string) : list string :=
  match s with
  | "" => []
  | String c s' =>
      if brk c then
        match s' with
        | String c' s'' =>
            if bool_decide (c = "013"%char) && bool_decide (c' = "010"%char)
            then "" :: lines_by brk s''
            else "" :: lines_by brk s'
        | "" => [""]
        end
      else
        match lines_by brk s' with
        | [] => [String c ""]
        | l :: ls => String c l :: ls
        end
  end.

(** [s.splitlines()]: LF, VT, FF, CR, FS, GS and RS break a line. *)
Definition is_linebreak (c : ascii) : bool :=
  let n := code c in ((10 <=? n) && (n <=? 13)) || ((28 <=? n) && (n <=? 30)).

Definition splitlines (s : string) : list string := lines_by is_linebreak s.

(** [for line in handle], a file read in text mode: LF and CR break a
    line (the terminator itself is left out: every use strips the line). *)
Definition is_newline (c : ascii) : bool :=
  bool_decide (c = "010"%char) || bool_decide (c = "013"%char).

Definition file_lines (s : string) : list string := lines_by is_newline s.

(** [dir / name] on paths, a path being the string that names it: an
    absolute [name] replaces [dir]. *)
Definition joinpath (dir name : string) : string :=
  if startswith "/" name then name else dir +:+ "/" +:+ name.

(** [float(n)] of a length, [float(b)] of a [bool]. *)
Definition float_of_nat (n : nat) : Qc := Q2Qc (Z.of_nat n # 1).
Definition float_of_bool (b : bool) : Qc := if b then 1%Qc else 0%Qc.

(** The integer part of the binary logarithm of a positive rational. *)
Definition ilog2 (x : Q) : Z :=
  let l := (Z.log2 (Qnum x) - Z.log2 (Zpos (Qden x)))%Z in
  if Qle_bool (Qpower 2 l) x then l else (l - 1)%Z.

(** The binary64 float nearest to a rational, a tie going to the even
    mantissa: the mantissa has 53 bits and its last bit weighs at least
    [2^-1074].  Overflow is left out. *)
Definition binary64 (x : Q) : Q :=
  if Qeq_bool x 0 then 0%Q
  else
    let e := Z.max (ilog2 (Qabs x) - 52) (-1074) in
    Qmult (inject_Z (round_half_even (Qdiv x (Qpower 2 e)))) (Qpower 2 e).

(** The float an exact value is turned into. *)
Definition to_float (x : Qc) : Qc := Q2Qc (binary64 (this x)).

(** [a / b] on two [int]s that are lengths: the float nearest to the
    quotient. *)
Definition truediv (a b : nat) : result Qc :=
  if decide (b = 0) then Raise ZeroDivisionError
  else Ok (to_float (Q2Qc (Z.of_nat a # Pos.of_nat b))).

End Py.

(** ** The metric library, [run_evals.py] *)

Definition STOPWORDS : gset string :=
  list_to_set
    ["a"; "an"; "and"; "are"; "as"; "be"; "but"; "for"; "from"; "in"; "is";
     "it"; "of"; "on"; "or"; "that"; "the"; "to"; "with"; "you"; "your";
     "this"; "we"].

Definition CTA_KEYWORDS : list string :=
  ["subscribe"; "share"; "tag"; "join"; "follow"; "call to action";
   "let us know"; "tell us"; "comment"].

(** [clean = "".join(ch.lower() if ch.isalnum() else " " for ch in text)] *)
Definition clean (text : string) : string :=
  Py.map_chars (λ ch, if Py.isalnum ch then Py.lower_char ch else " "%char) text.

Definition tokenize (text : string) : list string :=
  filter (λ tok, tok ≠ "" ∧ tok ∉ STOPWORDS) (Py.split (clean text)).

Definition keyword_recall (reference generated : string) : result Qc :=
  let ref_tokens : gset string :=
    list_to_set (filter (λ tok, 4 < String.length tok) (tokenize reference)) in
  if decide (ref_tokens = ∅) then Ok 0%Qc
  else
    let gen_tokens : gset string := list_to_set (tokenize generated) in
    let overlap := ref_tokens ∩ gen_tokens in
    q ← Py.truediv (size overlap) (size ref_tokens) ;
    Ok (Py.round4 q).

Definition simple_overlap (reference generated : string) : result Qc :=
  let ref_tokens : gset string := list_to_set (tokenize reference) in
  if decide (ref_tokens = ∅) then Ok 0%Qc
  else
    let gen_tokens : gset string := list_to_set (tokenize generated) in
    let overlap := ref_tokens ∩ gen_tokens in
    q ← Py.truediv (size overlap) (size (ref_tokens ∪ gen_tokens)) ;
    Ok (Py.round4 q).

Definition detect_cta (text : string) : bool :=
  let lower := Py.lower text in
  existsb (λ keyword, Py.contains keyword lower) CTA_KEYWORDS.

Definition heading_count (text : string) : nat :=
  length (filter (λ line, Py.startswith "#" (Py.strip line) = true)
                 (Py.splitlines text)).

(** The optional scorers.  [rouge_scorer] is [None] when the import failed;
    otherwise it gives the F-measures of ROUGE-1 and of ROUGE-L for
    (reference, generated), and is taken to return. *)
Definition rouge_scorer_t : Type := string → string → Qc * Qc.

Definition rouge_scores (rouge_scorer : option rouge_scorer_t)
    (reference generated : string) : result (gmap string Qc) :=
  match rouge_scorer with
  | None =>
      overlap ← simple_overlap reference generated;
      Ok (<["rougeL_f" := overlap]> (<["rouge1_f" := overlap]> ∅))
  | Some score =>
      let scores := score reference generated in
      Ok (<["rougeL_f" := Py.round4 scores.2]>
            (<["rouge1_f" := Py.round4 scores.1]> ∅))
  end.

(** The keyword arguments of a [bert_score] call. *)
Record bert_kwargs : Type := BertKwargs {
  lang : string;
  rescale_with_baseline : bool;
  model_type : option string
}.

(** [bert_score] is [None] when the import failed.  A call raises an
    [Exception] or returns the three tensors precision, recall and F1; a
    tensor is given by what [float(t.mean().item())] makes of it, [None]
    when that raises. *)
Inductive bert_outcome : Type :=
  | BertRaises
  | BertReturns (precision recall f1 : option Qc).

Definition bert_score_t : Type :=
  list string → list string → bert_kwargs → bert_outcome.

(** The truth value of an optional string: it is there and not empty. *)
Definition truthy (s : option string) : bool :=
  match s with
  | Some m => bool_decide (m ≠ "")
  | None => false
  end.

(** [bert_kwargs], with [model_type] set [if bert_model]. *)
Definition bert_call_kwargs (bert_model : option string) : bert_kwargs :=
  BertKwargs "en" true (if truthy bert_model then bert_model else None).

(** The [try] block of [collect_metrics]: the keys set before an exception
    stay, and the handler adds the sentinel (the warning it prints is left
    out). *)
Definition collect_bert (bert : bert_score_t) (reference generated : string)
    (bert_model : option string) (metrics : gmap string Qc) : gmap string Qc :=
  match bert [generated] [reference] (bert_call_kwargs bert_model) with
  | BertRaises => <["bert_f1_error" := 1%Qc]> metrics
  | BertReturns precision recall f1 =>
      match precision with
      | None => <["bert_f1_error" := 1%Qc]> metrics
      | Some p =>
          let metrics := <["bert_precision" := Py.round4 p]> metrics in
          match recall with
          | None => <["bert_f1_error" := 1%Qc]> metrics
          | Some r =>
              let metrics := <["bert_recall" := Py.round4 r]> metrics in
              match f1 with
              | None => <["bert_f1_error" := 1%Qc]> metrics
              | Some f => <["bert_f1" := Py.round4 f]> metrics
              end
          end
      end
  end.

Definition collect_metrics (rouge_scorer : option rouge_scorer_t)
    (bert_score : option bert_score_t) (reference generated : string)
    (skip_bert : bool) (bert_model : option string) : result (gmap string Qc) :=
  rouge ← rouge_scores rouge_scorer reference generated;
  let metrics : gmap string Qc := rouge ∪ ∅ in
  recall ← keyword_recall reference generated;
  let metrics := <["keyword_recall" := recall]> metrics in
  let metrics :=
    <["call_to_action" := Py.float_of_bool (detect_cta generated)]> metrics in
  let metrics :=
    <["heading_count" := Py.float_of_nat (heading_count generated)]> metrics in
  let metrics :=
    <["word_count_generated" := Py.float_of_nat (length (tokenize generated))]>
      metrics in
  let metrics :=
    <["word_count_reference" := Py.float_of_nat (length (tokenize reference))]>
      metrics in
  match bert_score with
  | Some bert =>
      if skip_bert then Ok metrics
      else Ok (collect_bert bert reference generated bert_model metrics)
  | None => Ok metrics
  end.

(** ** The output resolver and the runner, [run_evals.py] *)

(** A dataset row and a sample are [Dict[str, str]]. *)
Abbreviation row := (gmap string string) (only parsing).

(** [d[k]] *)
Definition getitem (d : gmap string string) (k : string) : result string :=
  match d !! k with
  | Some v => Ok v
  | None => Raise (KeyError k)
  end.

(** What an f-string prints for [d.get(k)]. *)
Definition fmt_get (o : option string) : string := default "None" o.

(** The file system: the text of every file, by path. *)
Abbreviation fs := (gmap string string) (only parsing).

Definition read_text (files : fs) (path : string) : result string :=
  match files !! path with
  | None => Raise (FileNotFoundError ("Expected file missing: " +:+ path))
  | Some text => Ok (Py.strip text)
  end.

(** What [generate_blog] may return: a [dict], a [str] (the older
    summarizer) or something else. *)
Inductive response : Type :=
  | RespDict (d : gmap string string)
  | RespStr (s : string)
  | RespOther.

Definition generate_blog_t : Type := string → string → result response.

(** [tone = sample.get("tone", "professional").lower()] *)
Definition live_tone (sample : row) : string :=
  Py.lower (default "professional" (sample !! "tone")).

(** The loop over [(".md", ".txt")] of the cached mode and the [raise]
    after it. *)
Fixpoint find_cached (files : fs) (sample : row) (generated_dir : string)
    (exts : list string) : result string :=
  match exts with
  | [] =>
      sid ← getitem sample "id";
      Raise (FileNotFoundError
               ("No cached output found for sample " +:+ sid +:+ " in "
                +:+ generated_dir))
  | ext :: exts' =>
      sid ← getitem sample "id";
      let candidate := Py.joinpath generated_dir (sid +:+ ext) in
      if decide (is_Some (files !! candidate)) then read_text files candidate
      else find_cached files sample generated_dir exts'
  end.

Definition resolve_generated_text (generate_blog : generate_blog_t)
    (files : fs) (sample : row) (mode : string) (generated_dir : string)
    : result string :=
  if decide (mode = "live") then
    let tone := live_tone sample in
    transcript ← getitem sample "transcript";
    response ← generate_blog transcript tone;
    match response with
    | RespDict d =>
        if decide (d !! "status" ≠ Some "success") then
          sid ← getitem sample "id";
          Raise (RuntimeError
                   ("Model call failed for " +:+ sid +:+ ": "
                    +:+ fmt_get (d !! "message")))
        else getitem d "blog_post"
    | RespStr s => Ok s
    | RespOther => Raise (TypeError "Unexpected response type from generate_blog")
    end
  else find_cached files sample generated_dir [".md"; ".txt"].

(** [read_jsonl]; [json_loads] is [json.loads]. *)
Fixpoint parse_lines (json_loads : string → result row) (lines : list string)
    : result (list row) :=
  match lines with
  | [] => Ok []
  | line :: rest =>
      let line := Py.strip line in
      if decide (line = "") then parse_lines json_loads rest
      else
        r ← json_loads line;
        rs ← parse_lines json_loads rest;
        Ok (r :: rs)
  end.

Definition read_jsonl (json_loads : string → result row) (files : fs)
    (path : string) : result (list row) :=
  match files !! path with
  | None => Raise (FileNotFoundError path)
  | Some text => parse_lines json_loads (Py.file_lines text)
  end.

(** The [sample] dictionary [evaluate] builds for a row. *)
Definition make_sample (sample_id transcript reference : string) (r : row) : row :=
  <["tone" := default "professional" (r !! "tone")]>
    (<["reference" := reference]>
       (<["transcript" := transcript]> (<["id" := sample_id]> ∅))).

Record externals : Type := Externals {
  rouge_scorer : option rouge_scorer_t;
  bert_score : option bert_score_t;
  generate_blog : generate_blog_t;
  json_loads : string → result row
}.

(** The body of the loop of [evaluate], for one row. *)
Definition evaluate_row (ext : externals) (BASE_DIR : string) (files : fs)
    (mode generated_dir : string) (skip_bert : bool) (bert_model : option string)
    (r : row) : result (string * gmap string Qc) :=
  sample_id ← getitem r "id";
  transcript_rel ← getitem r "transcript_path";
  let transcript_path := Py.joinpath BASE_DIR transcript_rel in
  reference_rel ← getitem r "reference_blog_path";
  let reference_path := Py.joinpath BASE_DIR reference_rel in
  transcript ← read_text files transcript_path;
  reference ← read_text files reference_path;
  let sample := make_sample sample_id transcript reference r in
  generated ← resolve_generated_text (generate_blog ext) files sample mode
                 generated_dir;
  metrics ← collect_metrics (rouge_scorer ext) (bert_score ext) reference
               generated skip_bert bert_model;
  Ok (sample_id, metrics).

Fixpoint evaluate_loop (ext : externals) (BASE_DIR : string) (files : fs)
    (mode generated_dir : string) (skip_bert : bool) (bert_model : option string)
    (dataset : list row) (results : gmap string (gmap string Qc))
    : result (gmap string (gmap string Qc)) :=
  match dataset with
  | [] => Ok results
  | r :: rest =>
      entry ← evaluate_row ext BASE_DIR files mode generated_dir skip_bert
                 bert_model r;
      evaluate_loop ext BASE_DIR files mode generated_dir skip_bert bert_model
        rest (<[entry.1 := entry.2]> results)
  end.

Definition evaluate (ext : externals) (BASE_DIR : string) (files : fs)
    (dataset_path mode generated_dir : string) (skip_bert : bool)
    (bert_model : option string) : result (gmap string (gmap string Qc)) :=
  dataset ← read_jsonl (json_loads ext) files dataset_path;
  evaluate_loop ext BASE_DIR files mode generated_dir skip_bert bert_model
    dataset ∅.

(** ** The aggregator, [run_evals.py] *)

Definition sum_list (values : list Qc) : Qc := foldr Qcplus 0%Qc values.

(** [statistics.mean]: exact on the rationals the floats denote. *)
Definition mean (values : list Qc) : result Qc :=
  if decide (values = []) then Raise StatisticsError
  else Ok (sum_list values / Py.float_of_nat (length values))%Qc.

(** [[sample[metric] for sample in results.values() if metric in sample]] *)
Definition metric_values (results : gmap string (gmap string Qc))
    (metric : string) : list Qc :=
  omap (λ sample : gmap string Qc, sample !! metric) (map_to_list results).*2.

(** The loop over [all_keys]. *)
Fixpoint aggregate_loop (results : gmap string (gmap string Qc))
    (all_keys : list string) (summary : gmap string Qc)
    : result (gmap string Qc) :=
  match all_keys with
  | [] => Ok summary
  | metric :: rest =>
      let values := metric_values results metric in
      v ← (if decide (values = []) then Ok 0%Qc else mean values);
      aggregate_loop results rest (<["avg_" +:+ metric := v]> summary)
  end.

(** [all_keys] is [sorted] over the set of the metrics of all samples:
    strings in code point order. *)
Definition aggregate (results : gmap string (gmap string Qc))
    : result (gmap string Qc) :=
  if decide (results = ∅) then Ok ∅
  else
    let all_keys :=
      merge_sort String.le
        (elements (⋃ ((λ sample : gmap string Qc, dom sample)
                        <$> (map_to_list results).*2) : gset string)) in
    aggregate_loop results all_keys ∅.

(** ** Tone handling of [generate_blog], [utils/summarizer.py] *)

Definition tone_instructions : gmap string string :=
  list_to_map
    [("professional", "Write in a professional, business-appropriate tone.");
     ("casual", "Write in a casual, conversational tone.");
     ("educational",
      "Write in an informative, educational tone suitable for teaching.");
     ("persuasive",
      "Write in a persuasive, compelling tone that convinces the reader.")].

(** The tone [generate_blog] works with, after
    [if tone not in tone_instructions: tone = "professional"]. *)
Definition effective_tone (tone : string) : string :=
  if decide (tone_instructions !! tone = None) then "professional" else tone.

(** ** The dataset store, [prepare_dataset.py] *)

Module PrepareDataset.

(** What the tool acts on: the files and the lines printed so far.
    Directories are not modelled, and the file system is taken to let the
    tool work: [mkdir(parents=True, exist_ok=True)], [touch] and [open]
    succeed.  A run in which one of them raises (a parent that is a file,
    a directory that cannot be written) is outside the model; nothing is
    claimed about the state such a run leaves. *)
Record world : Type := World {
  w_files : gmap string string;
  w_stdout : list string
}.

(** A command runs on a world and returns or raises; what it did before
    raising stays done. *)
Definition prog (A : Type) : Type := world → result A * world.

Global Instance prog_ret : MRet prog := λ A a w, (Ok a, w).
Global Instance prog_bind : MBind prog := λ A B k m w,
  match m w with
  | (Ok a, w') => k a w'
  | (Raise e, w') => (Raise e, w')
  end.

Definition raise {A : Type} (e : exn) : prog A := λ w, (Raise e, w).
Definition lift {A : Type} (r : result A) : prog A := λ w, (r, w).

Definition print (line : string) : prog unit := λ w,
  (Ok (), World (w_files w) (w_stdout w ++ [line])).

(** [path.exists()] and [path.touch()]; [touch] is taken to succeed. *)
Definition exists_ (path : string) : prog bool := λ w,
  (Ok (bool_decide (is_Some (w_files w !! path))), w).

Definition touch (path : string) : prog unit := λ w,
  (Ok (),
   World (if decide (is_Some (w_files w !! path)) then w_files w
          else <[path := ""]> (w_files w))
         (w_stdout w)).

(** The command line of [add], as [argparse] hands it over. *)
Record add_args : Type := AddArgs {
  args_dataset : string;
  args_id : string;
  args_title : string;
  args_video_url : string;
  args_transcript : string;
  args_reference : string;
  args_tone : string;
  args_notes : option string
}.

Definition load_rows (json_loads : string → result row)
    (dataset_path : string) : prog (list row) := λ w,
  match w_files w !! dataset_path with
  | None => (Ok [], w)
  | Some text => (parse_lines json_loads (Py.file_lines text), w)
  end.

(** What [write_rows] writes: one line per row. *)
Fixpoint dump_lines (json_dumps : row → string) (rows : list row) : string :=
  match rows with
  | [] => ""
  | r :: rest =>
      json_dumps r +:+ String "010"%char "" +:+ dump_lines json_dumps rest
  end.

(** [write_rows]; the [mkdir] and the [open] are taken to succeed. *)
Definition write_rows (json_dumps : row → string) (dataset_path : string)
    (rows : list row) : prog unit := λ w,
  (Ok (),
   World (<[dataset_path := dump_lines json_dumps rows]> (w_files w))
         (w_stdout w)).

(** [any(row["id"] == args.id for row in rows)] *)
Fixpoint any_id (rows : list row) (id : string) : result bool :=
  match rows with
  | [] => Ok false
  | r :: rest =>
      i ← getitem r "id";
      if decide (i = id) then Ok true else any_id rest id
  end.

(** The row [add_sample] appends. *)
Definition new_row (args : add_args) : row :=
  <["notes" := default "" (args_notes args)]>
    (<["tone" := args_tone args]>
       (<["reference_blog_path" := args_reference args]>
          (<["transcript_path" := args_transcript args]>
             (<["video_url" := args_video_url args]>
                (<["video_title" := args_title args]>
                   (<["id" := args_id args]> ∅)))))).

Definition ensure_file (what path : string) : prog unit :=
  present ← exists_ path;
  if present : bool then mret ()
  else
    _ ← touch path;
    print ("Created empty " +:+ what +:+ " file at " +:+ path).

Definition add_sample (json_loads : string → result row)
    (json_dumps : row → string) (args : add_args) : prog unit :=
  let dataset_path := args_dataset args in
  rows ← load_rows json_loads dataset_path;
  duplicate ← lift (any_id rows (args_id args));
  if duplicate : bool then
    raise (SystemExit ("Dataset already contains id '" +:+ args_id args
                       +:+ "'. Use a unique identifier."))
  else
    let transcript_path := args_transcript args in
    let reference_path := args_reference args in
    _ ← ensure_file "transcript" transcript_path;
    _ ← ensure_file "reference" reference_path;
    let rows := rows ++ [new_row args] in
    _ ← write_rows json_dumps dataset_path rows;
    print ("Added sample '" +:+ args_id args +:+ "' to " +:+ dataset_path).

(** The lines [list_samples] prints for one row. *)
Definition list_row (r : row) : prog unit :=
  i ← lift (getitem r "id");
  title ← lift (getitem r "video_title");
  _ ← print ("- " +:+ i +:+ ": " +:+ title +:+ " ("
             +:+ default "professional" (r !! "tone") +:+ ")");
  transcript ← lift (getitem r "transcript_path");
  _ ← print ("  transcript -> " +:+ transcript);
  reference ← lift (getitem r "reference_blog_path");
  _ ← print ("  reference  -> " +:+ reference);
  if truthy (r !! "notes") then
    notes ← lift (getitem r "notes");
    print ("  notes      -> " +:+ notes)
  else mret ().

Fixpoint list_loop (rows : list row) : prog unit :=
  match rows with
  | [] => mret ()
  | r :: rest => _ ← list_row r; list_loop rest
  end.

Definition list_samples (json_loads : string → result row)
    (dataset_path : string) : prog unit :=
  rows ← load_rows json_loads dataset_path;
  if decide (rows = []) then print "Dataset is empty."
  else list_loop rows.

(** The [missing] list of [validate_dataset], row after row. *)
Fixpoint validate_loop (rows : list row) (missing : list string)
    : prog (list string) :=
  match rows with
  | [] => mret missing
  | r :: rest =>
      transcript_path ← lift (getitem r "transcript_path");
      reference_path ← lift (getitem r "reference_blog_path");
      transcript_there ← exists_ transcript_path;
      missing ←
        (if transcript_there : bool then mret missing
         else
           i ← lift (getitem r "id");
           mret (missing ++ ["Missing transcript for " +:+ i +:+ ": "
                             +:+ transcript_path]));
      reference_there ← exists_ reference_path;
      missing ←
        (if reference_there : bool then mret missing
         else
           i ← lift (getitem r "id");
           mret (missing ++ ["Missing reference for " +:+ i +:+ ": "
                             +:+ reference_path]));
      validate_loop rest missing
  end.

Fixpoint print_items (items : list string) : prog unit :=
  match items with
  | [] => mret ()
  | item :: rest => _ ← print ("- " +:+ item); print_items rest
  end.

(** [SystemExit(1)] is [SystemExit "1"]: the exit code, as [str] shows
    it. *)
Definition validate_dataset (json_loads : string → result row)
    (dataset_path : string) : prog unit :=
  rows ← load_rows json_loads dataset_path;
  missing ← validate_loop rows [];
  if decide (missing = []) then print "All dataset paths are valid."
  else
    _ ← print "Validation failed:";
    _ ← print_items missing;
    raise (SystemExit "1").

End PrepareDataset.

(** The options of the tone [selectbox] of [app.py]; the selected one is
    passed to [generate_blog] as it is. *)
Definition tone_options : list string :=
  ["Professional"; "Casual"; "Educational"; "Persuasive"].

(** ** The video id of a URL, [downloader.py] *)

Module Downloader.

(** What [extract_video_id] can raise: an index out of range, a missing
    key, and the [ValueError] of [urlparse]. *)
Inductive error : Type :=
  | IndexError
  | KeyError (key : string)
  | ValueError.

Inductive outcome (A : Type) : Type :=
  | Returns (a : A)
  | Raises (e : error).
Arguments Returns {A} a.
Arguments Raises {A} e.

(** [l[i]], [l[0]] and [l[-1]] on a list: what a lookup finds, or
    [IndexError]. *)
Definition item {A : Type} (found : option A) : outcome A :=
  match found with
  | Some a => Returns a
  | None => Raises IndexError
  end.

(** [s.split(sep)] with a separator of one character: the pieces between
    the separators, the empty ones kept. *)
Fixpoint split_on (sep : ascii) (s : string) : list string :=
  match s with
  | "" => [""]
  | String c s' =>
      if bool_decide (c = sep) then "" :: split_on sep s'
      else
        match split_on sep s' with
        | piece :: rest => String c piece :: rest
        | [] => [String c ""]
        end
  end.

(** The fields of [urlparse]'s result the function reads. *)
Record parse_result : Type := ParseResult {
  netloc : string;
  path : string;
  query : string
}.

(** [urlparse] and [parse_qs] are the library's: [urlparse] gives the
    parts of a URL or raises [ValueError] ([None]), [parse_qs] the values
    of each key of a query. *)
Definition extract_video_id (urlparse : string → option parse_result)
    (parse_qs : string → gmap string (list string)) (url : string)
    : outcome string :=
  if Py.contains "youtu.be" url then
    match item (last (split_on "/" url)) with
    | Returns piece => item (head (split_on "?" piece))
    | Raises e => Raises e
    end
  else
    match urlparse url with
    | None => Raises ValueError
    | Some parsed =>
        if Py.contains "youtube.com" (netloc parsed) then
          if Py.contains "v=" (query parsed) then
            match parse_qs (query parsed) !! "v" with
            | None => Raises (KeyError "v")
            | Some values => item (head values)
            end
          else if Py.startswith "/embed/" (path parsed) then
            item (split_on "/" (path parsed) !! 2)
          else Returns url
        else Returns url
    end.

End Downloader.

(** ** The metrics as the specification words them

    These follow the sentences of the specification, not the code; the
    theorems below compare them with the functions above. *)

(** Content words: lower-case the text, split it at the characters that
    are not alphanumeric, drop the stop words. *)
Definition spec_tokens (text : string) : list string :=
  filter (λ tok, tok ∉ STOPWORDS)
         (Py.split_by (λ c, negb (Py.isalnum c)) (Py.lower text)).

Definition spec_token_set (text : string) : gset string :=
  list_to_set (spec_tokens text).

(** The reference's content words of more than four characters. *)
Definition spec_keyword_set (reference : string) : gset string :=
  filter (λ tok, 4 < String.length tok) (spec_token_set reference).

(** [a / b] on counts, as a rational ([0] when [b] is [0]). *)
Definition ratio (a b : nat) : Qc :=
  (Py.float_of_nat a / Py.float_of_nat b)%Qc.

(** Jaccard similarity, |A ∩ B| / |A ∪ B|. *)
Definition jaccard (A B : gset string) : Qc :=
  ratio (size (A ∩ B)) (size (A ∪ B)).

(** Recall of the keywords [K] in the token set [G], |K ∩ G| / |K|. *)
Definition recall (K G : gset string) : Qc :=
  ratio (size (K ∩ G)) (size K).

(** The samples of [results] that report [metric], and the mean of the
    metric over them. *)
Definition reporting (results : gmap string (gmap string Qc)) (metric : string)
    : gmap string (gmap string Qc) :=
  filter (λ entry, is_Some (entry.2 !! metric)) results.

Definition spec_mean (results : gmap string (gmap string Qc)) (metric : string)
    : Qc :=
  (map_fold (λ _ sample acc, default 0 (sample !! metric) + acc) 0
            (reporting results metric)
   / Py.float_of_nat (size (reporting results metric)))%Qc.

(** ** Notions the properties are stated with *)

(** The seven metrics every sample gets. *)
Definition base_keys : list string :=
  ["rouge1_f"; "rougeL_f"; "keyword_recall"; "call_to_action"; "heading_count";
   "word_count_generated"; "word_count_reference"].

(** The semantic-similarity computation fails: the call raises, or one of
    the three tensors cannot be read. *)
Definition bert_fails (outcome : bert_outcome) : Prop :=
  match outcome with
  | BertRaises => True
  | BertReturns precision recall f1 =>
      precision = None ∨ recall = None ∨ f1 = None
  end.

(** A capability that reports success with an empty article, and a sample
    as [evaluate] builds it. *)
Definition empty_success : generate_blog_t := λ _ _,
  Ok (RespDict (<["blog_post" := ""]> (<["status" := "success"]> ∅))).

Definition sample1 : row :=
  make_sample "video1" "hello and welcome" "a reference" ∅.

Definition failing_capability : generate_blog_t := λ _ _,
  Ok (RespDict (<["message" := "rate limit"]> (<["status" := "error"]> ∅))).

(** The tones the generation capability knows, as its documentation lists
    them. *)
Definition recognized_tones : list string :=
  ["professional"; "casual"; "educational"; "persuasive"].

(** A capability that answers with the tone it was called with. *)
Definition echo_tone : generate_blog_t := λ _ tone, Ok (RespStr tone).

(** A record whose tone is capitalised, as the usage example of the
    dataset tool writes it, and the sample [evaluate] builds from it. *)
Definition capitalised_row : row := <["tone" := "Educational"]> ∅.

Definition capitalised_sample : row :=
  make_sample "video1" "hello" "a reference" capitalised_row.

(** What [aggregate] binds [avg_<metric>] to. *)
Definition agg_value (results : gmap string (gmap string Qc)) (metric : string)
    : Qc :=
  if decide (metric_values results metric = []) then 0%Qc
  else (sum_list (metric_values results metric)
        / Py.float_of_nat (length (metric_values results metric)))%Qc.

(** Some sample of [results] reports [metric]. *)
Definition observed (results : gmap string (gmap string Qc)) (metric : string)
    : Prop :=
  ∃ (id : string) (sample : gmap string Qc),
    results !! id = Some sample ∧ is_Some (sample !! metric).

(** The results of the specification's example:
    [{"a": {"m": 1.0}, "b": {"m": 3.0}}]. *)
Definition example_results : gmap string (gmap string Qc) :=
  <["b" := <["m" := Q2Qc (3 # 1)]> ∅]> (<["a" := <["m" := 1%Qc]> ∅]> ∅).

(** A text without line break. *)
Fixpoint no_newline (s : string) : bool :=
  match s with
  | "" => true
  | String c s' => negb (Py.is_newline c) && no_newline s'
  end.

(** What the store needs of [json.dumps] and [json.loads] on a row: the
    row is written on one line that is not blank and is read back as it
    was. *)
Definition codec_ok (json_loads : string → result row)
    (json_dumps : row → string) (r : row) : Prop :=
  no_newline (json_dumps r) = true
  ∧ Py.strip (json_dumps r) ≠ ""
  ∧ json_loads (Py.strip (json_dumps r)) = Ok r.

(** A row with the fields [list] prints. *)
Definition well_formed (r : row) : Prop :=
  is_Some (r !! "id") ∧ is_Some (r !! "video_title")
  ∧ is_Some (r !! "transcript_path") ∧ is_Some (r !! "reference_blog_path").

(** The lines [list] prints for a well-formed row. *)
Definition entry_lines (r : row) : list string :=
  [ "- " +:+ default "" (r !! "id") +:+ ": "
      +:+ default "" (r !! "video_title") +:+ " ("
      +:+ default "professional" (r !! "tone") +:+ ")";
    "  transcript -> " +:+ default "" (r !! "transcript_path");
    "  reference  -> " +:+ default "" (r !! "reference_blog_path") ]
  ++ (if truthy (r !! "notes")
      then ["  notes      -> " +:+ default "" (r !! "notes")] else []).

(** The rows of a dataset that carry the id. *)
Definition with_id (id : string) (rows : list row) : list row :=
  filter (λ r : row, r !! "id" = Some id) rows.

(** A stand-in for the JSON codec, for running the store on examples: a
    row is written as its [key=value;] pairs.  It reads back the rows whose
    keys and values hold no ['='], no [';'] and no line break. *)
Fixpoint cut (sep : ascii) (s : string) : string * string :=
  match s with
  | "" => ("", "")
  | String c s' =>
      if bool_decide (c = sep) then ("", s')
      else let '(a, b) := cut sep s' in (String c a, b)
  end.

Definition kv_dumps (r : row) : string :=
  foldr (λ kv acc, kv.1 +:+ "=" +:+ kv.2 +:+ ";" +:+ acc) "" (map_to_list r).

Definition kv_loads (s : string) : result row :=
  Ok (list_to_map
        (cut "="%char <$> Py.split_by (λ c, bool_decide (c = ";"%char)) s)).

Definition args_a : PrepareDataset.add_args :=
  PrepareDataset.AddArgs "dataset.jsonl" "a" "Mini album tutorial"
    "https://youtu.be/abcd" "transcripts/a.txt" "references/a.md"
    "Educational" None.

Definition args_b : PrepareDataset.add_args :=
  PrepareDataset.AddArgs "dataset.jsonl" "b" "Second video"
    "https://youtu.be/efgh" "transcripts/b.txt" "references/b.md"
    "professional" (Some "tricky case").

(** A world whose dataset holds the row of [args_a]. *)
Definition world_a : PrepareDataset.world :=
  PrepareDataset.World
    (<["dataset.jsonl" :=
         kv_dumps (PrepareDataset.new_row args_a) +:+ String "010" ""]>
       (<["transcripts/a.txt" := "hello"]> ∅))
    [].

Definition world_ab : PrepareDataset.world :=
  (PrepareDataset.add_sample kv_loads kv_dumps args_b world_a).2.

(** ** Notions the further properties are stated with *)

(** The characters of a text. *)
Definition chars (s : string) : list ascii := String.list_ascii_of_string s.

(** A text of ASCII characters: on these the character classes of [Py] are
    Python's. *)
Definition ascii_text (s : string) : Prop :=
  Forall (λ c, Py.code c < 128) (chars s).

(** The failures [add] can end in before it has written anything: those of
    reading the dataset and of the check of the ids. *)
Definition read_failure (e : exn) : Prop :=
  match e with
  | SystemExit _ | KeyError _ | JSONDecodeError => True
  | _ => False
  end.

(** A text of [n] different words of five letters and more. *)
Fixpoint letters (n : nat) : string :=
  match n with
  | 0 => ""
  | S m => String "x" (letters m)
  end.

Fixpoint words_upto (n : nat) : string :=
  match n with
  | 0 => ""
  | S m => words_upto m +:+ " " +:+ letters (5 + m)
  end.

(** The exponent of the grid of floats a positive rational is rounded on. *)
Definition expo (x : Q) : Z := Z.max (Py.ilog2 x - 52) (-1074).

(** A character a token is made of: alphanumeric and its own lower case. *)
Definition token_char (c : ascii) : Prop :=
  Py.isalnum c = true ∧ Py.lower_char c = c.

(** A text of white space only. *)
Definition blank (s : string) : Prop := Forall (λ c, Py.isspace c = true) (chars s).

Global Instance blank_dec (s : string) : Decision (blank s).
Proof. unfold blank. apply _. Defined.

(** A text without a character [brk] holds of. *)
Definition no_break (brk : ascii → bool) (s : string) : Prop :=
  Forall (λ c, brk c = false) (chars s).

(** A heading line: white space, then ['#']. *)
Definition heading_line (line : string) : Prop :=
  ∃ a rest, line = a +:+ String "#" rest ∧ blank a.

(** The ids of the rows of a dataset that have one. *)
Definition row_ids (rows : list row) : gset string :=
  list_to_set (omap (λ r : row, r !! "id") rows).

(** A row [evaluate] can work on: it has an id and the two paths, and both
    files are there under [BASE_DIR]. *)
Definition usable_row (BASE_DIR : string) (files : fs) (r : row) : Prop :=
  ∃ sid tp rp,
    r !! "id" = Some sid ∧ r !! "transcript_path" = Some tp
    ∧ r !! "reference_blog_path" = Some rp
    ∧ is_Some (files !! Py.joinpath BASE_DIR tp)
    ∧ is_Some (files !! Py.joinpath BASE_DIR rp).

(** A small run: one row, its two files and a cached output, read with the
    stand-in codec and without the optional scorers. *)
Definition run_ext : externals :=
  Externals None None (λ _ _, Ok RespOther) kv_loads.

Definition run_row : row :=
  <["reference_blog_path" := "r.md"]>
    (<["transcript_path" := "t.txt"]> (<["id" := "v1"]> ∅)).

Definition run_files : gmap string string :=
  <["out/v1.md" := "# Quick fox"]>
    (<["base/r.md" := "The quick brown fox"]>
       (<["base/t.txt" := "hello"]>
          (<["dataset.jsonl" := kv_dumps run_row +:+ String "010" ""]> ∅))).

Definition run_results : gmap string (gmap string Qc) :=
  match evaluate run_ext "base" run_files "dataset.jsonl" "mock" "out" true None with
  | Ok results => results
  | Raise _ => ∅
  end.

(** The three metrics a successful semantic-similarity computation adds. *)
Definition bert_keys : list string := ["bert_precision"; "bert_recall"; "bert_f1"].

(** A row whose two files are there. *)
Definition valid_row (files : gmap string string) (r : row) : Prop :=
  ∃ tp rp,
    r !! "transcript_path" = Some tp ∧ r !! "reference_blog_path" = Some rp
    ∧ is_Some (files !! tp) ∧ is_Some (files !! rp).

(** The number of files a row refers to that are not there. *)
Definition missing_paths (files : gmap string string) (r : row) : nat :=
  (if decide (is_Some (r !! "transcript_path" ≫= (files !!.))) then 0 else 1)
  + (if decide (is_Some (r !! "reference_blog_path" ≫= (files !!.))) then 0 else 1).

(** The issues [validate] reports for a well-formed row. *)
Definition issues (files : gmap string string) (r : row) : list string :=
  (if decide (is_Some (r !! "transcript_path" ≫= (files !!.))) then []
   else ["Missing transcript for " +:+ default "" (r !! "id") +:+ ": "
         +:+ default "" (r !! "transcript_path")])
  ++ (if decide (is_Some (r !! "reference_blog_path" ≫= (files !!.))) then []
      else ["Missing reference for " +:+ default "" (r !! "id") +:+ ": "
            +:+ default "" (r !! "reference_blog_path")]).

(** The metrics whose values are scores between 0 and 1 whatever the
    optional scorers do; without the ROUGE scorer the two ROUGE keys are
    among them. *)
Definition unit_keys (rouge_scorer : option rouge_scorer_t) : list string :=
  ["keyword_recall"; "call_to_action"]
  ++ match rouge_scorer with
     | Some _ => []
     | None => ["rouge1_f"; "rougeL_f"]
     end.

(** The metrics of one sample, as a run with the ROUGE scorer [rouge]
    yields them. *)
Definition run_metrics (rouge : option rouge_scorer_t) (m : gmap string Qc)
    : Prop :=
  Forall (λ k, is_Some (m !! k)) base_keys
  ∧ Forall (λ k, ∀ v, m !! k = Some v → (0 <= v)%Qc ∧ (v <= 1)%Qc)
      (unit_keys rouge).

(** A URL parser and a query parser to run [extract_video_id] on examples:
    every URL is taken for a [youtube.com] page with the query [xv=1],
    which has no key [v]. *)
Definition urlparse_a : string → option Downloader.parse_result :=
  λ _, Some (Downloader.ParseResult "www.youtube.com" "/watch" "xv=1").

Definition parse_qs_a : string → gmap string (list string) :=
  λ _, {["xv" := ["1"]]}.

(** * Properties *)

(** Two rationals in lowest terms are equal as soon as they are equal as
    fractions; [qc_eq] closes a goal between computed [Qc] results. *)
Lemma Ok_Qc_eq (a b : Qc) : Qeq (this a) (this b) → Ok a = Ok b.
Proof. intros H. f_equal. by apply Qc_is_canon. Qed.

Ltac qc_eq :=
  vm_compute;
  first [ reflexivity
        | apply Ok_Qc_eq; reflexivity
        | apply Qc_is_canon; reflexivity ].

Example tokenize_ex :
  tokenize "The quick, brown fox: it JUMPS over 2 dogs!" =
  ["quick"; "brown"; "fox"; "jumps"; "over"; "2"; "dogs"].
Proof. vm_compute. reflexivity. Qed.

Example simple_overlap_ex :
  simple_overlap "the quick brown fox jumps" "a quick red fox" = Ok (Q2Qc (2 # 5)).
Proof. qc_eq. Qed.

Example splitlines_ex :
  Py.splitlines ("# a" +:+ String "013" (String "010" ("b" +:+ String "010" (String "010" "  ## c")))) =
  ["# a"; "b"; ""; "  ## c"].
Proof. vm_compute. reflexivity. Qed.

Example heading_count_ex :
  heading_count ("# a" +:+ String "010" ("b" +:+ String "010" "  ## c")) = 2.
Proof. vm_compute. reflexivity. Qed.

Example detect_cta_ex :
  detect_cta "Please Subscribe!" = true ∧ detect_cta "nothing here" = false.
Proof. vm_compute. done. Qed.

(** ** Tokenization *)

Section Tokenize.

Lemma lower_char_not_space (c : ascii) :
  Py.isalnum c = true → Py.isspace (Py.lower_char c) = false.
Proof. destruct c as [[] [] [] [] [] [] [] []]; vm_compute; done. Qed.

Lemma isalnum_lower_char (c : ascii) :
  Py.isalnum (Py.lower_char c) = Py.isalnum c.
Proof. destruct c as [[] [] [] [] [] [] [] []]; vm_compute; done. Qed.

(** Cleaning then splitting at white space is lower-casing then
    splitting at what is not alphanumeric. *)
Lemma split_go_clean (text : string) :
  Py.split_go Py.isspace (clean text)
  = Py.split_go (λ c, negb (Py.isalnum c)) (Py.lower text).
Proof.
  induction text as [|c text IH]; [done|].
  cbn [clean Py.lower Py.map_chars Py.split_go].
  fold (clean text). fold (Py.lower text). rewrite IH.
  destruct (Py.split_go _ (Py.lower text)) as [w ws].
  rewrite isalnum_lower_char.
  destruct (Py.isalnum c) eqn:Hc; simpl.
  - by rewrite lower_char_not_space.
  - done.
Qed.

Lemma split_clean (text : string) :
  Py.split (clean text)
  = Py.split_by (λ c, negb (Py.isalnum c)) (Py.lower text).
Proof. unfold Py.split, Py.split_by. by rewrite split_go_clean. Qed.

Lemma cons_word_nonempty (w : string) (ws : list string) :
  Forall (λ tok, tok ≠ "") ws → Forall (λ tok, tok ≠ "") (Py.cons_word w ws).
Proof. intros H. unfold Py.cons_word. case_decide; [done|]. by constructor. Qed.

Lemma split_go_nonempty (sep : ascii → bool) (s : string) :
  Forall (λ tok, tok ≠ "") (Py.split_go sep s).2.
Proof.
  induction s as [|c s IH]; simpl; [constructor|].
  destruct (Py.split_go sep s) as [w ws]. simpl in IH.
  destruct (sep c); simpl; [by apply cons_word_nonempty | done].
Qed.

(** No piece of a split is empty, so the [tok and ...] test of
    [tokenize] never drops anything. *)
Lemma split_by_nonempty (sep : ascii → bool) (s : string) :
  Forall (λ tok, tok ≠ "") (Py.split_by sep s).
Proof.
  unfold Py.split_by. pose proof (split_go_nonempty sep s) as H.
  destruct (Py.split_go sep s) as [w ws]. by apply cons_word_nonempty.
Qed.

Lemma filter_nonempty_and (P : string → Prop) `{!∀ x, Decision (P x)}
    (l : list string) :
  Forall (λ tok, tok ≠ "") l →
  filter (λ tok, tok ≠ "" ∧ P tok) l = filter P l.
Proof.
  induction 1 as [|x l Hx _ IH]; [done|].
  rewrite !filter_cons, IH.
  destruct (decide (P x)) as [HP|HP], (decide (x ≠ "" ∧ P x)) as [HQ|HQ];
    [done | by destruct HQ | by destruct HP; apply HQ | done].
Qed.

Lemma tokenize_spec (text : string) : tokenize text = spec_tokens text.
Proof.
  unfold tokenize, spec_tokens. rewrite split_clean.
  apply (filter_nonempty_and (λ tok, tok ∉ STOPWORDS)), split_by_nonempty.
Qed.

End Tokenize.

(** ** Arithmetic on the rationals that stand for floats *)

Section Floats.

(** [round_half_even] gives an integer at most one half away. *)
Lemma round_half_even_nearest (x : Q) :
  (Qabs (x - (Py.round_half_even x # 1)) <= 1 # 2)%Q.
Proof.
  destruct x as [n d]. unfold Py.round_half_even. cbn [Qnum Qden].
  pose proof (Z.div_mod n (Zpos d) ltac:(lia)) as Hdm.
  pose proof (Z.mod_pos_bound n (Zpos d) ltac:(lia)) as Hr.
  set (q := (n / Zpos d)%Z) in *. set (r := (n mod Zpos d)%Z) in *.
  apply Qabs_Qle_condition.
  destruct (Z.compare_spec (2 * r) (Zpos d)) as [He|Hl|Hg];
    [destruct (Z.even q)|..];
    unfold Qle, Qminus, Qplus, Qopp; cbn [Qnum Qden]; split; nia.
Qed.

(** Rounding to 4 decimal places: [round4 x] is a multiple of 1/10000 and
    at most half of 1/10000 away from [x]. *)
Lemma round4_nearest (x : Qc) :
  ∃ k : Z, Py.round4 x = Q2Qc (k # 10000)
           ∧ (Qabs (this x - (k # 10000)) <= 1 # 20000)%Q.
Proof.
  exists (Py.round_half_even (this x * (10000 # 1))). split; [done|].
  pose proof (round_half_even_nearest (this x * (10000 # 1))) as H.
  set (k := Py.round_half_even _) in *.
  apply Qabs_Qle_condition in H as [H1 H2]. apply Qabs_Qle_condition.
  destruct (this x) as [n d].
  unfold Qle, Qminus, Qplus, Qopp, Qmult in *. cbn [Qnum Qden] in *.
  split; lia.
Qed.

Lemma Q2Qc_le (p q : Q) : (Q2Qc p <= Q2Qc q)%Qc ↔ (p <= q)%Q.
Proof. unfold Qcle. simpl. by rewrite !Qred_correct. Qed.

(** Between two integers, rounding stays between them. *)
Lemma round_half_even_between (x : Q) (lo hi : Z) :
  (lo # 1 <= x)%Q → (x <= hi # 1)%Q →
  (lo ≤ Py.round_half_even x ≤ hi)%Z.
Proof.
  destruct x as [n d]. unfold Qle, Py.round_half_even. cbn [Qnum Qden].
  intros Hlo Hhi.
  pose proof (Z.div_mod n (Zpos d) ltac:(lia)) as Hdm.
  pose proof (Z.mod_pos_bound n (Zpos d) ltac:(lia)) as Hr.
  set (q := (n / Zpos d)%Z) in *. set (r := (n mod Zpos d)%Z) in *.
  destruct (Z.compare_spec (2 * r) (Zpos d)) as [He|Hl|Hg];
    [destruct (Z.even q)|..]; nia.
Qed.

(** Rounding keeps the order. *)
Lemma round_half_even_mono (x y : Q) :
  (x <= y)%Q → (Py.round_half_even x ≤ Py.round_half_even y)%Z.
Proof.
  destruct x as [n d], y as [m e]. unfold Qle, Py.round_half_even.
  cbn [Qnum Qden]. intros Hxy.
  pose proof (Z.div_mod n (Zpos d) ltac:(lia)) as Hdm.
  pose proof (Z.mod_pos_bound n (Zpos d) ltac:(lia)) as Hr.
  pose proof (Z.div_mod m (Zpos e) ltac:(lia)) as Hdm'.
  pose proof (Z.mod_pos_bound m (Zpos e) ltac:(lia)) as Hr'.
  set (q := (n / Zpos d)%Z) in *. set (r := (n mod Zpos d)%Z) in *.
  set (q' := (m / Zpos e)%Z) in *. set (r' := (m mod Zpos e)%Z) in *.
  assert (q ≤ q')%Z as Hq.
  { destruct (Z.le_gt_cases q q') as [|Hgt]; [done|]. exfalso.
    assert (Zpos d * (q' + 1) ≤ n)%Z as H1 by nia.
    assert (m + 1 ≤ Zpos e * (q' + 1))%Z as H2 by nia.
    pose proof (Z.mul_le_mono_nonneg_r _ _ (Zpos e) ltac:(lia) H1).
    pose proof (Z.mul_le_mono_nonneg_r _ _ (Zpos d) ltac:(lia) H2).
    nia. }
  destruct (Z.eq_dec q q') as [Heq|Hne].
  - subst q'. rewrite <- Heq in *.
    destruct (Z.compare_spec (2 * r) (Zpos d)) as [He|Hl|Hg],
             (Z.compare_spec (2 * r') (Zpos e)) as [He'|Hl'|Hg'];
      destruct (Z.even q); nia.
  - assert (q + 1 ≤ q')%Z by lia.
    destruct (Z.compare_spec (2 * r) (Zpos d)) as [He|Hl|Hg],
             (Z.compare_spec (2 * r') (Zpos e)) as [He'|Hl'|Hg'];
      destruct (Z.even q), (Z.even q'); lia.
Qed.

Lemma round4_0 : Py.round4 0 = 0%Qc.
Proof. qc_eq. Qed.

Lemma round4_1 : Py.round4 1 = 1%Qc.
Proof. qc_eq. Qed.

Lemma round4_mono (x y : Qc) : (x <= y)%Qc → (Py.round4 x <= Py.round4 y)%Qc.
Proof.
  intros Hxy. unfold Py.round4. apply Q2Qc_le.
  assert (Py.round_half_even (this x * (10000 # 1))
          ≤ Py.round_half_even (this y * (10000 # 1)))%Z as Hk.
  { apply round_half_even_mono. apply Qmult_le_compat_r; [exact Hxy | done]. }
  unfold Qle. simpl. lia.
Qed.

Lemma round4_range (x : Qc) :
  (0 <= x)%Qc → (x <= 1)%Qc → (0 <= Py.round4 x)%Qc ∧ (Py.round4 x <= 1)%Qc.
Proof.
  intros H0 H1. pose proof (round4_mono 0 x H0) as Hlo.
  pose proof (round4_mono x 1 H1) as Hhi.
  rewrite round4_0 in Hlo. rewrite round4_1 in Hhi. done.
Qed.

Lemma ratio_frac (a b : nat) :
  b ≠ 0 → ratio a b = Q2Qc (Z.of_nat a # Pos.of_nat b).
Proof.
  intros Hb. unfold ratio, Py.float_of_nat.
  apply Qc_is_canon. simpl. rewrite !Qred_correct.
  destruct b as [|b]; [done|].
  unfold Qeq, Qmult, Qinv. simpl.
  rewrite Pos.of_nat_succ. lia.
Qed.

Lemma ratio_0_l (b : nat) : ratio 0 b = 0%Qc.
Proof.
  unfold ratio, Py.float_of_nat. apply Qc_is_canon. simpl.
  rewrite !Qred_correct. unfold Qeq. simpl. lia.
Qed.

Lemma ratio_diag (n : nat) : n ≠ 0 → ratio n n = 1%Qc.
Proof.
  intros Hn. unfold ratio. apply Qcmult_inv_r.
  unfold Py.float_of_nat. intros H. apply (f_equal this) in H.
  assert (Qeq (Z.of_nat n # 1) 0) as Hq.
  { rewrite <- (Qred_correct (Z.of_nat n # 1)). change (Qred (Z.of_nat n # 1)) with (this (Q2Qc (Z.of_nat n # 1))). by rewrite H. }
  unfold Qeq in Hq. simpl in Hq. lia.
Qed.

Lemma ratio_le (a a' b : nat) : a ≤ a' → (ratio a b <= ratio a' b)%Qc.
Proof.
  intros Ha. destruct (decide (b = 0)) as [->|Hb].
  - unfold ratio, Py.float_of_nat. simpl.
    change (Q2Qc (0 # 1)) with 0%Qc. unfold Qcdiv.
    change (/ 0)%Qc with 0%Qc. rewrite !Qcmult_0_r. apply Qcle_refl.
  - rewrite !ratio_frac by done. apply Q2Qc_le.
    unfold Qle. simpl. nia.
Qed.

Lemma ratio_range (a b : nat) : a ≤ b → (0 <= ratio a b)%Qc ∧ (ratio a b <= 1)%Qc.
Proof.
  intros Hab. destruct (decide (b = 0)) as [->|Hb].
  - assert (a = 0) as -> by lia. by rewrite ratio_0_l.
  - rewrite ratio_frac by done. change 0%Qc with (Q2Qc 0). change 1%Qc with (Q2Qc 1).
    rewrite !Q2Qc_le. unfold Qle. simpl.
    assert (Z.pos (Pos.of_nat b) = Z.of_nat b) as ->; [|lia].
    by rewrite <- positive_nat_Z, Nat2Pos.id.
Qed.

End Floats.

(** ** The float nearest to a rational *)

Section Binary64.

Local Open Scope Q_scope.

Lemma inject_Z_le (a b : Z) : (a ≤ b)%Z → inject_Z a <= inject_Z b.
Proof. intros H. unfold Qle, inject_Z. simpl. lia. Qed.

Lemma inject_Z_lt (a b : Z) : (a < b)%Z → inject_Z a < inject_Z b.
Proof. intros H. unfold Qlt, inject_Z. simpl. lia. Qed.

Lemma pow2_pos (e : Z) : 0 < 2 ^ e.
Proof. by apply Qpower_0_lt. Qed.

Lemma pow2_plus (a b : Z) : 2 ^ (a + b) == 2 ^ a * 2 ^ b.
Proof. by apply Qpower_plus. Qed.

Lemma pow2_le (a b : Z) : (a ≤ b)%Z → 2 ^ a <= 2 ^ b.
Proof. intros H. by apply Qpower_le_compat_l. Qed.

Lemma pow2_lt (a b : Z) : (a < b)%Z → 2 ^ a < 2 ^ b.
Proof. intros H. by apply Qpower_lt_compat_l. Qed.

Lemma pow2_Z (e : Z) : (0 ≤ e)%Z → 2 ^ e == inject_Z (2 ^ e).
Proof. intros H. by rewrite Zpower_Qpower. Qed.

Lemma round_half_even_Z (k : Z) : Py.round_half_even (inject_Z k) = k.
Proof.
  pose proof (round_half_even_between (inject_Z k) k k
                (Qle_refl _) (Qle_refl _)) as H.
  lia.
Qed.

Lemma round_half_even_proper (x y : Q) :
  x == y → Py.round_half_even x = Py.round_half_even y.
Proof.
  intros H. apply Z.le_antisymm; apply round_half_even_mono; rewrite H;
    apply Qle_refl.
Qed.

(** [ilog2] is the integer part of the binary logarithm. *)
Lemma ilog2_spec (x : Q) :
  0 < x → 2 ^ Py.ilog2 x <= x ∧ x < 2 ^ (Py.ilog2 x + 1).
Proof.
  intros Hx. unfold Py.ilog2.
  destruct x as [n d]. cbn [Qnum Qden].
  assert (0 < n)%Z as Hn by (unfold Qlt in Hx; simpl in Hx; lia).
  destruct (Z.log2_spec n Hn) as [Ha1 Ha2].
  destruct (Z.log2_spec (Zpos d) ltac:(lia)) as [Hb1 Hb2].
  pose proof (Z.log2_nonneg n) as Ha0.
  pose proof (Z.log2_nonneg (Zpos d)) as Hb0.
  set (a := Z.log2 n) in *. set (b := Z.log2 (Zpos d)) in *.
  assert (inject_Z n == (n # d) * inject_Z (Zpos d)) as Hnd.
  { unfold Qeq, Qmult, inject_Z. simpl. lia. }
  assert (0 < inject_Z (Zpos d)) as Hd by (unfold Qlt, inject_Z; simpl; lia).
  assert (2 ^ a <= inject_Z n) as Ha1'.
  { rewrite pow2_Z by done. by apply inject_Z_le. }
  assert (inject_Z n < 2 ^ (a + 1)) as Ha2'.
  { rewrite pow2_Z by lia. apply inject_Z_lt. by rewrite Z.add_1_r. }
  assert (2 ^ b <= inject_Z (Zpos d)) as Hb1'.
  { rewrite pow2_Z by done. by apply inject_Z_le. }
  assert (inject_Z (Zpos d) < 2 ^ (b + 1)) as Hb2'.
  { rewrite pow2_Z by lia. apply inject_Z_lt. by rewrite Z.add_1_r. }
  destruct (Qle_bool (2 ^ (a - b)) (n # d)) eqn:Hc.
  - apply Qle_bool_iff in Hc. split; [done|].
    (* n/d < 2^(a-b+1) *)
    assert (2 ^ (a + 1) == 2 ^ (a - b + 1) * 2 ^ b) as Hp.
    { rewrite <- pow2_plus. by replace (a - b + 1 + b)%Z with (a + 1)%Z by lia. }
    pose proof (pow2_pos (a - b + 1)) as Hp1.
    destruct (Qlt_le_dec (n # d) (2 ^ (a - b + 1))) as [|Hge]; [done|].
    exfalso.
    assert (2 ^ (a - b + 1) * 2 ^ b <= (n # d) * inject_Z (Zpos d)) as Hbad.
    { apply Qmult_le_compat_nonneg; split; auto using Qlt_le_weak, pow2_pos. }
    rewrite <- Hp, <- Hnd in Hbad. lra.
  - assert (¬ 2 ^ (a - b) <= n # d) as Hlt.
    { intros H. apply Qle_bool_iff in H. congruence. }
    apply Qnot_le_lt in Hlt.
    replace (a - b - 1 + 1)%Z with (a - b)%Z by lia. split; [|done].
    assert (2 ^ a == 2 ^ (a - b - 1) * 2 ^ (b + 1)) as Hp.
    { rewrite <- pow2_plus. by replace (a - b - 1 + (b + 1))%Z with a by lia. }
    destruct (Qlt_le_dec (n # d) (2 ^ (a - b - 1))) as [Hlt'|]; [|done].
    exfalso.
    assert ((n # d) * inject_Z (Zpos d) <= 2 ^ (a - b - 1) * 2 ^ (b + 1)) as Hbad.
    { apply Qmult_le_compat_nonneg; split; auto using Qlt_le_weak, pow2_pos. }
    rewrite <- Hp, <- Hnd in Hbad.
    (* strict: need n/d*d < ... *)
    assert ((n # d) * inject_Z (Zpos d) < 2 ^ (a - b - 1) * 2 ^ (b + 1)) as Hbad'.
    { apply Qle_lt_trans with (2 ^ (a - b - 1) * inject_Z (Zpos d)).
      - apply Qmult_le_compat_r; auto using Qlt_le_weak.
      - apply Qmult_lt_l; [apply pow2_pos | done]. }
    rewrite <- Hp, <- Hnd in Hbad'. lra.
Qed.

Lemma ilog2_unique (x : Q) (l : Z) :
  0 < x → 2 ^ l <= x → x < 2 ^ (l + 1) → Py.ilog2 x = l.
Proof.
  intros Hx Hl1 Hl2. destruct (ilog2_spec x Hx) as [H1 H2].
  destruct (Z.lt_trichotomy (Py.ilog2 x) l) as [Hlt|[Heq|Hgt]]; [|done|].
  - exfalso. pose proof (pow2_le (Py.ilog2 x + 1) l ltac:(lia)). lra.
  - exfalso. pose proof (pow2_le (l + 1) (Py.ilog2 x) ltac:(lia)). lra.
Qed.

Lemma ilog2_proper (x y : Q) : 0 < x → x == y → Py.ilog2 x = Py.ilog2 y.
Proof.
  intros Hx Hxy. symmetry. destruct (ilog2_spec x Hx) as [H1 H2].
  apply ilog2_unique; rewrite <- ?Hxy; done.
Qed.

Lemma ilog2_mono (x y : Q) : 0 < x → x <= y → (Py.ilog2 x ≤ Py.ilog2 y)%Z.
Proof.
  intros Hx Hxy. assert (0 < y) as Hy by lra.
  destruct (ilog2_spec x Hx) as [H1 H2]. destruct (ilog2_spec y Hy) as [H3 H4].
  destruct (Z.le_gt_cases (Py.ilog2 x) (Py.ilog2 y)) as [|Hgt]; [done|].
  exfalso. pose proof (pow2_le (Py.ilog2 y + 1) (Py.ilog2 x) ltac:(lia)). lra.
Qed.

Lemma Qabs_pos_eq (x : Q) : 0 <= x → Qabs x = x.
Proof.
  destruct x as [n d]. unfold Qle. simpl. intros H.
  unfold Qabs. f_equal. lia.
Qed.

Lemma binary64_pos (x : Q) :
  0 < x →
  Py.binary64 x = inject_Z (Py.round_half_even (x / 2 ^ expo x)) * 2 ^ expo x.
Proof.
  intros Hx. unfold Py.binary64.
  destruct (Qeq_bool x 0) eqn:H0.
  { apply Qeq_bool_iff in H0. lra. }
  by rewrite Qabs_pos_eq by lra.
Qed.

Lemma binary64_0 : Py.binary64 0 == 0.
Proof. reflexivity. Qed.

Lemma binary64_zero (x : Q) : x == 0 → Py.binary64 x == 0.
Proof.
  intros H. unfold Py.binary64.
  destruct (Qeq_bool x 0) eqn:H0; [reflexivity|].
  assert (Qeq_bool x 0 = true) by by apply Qeq_bool_iff. congruence.
Qed.

Lemma binary64_proper (x y : Q) : 0 <= x → x == y → Py.binary64 x == Py.binary64 y.
Proof.
  intros Hx Hxy. destruct (Qlt_le_dec 0 x) as [Hpos|Hneg].
  - rewrite !binary64_pos by lra. unfold expo.
    rewrite <- (ilog2_proper x y) by done.
    erewrite (round_half_even_proper (x / _) (y / _)); [reflexivity|].
    by apply Qdiv_comp.
  - rewrite !binary64_zero; [reflexivity | lra | lra].
Qed.

(** A multiple of the grid step is rounded to itself. *)
Lemma scaled_int (k e : Z) : inject_Z k * 2 ^ e / 2 ^ e == inject_Z k.
Proof. pose proof (pow2_pos e). field. lra. Qed.

Lemma round_le_int (x : Q) (e k : Z) :
  x <= inject_Z k * 2 ^ e →
  inject_Z (Py.round_half_even (x / 2 ^ e)) * 2 ^ e <= inject_Z k * 2 ^ e.
Proof.
  intros H. pose proof (pow2_pos e) as Hp.
  apply Qmult_le_compat_r; [|lra]. apply inject_Z_le.
  rewrite <- (round_half_even_Z k). apply round_half_even_mono.
  apply Qle_shift_div_r; [done|]. done.
Qed.

Lemma round_ge_int (x : Q) (e k : Z) :
  inject_Z k * 2 ^ e <= x →
  inject_Z k * 2 ^ e <= inject_Z (Py.round_half_even (x / 2 ^ e)) * 2 ^ e.
Proof.
  intros H. pose proof (pow2_pos e) as Hp.
  apply Qmult_le_compat_r; [|lra]. apply inject_Z_le.
  rewrite <- (round_half_even_Z k) at 1. apply round_half_even_mono.
  apply Qle_shift_div_l; [done|]. done.
Qed.

Lemma binary64_nonneg (x : Q) : 0 <= x → 0 <= Py.binary64 x.
Proof.
  intros Hx. destruct (Qlt_le_dec 0 x) as [Hpos|Hneg].
  - rewrite binary64_pos by done.
    pose proof (round_ge_int x (expo x) 0) as H.
    assert (inject_Z 0 * 2 ^ expo x == 0) as H0 by (unfold inject_Z; ring).
    rewrite H0 in H. by apply H.
  - rewrite binary64_zero; lra.
Qed.

(** A power of two is on every finer grid. *)
Lemma pow2_on_grid (l e : Z) :
  (e ≤ l)%Z → 2 ^ l == inject_Z (2 ^ (l - e)) * 2 ^ e.
Proof.
  intros H. rewrite <- pow2_Z by lia. rewrite <- pow2_plus.
  by replace (l - e + e)%Z with l by lia.
Qed.

(** Rounding to the nearest double keeps the order. *)
Lemma binary64_mono (x y : Q) :
  0 <= x → x <= y → Py.binary64 x <= Py.binary64 y.
Proof.
  intros Hx Hxy. destruct (Qlt_le_dec 0 x) as [Hpos|Hneg].
  2:{ rewrite (binary64_zero x) by lra. apply binary64_nonneg. lra. }
  assert (0 < y) as Hy by lra.
  rewrite !binary64_pos by done.
  pose proof (ilog2_mono x y Hpos Hxy) as Hl.
  destruct (ilog2_spec x Hpos) as [Hx1 Hx2].
  destruct (ilog2_spec y Hy) as [Hy1 Hy2].
  destruct (Z.eq_dec (expo x) (expo y)) as [He|He].
  - rewrite He. pose proof (pow2_pos (expo y)) as Hp.
    apply Qmult_le_compat_r; [|lra]. apply inject_Z_le.
    apply round_half_even_mono. apply Qmult_le_compat_r; [done|].
    apply Qlt_le_weak, Qinv_lt_0_compat, Hp.
  - assert (expo x < expo y)%Z as Hlt by (unfold expo in *; lia).
    assert (expo y = Py.ilog2 y - 52)%Z as Hey by (unfold expo in *; lia).
    assert (Py.ilog2 x < Py.ilog2 y)%Z as Hll by (unfold expo in *; lia).
    assert (x <= 2 ^ Py.ilog2 y) as HxB.
    { pose proof (pow2_le (Py.ilog2 x + 1) (Py.ilog2 y) ltac:(lia)). lra. }
    pose proof (pow2_on_grid (Py.ilog2 y) (expo x) ltac:(unfold expo in *; lia))
      as Hgx.
    pose proof (pow2_on_grid (Py.ilog2 y) (expo y) ltac:(unfold expo in *; lia))
      as Hgy.
    pose proof (round_le_int x (expo x) (2 ^ (Py.ilog2 y - expo x))) as H1.
    pose proof (round_ge_int y (expo y) (2 ^ (Py.ilog2 y - expo y))) as H2.
    apply Qle_trans with (2 ^ Py.ilog2 y).
    + eapply Qle_trans; [apply H1; lra | lra].
    + eapply Qle_trans; [|apply H2; lra]. lra.
Qed.

Lemma binary64_1 : Py.binary64 1 == 1.
Proof. vm_compute. reflexivity. Qed.

Lemma binary64_unit (x : Q) : 0 <= x → x <= 1 → 0 <= Py.binary64 x ∧ Py.binary64 x <= 1.
Proof.
  intros H0 H1. split; [by apply binary64_nonneg|].
  rewrite <- binary64_1. by apply binary64_mono.
Qed.

(** A quotient at most 1 is within [2^-54] of its double. *)
Lemma binary64_error (x : Q) :
  0 <= x → x <= 1 → Qabs (Py.binary64 x - x) <= 1 # 18014398509481984.
Proof.
  intros H0 H1. destruct (Qlt_le_dec 0 x) as [Hpos|Hneg].
  2:{ assert (x == 0) as Hz by lra. rewrite (binary64_zero x Hz), Hz. done. }
  destruct (Qlt_le_dec x 1) as [Hlt|Hge].
  2:{ assert (x == 1) as Hz by lra.
      rewrite (binary64_proper x 1) by lra. rewrite binary64_1, Hz. done. }
  rewrite binary64_pos by done.
  destruct (ilog2_spec x Hpos) as [Hx1 Hx2].
  assert (Py.ilog2 x < 0)%Z as Hl.
  { destruct (Z.lt_ge_cases (Py.ilog2 x) 0) as [|Hge]; [done|]. exfalso.
    pose proof (pow2_le 0 (Py.ilog2 x) Hge) as H. change (2 ^ 0) with 1 in H. lra. }
  assert (expo x ≤ -53)%Z as He by (unfold expo; lia).
  pose proof (pow2_le (expo x) (-53) He) as Hp.
  pose proof (pow2_pos (expo x)) as Hp0.
  change (2 ^ (-53)) with (1 # 9007199254740992) in Hp.
  set (p := 2 ^ expo x) in *. set (t := x / p) in *.
  assert (x == t * p) as Hxe by (unfold t; field; lra).
  pose proof (round_half_even_nearest t) as Hr.
  set (m := Py.round_half_even t) in *.
  change (m # 1) with (inject_Z m) in Hr.
  apply Qabs_Qle_condition in Hr as [Hr1 Hr2]. apply Qabs_Qle_condition.
  clearbody m t p. split; rewrite Hxe; nra.
Qed.

(** Rounding the double of a quotient [n/d] of counts to 4 decimal places
    gives a multiple of 1/10000 that is nearest to the quotient itself, as
    soon as [d] is below [2^39]; always it is within [2^-54] of that. *)
Lemma round4_quotient (n : Z) (d : positive) :
  (0 ≤ n ≤ Zpos d)%Z →
  let k := Py.round_half_even (Py.binary64 (n # d) * (10000 # 1)) in
  Qabs ((n # d) - (k # 10000)) <= (1 # 20000) + (1 # 18014398509481984)
  ∧ ((Zpos d ≤ 549755813888)%Z → Qabs ((n # d) - (k # 10000)) <= 1 # 20000).
Proof.
  intros Hn k.
  assert (0 <= n # d) as H0 by (unfold Qle; simpl; lia).
  assert (n # d <= 1) as H1 by (unfold Qle; simpl; lia).
  pose proof (binary64_error (n # d) H0 H1) as He.
  pose proof (round_half_even_nearest (Py.binary64 (n # d) * (10000 # 1))) as Hr.
  fold k in Hr. set (x := Py.binary64 (n # d)) in *.
  assert ((k # 10000) == (k # 1) * (1 # 10000)) as Hk
    by (unfold Qeq, Qmult; simpl; lia).
  apply Qabs_Qle_condition in He as [He1 He2].
  apply Qabs_Qle_condition in Hr as [Hr1 Hr2].
  assert (Qabs ((n # d) - (k # 10000)) <= (1 # 20000) + (1 # 18014398509481984))
    as Hfirst.
  { apply Qabs_Qle_condition. rewrite Hk. split; lra. }
  split; [done|]. intros Hd.
  apply Qabs_Qle_condition in Hfirst as [Hf1 Hf2].
  assert (inject_Z n == (n # d) * inject_Z (Zpos d)) as Hnd.
  { unfold Qeq, Qmult, inject_Z. simpl. lia. }
  assert (0 < inject_Z (Zpos d)) as Hdp by (unfold Qlt, inject_Z; simpl; lia).
  assert (inject_Z (Zpos d) <= 549755813888 # 1) as Hdq
    by (unfold Qle, inject_Z; simpl; lia).
  assert (inject_Z (20000 * n - 2 * k * Zpos d)
          == (20000 # 1) * inject_Z n - (2 # 1) * (k # 1) * inject_Z (Zpos d))
    as Hz.
  { unfold Qeq, Qminus, Qplus, Qmult, Qopp, inject_Z. simpl. lia. }
  set (D := inject_Z (Zpos d)) in *. set (q := n # d) in *.
  set (K := k # 1) in *.
  assert (inject_Z (20000 * n - 2 * k * Zpos d) < D + 1) as Hup.
  { rewrite Hz, Hnd. rewrite Hk in Hf1, Hf2. nra. }
  assert (- (D + 1) < inject_Z (20000 * n - 2 * k * Zpos d)) as Hlo.
  { rewrite Hz, Hnd. rewrite Hk in Hf1, Hf2. nra. }
  unfold D, Qlt, Qplus, Qopp, inject_Z in Hup, Hlo. simpl in Hup, Hlo.
  apply Qabs_Qle_condition. unfold q, Qle, Qminus, Qplus, Qopp. simpl.
  split; lia.
Qed.

End Binary64.

(** ** The float quotient of two counts and its rounding *)

Section FloatQuotient.

Lemma to_float_0 : Py.to_float 0 = 0%Qc.
Proof. qc_eq. Qed.

Lemma to_float_1 : Py.to_float 1 = 1%Qc.
Proof. qc_eq. Qed.

Lemma to_float_mono (x y : Qc) :
  (0 <= x)%Qc → (x <= y)%Qc → (Py.to_float x <= Py.to_float y)%Qc.
Proof. intros Hx Hxy. unfold Py.to_float. apply Q2Qc_le. by apply binary64_mono. Qed.

Lemma to_float_range (x : Qc) :
  (0 <= x)%Qc → (x <= 1)%Qc →
  (0 <= Py.to_float x)%Qc ∧ (Py.to_float x <= 1)%Qc.
Proof.
  intros H0 H1. split.
  - pose proof (to_float_mono 0 x (Qcle_refl 0) H0) as H.
    by rewrite to_float_0 in H.
  - pose proof (to_float_mono x 1 H0 H1) as H. by rewrite to_float_1 in H.
Qed.

(** A score: the float quotient rounded to 4 decimal places. *)
Lemma score_range (x : Qc) :
  (0 <= x)%Qc → (x <= 1)%Qc →
  (0 <= Py.round4 (Py.to_float x))%Qc ∧ (Py.round4 (Py.to_float x) <= 1)%Qc.
Proof. intros H0 H1. by apply round4_range; apply to_float_range. Qed.

Lemma score_mono (x y : Qc) :
  (0 <= x)%Qc → (x <= y)%Qc →
  (Py.round4 (Py.to_float x) <= Py.round4 (Py.to_float y))%Qc.
Proof. intros H0 Hxy. by apply round4_mono, to_float_mono. Qed.

Lemma score_0 : Py.round4 (Py.to_float 0) = 0%Qc.
Proof. by rewrite to_float_0, round4_0. Qed.

Lemma score_1 : Py.round4 (Py.to_float 1) = 1%Qc.
Proof. by rewrite to_float_1, round4_1. Qed.

Lemma truediv_ratio (a b : nat) :
  b ≠ 0 → Py.truediv a b = Ok (Py.to_float (ratio a b)).
Proof.
  intros Hb. unfold Py.truediv. rewrite decide_False by done.
  by rewrite ratio_frac.
Qed.

(** The score of a quotient of counts is that quotient rounded to 4
    decimal places. *)
Lemma score_rounded (a b : nat) :
  a ≤ b → b ≠ 0 →
  ∃ k : Z,
    Py.round4 (Py.to_float (ratio a b)) = Q2Qc (k # 10000)
    ∧ (Qabs (this (ratio a b) - (k # 10000))
       <= (1 # 20000) + (1 # 18014398509481984))%Q
    ∧ ((Z.of_nat b ≤ 549755813888)%Z →
       (Qabs (this (ratio a b) - (k # 10000)) <= 1 # 20000)%Q).
Proof.
  intros Hab Hb.
  assert (Z.pos (Pos.of_nat b) = Z.of_nat b) as Hpos
    by (by rewrite <- positive_nat_Z, Nat2Pos.id).
  destruct (round4_quotient (Z.of_nat a) (Pos.of_nat b) ltac:(lia)) as [H1 H2].
  assert (this (ratio a b) == Z.of_nat a # Pos.of_nat b)%Q as Hq.
  { rewrite ratio_frac by done. apply Qred_correct. }
  assert (Py.round_half_even (this (Py.to_float (ratio a b)) * (10000 # 1))
          = Py.round_half_even
              (Py.binary64 (Z.of_nat a # Pos.of_nat b) * (10000 # 1))) as Hk.
  { apply round_half_even_proper. apply Qmult_comp; [|reflexivity].
    unfold Py.to_float. simpl. rewrite Qred_correct.
    apply binary64_proper; [|done].
    destruct (ratio_range a b Hab) as [H0 _]. exact H0. }
  exists (Py.round_half_even
            (Py.binary64 (Z.of_nat a # Pos.of_nat b) * (10000 # 1))).
  split_and!.
  - unfold Py.round4. by rewrite Hk.
  - by rewrite Hq.
  - intros Hsize. rewrite Hq. apply H2. by rewrite Hpos.
Qed.

End FloatQuotient.


(** ** Lexical overlap and keyword recall *)

Section Overlap.

Lemma list_to_set_filter_gset (P : string → Prop) `{!∀ x, Decision (P x)}
    (l : list string) :
  list_to_set (filter P l) =@{gset string} filter P (list_to_set l).
Proof.
  apply set_eq. intros x.
  rewrite elem_of_filter, !elem_of_list_to_set, list_elem_of_filter. done.
Qed.

Lemma size_union_nonempty (A B : gset string) : A ≠ ∅ → size (A ∪ B) ≠ 0.
Proof. intros HA Hs. apply size_empty_iff in Hs. apply HA. set_solver. Qed.

Lemma size_nonempty (A : gset string) : A ≠ ∅ → size A ≠ 0.
Proof. intros HA Hs. apply size_empty_iff in Hs. apply HA. set_solver. Qed.

(** [simple_overlap] never raises: it is [0.0] on a reference without
    content words and otherwise the float of the Jaccard similarity,
    rounded. *)
Lemma simple_overlap_eq (reference generated : string) :
  simple_overlap reference generated
  = Ok (if decide (spec_token_set reference = ∅) then 0%Qc
        else Py.round4 (Py.to_float (jaccard (spec_token_set reference)
                                             (spec_token_set generated)))).
Proof.
  unfold simple_overlap. rewrite !tokenize_spec. fold (spec_token_set reference).
  fold (spec_token_set generated). case_decide as HR; [done|].
  rewrite truediv_ratio by by apply size_union_nonempty. done.
Qed.

Lemma keyword_recall_eq (reference generated : string) :
  keyword_recall reference generated
  = Ok (if decide (spec_keyword_set reference = ∅) then 0%Qc
        else Py.round4 (Py.to_float (recall (spec_keyword_set reference)
                                            (spec_token_set generated)))).
Proof.
  unfold keyword_recall. rewrite !tokenize_spec, list_to_set_filter_gset.
  fold (spec_token_set reference). fold (spec_keyword_set reference).
  fold (spec_token_set generated). case_decide as HK; [done|].
  rewrite truediv_ratio by by apply size_nonempty. done.
Qed.

Lemma jaccard_comm (A B : gset string) : jaccard A B = jaccard B A.
Proof. unfold jaccard. by rewrite (comm_L (∩) A B), (comm_L (∪) A B). Qed.

Lemma jaccard_empty_r (A : gset string) : jaccard A ∅ = 0%Qc.
Proof.
  unfold jaccard. rewrite (right_absorb_L ∅ (∩) A), size_empty.
  apply ratio_0_l.
Qed.

Lemma jaccard_diag (A : gset string) : A ≠ ∅ → jaccard A A = 1%Qc.
Proof.
  intros HA. unfold jaccard. rewrite (idemp_L (∩) A), (idemp_L (∪) A).
  by apply ratio_diag, size_nonempty.
Qed.

Lemma simple_overlap_comm (a b : string) :
  simple_overlap a b = simple_overlap b a.
Proof.
  rewrite !simple_overlap_eq. f_equal.
  destruct (decide (spec_token_set a = ∅)) as [Ha|Ha],
           (decide (spec_token_set b = ∅)) as [Hb|Hb]; [done | | |].
  - by rewrite Ha, jaccard_empty_r, score_0.
  - by rewrite Hb, jaccard_empty_r, score_0.
  - by rewrite jaccard_comm.
Qed.

Lemma simple_overlap_diag (text : string) :
  spec_token_set text ≠ ∅ → simple_overlap text text = Ok 1%Qc.
Proof.
  intros H. rewrite simple_overlap_eq. case_decide; [done|].
  by rewrite jaccard_diag, score_1.
Qed.

Lemma inter_size_le_union (A B : gset string) : size (A ∩ B) ≤ size (A ∪ B).
Proof.
  apply subseteq_size. intros x Hx.
  apply elem_of_intersection in Hx as [Hx _]. by apply elem_of_union_l.
Qed.

Lemma inter_size_le (A B : gset string) : size (A ∩ B) ≤ size A.
Proof.
  apply subseteq_size. intros x Hx.
  by apply elem_of_intersection in Hx as [Hx _].
Qed.

Lemma token_sets (text : string) :
  list_to_set (tokenize text) = spec_token_set text
  ∧ list_to_set (filter (λ tok, 4 < String.length tok) (tokenize text))
    = spec_keyword_set text.
Proof.
  rewrite tokenize_spec. split; [done|]. apply list_to_set_filter_gset.
Qed.

Lemma spec_token_set_empty_text : spec_token_set "" = ∅.
Proof. reflexivity. Qed.

Lemma spec_keyword_set_empty_text : spec_keyword_set "" = ∅.
Proof. unfold spec_keyword_set. rewrite spec_token_set_empty_text. set_solver. Qed.

End Overlap.

(** C1.  For every reference and generated text the lexical-overlap metric
    returns, without raising, [0.0] when the reference has no content word,
    and otherwise the Jaccard similarity |R ∩ G| / |R ∪ G| of the two sets
    of content words rounded to 4 decimal places, as Python rounds the
    float quotient: a multiple of 1/10000 that is within 1/20000 + 2^-54 of
    the similarity, and at most 1/20000 away from it, so a nearest one,
    when the union has at most 2^39 words.  For ASCII texts the content
    words are the pieces of the lower-cased text between non-alphanumeric
    characters that are not stop words. *)
Theorem simple_overlap_jaccard (reference generated : string) :
  let R : gset string := list_to_set (tokenize reference) in
  let G : gset string := list_to_set (tokenize generated) in
  (∃ v : Qc,
     simple_overlap reference generated = Ok v
     ∧ (R = ∅ → v = 0%Qc)
     ∧ (R ≠ ∅ →
        v = Py.round4 (Py.to_float (jaccard R G))
        ∧ ∃ k : Z,
            v = Q2Qc (k # 10000)
            ∧ (Qabs (this (jaccard R G) - (k # 10000))
               <= (1 # 20000) + (1 # 18014398509481984))%Q
            ∧ ((Z.of_nat (size (R ∪ G)) ≤ 2 ^ 39)%Z →
               (Qabs (this (jaccard R G) - (k # 10000)) <= 1 # 20000)%Q)))
  ∧ (ascii_text reference → R = spec_token_set reference)
  ∧ (ascii_text generated → G = spec_token_set generated).
Proof.
  intros R G.
  destruct (token_sets reference) as [HR _].
  destruct (token_sets generated) as [HG _].
  split_and!; [|done..].
  rewrite simple_overlap_eq. rewrite <- HR, <- HG. fold R G.
  eexists. split; [done|]. split.
  - intros Hempty. by rewrite decide_True.
  - intros Hne. rewrite decide_False by done. split; [done|].
    unfold jaccard.
    destruct (score_rounded (size (R ∩ G)) (size (R ∪ G))
                (inter_size_le_union R G) (size_union_nonempty R G Hne))
      as (k & Hk & Hnear & Hnearest).
    exists k. split_and!; [done | done |]. intros Hsize. by apply Hnearest.
Qed.

(** C5.  For every reference and generated text keyword recall returns,
    without raising, [0.0] when the keyword set is empty and otherwise
    |K ∩ G| / |K| rounded to 4 decimal places, as Python rounds the float
    quotient: a multiple of 1/10000 that is within 1/20000 + 2^-54 of the
    quotient, and at most 1/20000 away from it, so a nearest one, when
    there are at most 2^39 keywords.  The keyword set K is the set of the
    reference's tokens, stop words dropped, of more than 4 characters and
    G the set of the generated text's tokens; for ASCII texts these are
    the content words as the specification words them.  On the empty
    reference keyword recall and lexical overlap are both [0.0], whatever
    the generated text. *)
Theorem keyword_recall_formula (reference generated : string) :
  let K : gset string :=
    list_to_set (filter (λ tok, 4 < String.length tok) (tokenize reference)) in
  let G : gset string := list_to_set (tokenize generated) in
  (∃ v : Qc,
     keyword_recall reference generated = Ok v
     ∧ (K = ∅ → v = 0%Qc)
     ∧ (K ≠ ∅ →
        v = Py.round4 (Py.to_float (recall K G))
        ∧ ∃ k : Z,
            v = Q2Qc (k # 10000)
            ∧ (Qabs (this (recall K G) - (k # 10000))
               <= (1 # 20000) + (1 # 18014398509481984))%Q
            ∧ ((Z.of_nat (size K) ≤ 2 ^ 39)%Z →
               (Qabs (this (recall K G) - (k # 10000)) <= 1 # 20000)%Q)))
  ∧ (ascii_text reference → K = spec_keyword_set reference)
  ∧ (ascii_text generated → G = spec_token_set generated)
  ∧ keyword_recall "" generated = Ok 0%Qc
  ∧ simple_overlap "" generated = Ok 0%Qc.
Proof.
  intros K G.
  destruct (token_sets reference) as [_ HK].
  destruct (token_sets generated) as [HG _].
  split_and!; [|done|done| |].
  - rewrite keyword_recall_eq. rewrite <- HK, <- HG. fold K G.
    eexists. split; [done|]. split.
    + intros Hempty. by rewrite decide_True.
    + intros Hne. rewrite decide_False by done. split; [done|].
      unfold recall.
      destruct (score_rounded (size (K ∩ G)) (size K)
                  (inter_size_le K G) (size_nonempty K Hne))
        as (k & Hk & Hnear & Hnearest).
      exists k. split_and!; [done | done |]. intros Hsize. by apply Hnearest.
  - rewrite keyword_recall_eq, spec_keyword_set_empty_text. by case_decide.
  - rewrite simple_overlap_eq, spec_token_set_empty_text. by case_decide.
Qed.

(** At an exact tie of the fifth decimal the float quotient decides:
    1/160 gives 0.0063 and 3/160 gives 0.0187, as in Python. *)
Example score_ties :
  Py.truediv 1 160 = Ok (Q2Qc (3602879701896397 # 576460752303423488))
  ∧ Py.round4 (Py.to_float (ratio 1 160)) = Q2Qc (63 # 10000)
  ∧ Py.round4 (Py.to_float (ratio 3 160)) = Q2Qc (187 # 10000)
  ∧ simple_overlap (words_upto 160) (words_upto 1) = Ok (Q2Qc (63 # 10000))
  ∧ keyword_recall (words_upto 160) (words_upto 3) = Ok (Q2Qc (187 # 10000)).
Proof. split_and!; qc_eq. Qed.

Example keyword_recall_half :
  keyword_recall "hello world" "hello" = Ok (Q2Qc (1 # 2)).
Proof. qc_eq. Qed.

Example keyword_recall_full :
  keyword_recall "hello" "hello world" = Ok 1%Qc.
Proof. qc_eq. Qed.

(** C6.  Lexical overlap is symmetric in its two texts; keyword recall is
    not: for "hello world" and "hello" it is 0.5 one way and 1.0 the
    other. *)
Theorem overlap_symmetric_recall_not :
  (∀ a b : string, simple_overlap a b = simple_overlap b a)
  ∧ (∃ a b : string, keyword_recall a b ≠ keyword_recall b a).
Proof.
  split; [apply simple_overlap_comm|].
  exists "hello world", "hello".
  rewrite keyword_recall_half, keyword_recall_full.
  intros H. injection H as H. discriminate H.
Qed.

(** C4.  Without the ROUGE scorer, [rouge1_f] and [rougeL_f] are both the
    lexical-overlap score of the pair, and that score is 1.0 for a text
    with at least one content word compared with itself, as for
    "the quick brown fox jumps". *)
Theorem rouge_fallback_overlap (reference generated text : string) :
  spec_token_set text ≠ ∅ →
  (∃ (overlap : Qc) (scores : gmap string Qc),
      simple_overlap reference generated = Ok overlap
      ∧ rouge_scores None reference generated = Ok scores
      ∧ scores !! "rouge1_f" = Some overlap
      ∧ scores !! "rougeL_f" = Some overlap)
  ∧ simple_overlap text text = Ok 1%Qc
  ∧ simple_overlap "the quick brown fox jumps" "the quick brown fox jumps"
    = Ok 1%Qc.
Proof.
  intros Htext. split_and!.
  - unfold rouge_scores. rewrite simple_overlap_eq.
    eexists _, _. split_and!; [done | done | |].
    + by rewrite lookup_insert_ne, lookup_insert_eq.
    + by rewrite lookup_insert_eq.
  - by apply simple_overlap_diag.
  - qc_eq.
Qed.

Lemma rouge_fallback_overlap_witness :
  spec_token_set "the quick brown fox jumps" ≠ ∅
  ∧ simple_overlap "the quick brown fox jumps" "the quick brown fox jumps"
    = Ok 1%Qc.
Proof.
  assert (spec_token_set "the quick brown fox jumps" ≠ ∅) as H.
  { intros H. apply (f_equal size) in H. vm_compute in H. discriminate H. }
  split; [exact H|].
  exact (proj1 (proj2 (rouge_fallback_overlap "a red fox" "the fox"
                         "the quick brown fox jumps" H))).
Defined.

(** ** The metric set of a sample *)

Section CollectMetrics.

Lemma rouge_scores_ok (scorer : option rouge_scorer_t)
    (reference generated : string) :
  ∃ a b : Qc,
    rouge_scores scorer reference generated
    = Ok (<["rougeL_f" := b]> (<["rouge1_f" := a]> ∅)).
Proof.
  destruct scorer as [score|]; simpl.
  - by eexists _, _.
  - rewrite simple_overlap_eq. by eexists _, _.
Qed.

(** The [try] block only adds keys. *)
Lemma collect_bert_keeps (bert : bert_score_t) (reference generated : string)
    (bert_model : option string) (metrics : gmap string Qc) (k : string) :
  is_Some (metrics !! k) →
  is_Some (collect_bert bert reference generated bert_model metrics !! k).
Proof.
  intros Hk. unfold collect_bert.
  destruct (bert _ _ _) as [|[p|] [r|] [f|]]; cbn zeta;
    repeat (apply lookup_insert_is_Some'; right); done.
Qed.

Lemma collect_bert_sentinel (bert : bert_score_t) (reference generated : string)
    (bert_model : option string) (metrics : gmap string Qc) :
  bert_fails (bert [generated] [reference] (bert_call_kwargs bert_model)) →
  collect_bert bert reference generated bert_model metrics !! "bert_f1_error"
  = Some 1%Qc.
Proof.
  unfold collect_bert, bert_call_kwargs.
  destruct (bert _ _ _) as [|[p|] [r|] [f|]]; cbn zeta; intros Hfail;
    rewrite ?lookup_insert_eq; try done.
  by destruct Hfail as [?|[?|?]].
Qed.

Lemma base_keys_present (a b c d e f g : Qc) :
  let metrics : gmap string Qc :=
    <["word_count_reference" := g]>
      (<["word_count_generated" := f]>
        (<["heading_count" := e]>
          (<["call_to_action" := d]>
            (<["keyword_recall" := c]>
              (<["rougeL_f" := b]> (<["rouge1_f" := a]> ∅) ∪ ∅))))) in
  Forall (λ k, is_Some (metrics !! k)) base_keys.
Proof.
  intros metrics. unfold metrics, base_keys. rewrite (right_id_L ∅ (∪)).
  repeat (constructor;
          [repeat (first [ by rewrite lookup_insert_eq
                         | rewrite lookup_insert_ne by done ]) |]).
  constructor.
Qed.

End CollectMetrics.

(** C10.  For every pair of texts and every configuration of the optional
    scorers, [collect_metrics] returns a result that holds the seven base
    keys; when the semantic-similarity scorer is there, is not skipped, and
    its computation fails, the result also holds [bert_f1_error] set to
    1.0. *)
Theorem collect_metrics_keys (rouge : option rouge_scorer_t)
    (bert_score : option bert_score_t) (reference generated : string)
    (skip_bert : bool) (bert_model : option string) :
  ∃ metrics : gmap string Qc,
    collect_metrics rouge bert_score reference generated skip_bert bert_model
    = Ok metrics
    ∧ Forall (λ k, is_Some (metrics !! k)) base_keys
    ∧ ∀ bert : bert_score_t,
        bert_score = Some bert → skip_bert = false →
        bert_fails (bert [generated] [reference] (bert_call_kwargs bert_model)) →
        metrics !! "bert_f1_error" = Some 1%Qc.
Proof.
  unfold collect_metrics.
  destruct (rouge_scores_ok rouge reference generated) as (a & b & ->).
  rewrite keyword_recall_eq. simpl.
  destruct bert_score as [bert|]; [destruct skip_bert|].
  - eexists. split_and!; [done | apply base_keys_present | done].
  - eexists. split_and!; [done | |].
    + eapply Forall_impl; [apply base_keys_present|].
      intros k. apply collect_bert_keeps.
    + intros bert' Hb _. injection Hb as <-. apply collect_bert_sentinel.
  - eexists. split_and!; [done | apply base_keys_present | done].
Qed.

Lemma collect_metrics_keys_witness :
  ∃ metrics : gmap string Qc,
    collect_metrics None (Some (λ _ _ _, BertRaises)) "the quick brown fox"
      "# A quick fox" false None = Ok metrics
    ∧ Forall (λ k, is_Some (metrics !! k)) base_keys
    ∧ metrics !! "bert_f1_error" = Some 1%Qc.
Proof.
  destruct (collect_metrics_keys None (Some (λ _ _ _, BertRaises))
              "the quick brown fox" "# A quick fox" false None)
    as (metrics & Hrun & Hkeys & Hbert).
  exists metrics. split_and!; [exact Hrun | exact Hkeys |].
  apply (Hbert (λ _ _ _, BertRaises)); [reflexivity | reflexivity | exact I].
Defined.

(** ** The output resolver *)

Section Resolver.

Lemma getitem_Some (d : gmap string string) (k v : string) :
  d !! k = Some v → getitem d k = Ok v.
Proof. intros H. unfold getitem. by rewrite H. Qed.

Lemma append_cons (c : ascii) (a b : string) :
  String c a +:+ b = String c (a +:+ b).
Proof. reflexivity. Qed.

Lemma startswith_append (p s : string) : Py.startswith p (p +:+ s) = true.
Proof.
  induction p as [|c p IH]; [by destruct s|].
  rewrite append_cons. simpl. rewrite IH. by rewrite bool_decide_eq_true_2.
Qed.

Lemma contains_startswith (p s : string) :
  Py.startswith p s = true → Py.contains p s = true.
Proof. intros H. destruct s; simpl; rewrite H; done. Qed.

Lemma contains_append_l (p a s : string) :
  Py.contains p s = true → Py.contains p (a +:+ s) = true.
Proof.
  intros H. induction a as [|c a IH]; [done|].
  rewrite append_cons. simpl. rewrite IH. apply orb_true_r.
Qed.

(** A text names [p] when [p] occurs in it. *)
Lemma contains_infix (p a b : string) : Py.contains p (a +:+ p +:+ b) = true.
Proof. apply contains_append_l, contains_startswith, startswith_append. Qed.

Lemma find_cached_missing (files : fs) (sample : row)
    (generated_dir sid : string) :
  sample !! "id" = Some sid →
  files !! Py.joinpath generated_dir (sid +:+ ".md") = None →
  files !! Py.joinpath generated_dir (sid +:+ ".txt") = None →
  find_cached files sample generated_dir [".md"; ".txt"]
  = Raise (FileNotFoundError
             ("No cached output found for sample " +:+ sid +:+ " in "
              +:+ generated_dir)).
Proof.
  intros Hid Hmd Htxt. unfold find_cached, getitem. rewrite Hid. simpl.
  rewrite Hmd, Htxt.
  rewrite !decide_False by (intros [? ?]; done). done.
Qed.

End Resolver.

(** C8.  In cached mode (any mode but "live"), when neither
    [generated_dir / "<id>.md"] nor [generated_dir / "<id>.txt"] exists,
    resolving the generated text raises [FileNotFoundError] with a message
    that names the sample id; no text is returned. *)
Theorem cached_missing_raises (generate_blog : generate_blog_t) (files : fs)
    (sample : row) (mode generated_dir sid : string) :
  mode ≠ "live" →
  sample !! "id" = Some sid →
  files !! Py.joinpath generated_dir (sid +:+ ".md") = None →
  files !! Py.joinpath generated_dir (sid +:+ ".txt") = None →
  ∃ msg : string,
    resolve_generated_text generate_blog files sample mode generated_dir
    = Raise (FileNotFoundError msg)
    ∧ Py.contains sid msg = true.
Proof.
  intros Hmode Hid Hmd Htxt. unfold resolve_generated_text.
  rewrite decide_False by done.
  rewrite (find_cached_missing files sample generated_dir sid) by done.
  eexists. split; [done|]. apply contains_infix.
Qed.

Lemma cached_missing_raises_witness :
  ∃ msg : string,
    resolve_generated_text (λ _ _, Ok RespOther)
      (<["mock_outputs/other.md" := "# Other"]> ∅)
      (<["id" := "video1"]> ∅) "mock" "mock_outputs"
    = Raise (FileNotFoundError msg)
    ∧ Py.contains "video1" msg = true.
Proof.
  apply (cached_missing_raises _ _ _ "mock" "mock_outputs" "video1").
  - vm_compute. discriminate.
  - reflexivity.
  - vm_compute. reflexivity.
  - vm_compute. reflexivity.
Defined.

Example cached_md_found :
  resolve_generated_text (λ _ _, Ok RespOther)
    (<["mock_outputs/video1.md" := " # Title "]> ∅)
    (<["id" := "video1"]> ∅) "mock" "mock_outputs"
  = Ok "# Title".
Proof. vm_compute. reflexivity. Qed.

(** C3, at the input where the code departs from it: the capability
    reports success with empty content, and live mode returns the empty text
    as a success instead of failing. *)
Lemma live_empty_content_returned :
  empty_success "hello and welcome" "professional"
  = Ok (RespDict (<["blog_post" := ""]> (<["status" := "success"]> ∅)))
  ∧ resolve_generated_text empty_success ∅ sample1 "live" "mock_outputs"
    = Ok "".
Proof. split; [reflexivity | vm_compute; reflexivity]. Qed.

(** In live mode, for a sample with a transcript and an id, the status of
    a structured result decides: a status other than "success" makes the
    resolution raise [RuntimeError] with a message that names the sample
    and carries the capability's message; with the status "success" the
    content under [blog_post] is returned as it is, no check made of it. *)
Lemma live_status_decides (generate_blog : generate_blog_t) (files : fs)
    (sample : row) (generated_dir transcript sid : string)
    (d : gmap string string) :
  sample !! "transcript" = Some transcript →
  sample !! "id" = Some sid →
  generate_blog transcript (live_tone sample) = Ok (RespDict d) →
  resolve_generated_text generate_blog files sample "live" generated_dir
  = if decide (d !! "status" = Some "success") then getitem d "blog_post"
    else Raise (RuntimeError
                  ("Model call failed for " +:+ sid +:+ ": "
                   +:+ fmt_get (d !! "message"))).
Proof.
  intros Ht Hid Hgb. unfold resolve_generated_text.
  rewrite decide_True by done.
  rewrite (getitem_Some sample "transcript" transcript) by done. simpl.
  rewrite Hgb. simpl.
  destruct (decide (d !! "status" = Some "success")) as [Hs|Hs].
  - by rewrite decide_False by (intros H; by apply H).
  - rewrite decide_True by done.
    by rewrite (getitem_Some sample "id" sid) by done.
Qed.

Example live_status_error :
  resolve_generated_text failing_capability ∅ sample1 "live" "mock_outputs"
  = Raise (RuntimeError "Model call failed for video1: rate limit").
Proof.
  exact (live_status_decides failing_capability ∅ sample1 "mock_outputs"
           "hello and welcome" "video1"
           (<["message" := "rate limit"]> (<["status" := "error"]> ∅))
           eq_refl eq_refl eq_refl).
Qed.

(** ** The tone of a sample *)

Section Tone.

Lemma tone_instructions_recognized (tone : string) :
  tone_instructions !! tone = None ↔ tone ∉ recognized_tones.
Proof.
  unfold tone_instructions, recognized_tones.
  rewrite <- not_elem_of_list_to_map. simpl.
  reflexivity.
Qed.

Lemma make_sample_lookup (sid transcript reference : string) (r : row) :
  (make_sample sid transcript reference r) !! "tone"
    = Some (default "professional" (r !! "tone"))
  ∧ (make_sample sid transcript reference r) !! "transcript"
    = Some transcript
  ∧ (make_sample sid transcript reference r) !! "id" = Some sid.
Proof.
  unfold make_sample. split_and!.
  - by rewrite lookup_insert_eq.
  - by rewrite !lookup_insert_ne, lookup_insert_eq by done.
  - by rewrite !lookup_insert_ne, lookup_insert_eq by done.
Qed.

(** In live mode the capability is only ever called with the lower-cased
    tone of the record. *)
Lemma resolve_live_tone (generate_blog : generate_blog_t) (files : fs)
    (sid transcript reference generated_dir : string) (r : row) :
  resolve_generated_text generate_blog files
    (make_sample sid transcript reference r) "live" generated_dir
  = resolve_generated_text
      (λ t _, generate_blog t (Py.lower (default "professional" (r !! "tone"))))
      files (make_sample sid transcript reference r) "live" generated_dir.
Proof.
  destruct (make_sample_lookup sid transcript reference r) as (Htone & _ & _).
  unfold resolve_generated_text. rewrite !decide_True by done.
  unfold live_tone. by rewrite Htone.
Qed.

Lemma evaluate_row_live_tone (ext : externals) (BASE_DIR : string) (files : fs)
    (generated_dir : string) (skip_bert : bool) (bert_model : option string)
    (r : row) :
  evaluate_row ext BASE_DIR files "live" generated_dir skip_bert bert_model r
  = evaluate_row
      (Externals (rouge_scorer ext) (bert_score ext)
         (λ t _, generate_blog ext t
                   (Py.lower (default "professional" (r !! "tone"))))
         (json_loads ext))
      BASE_DIR files "live" generated_dir skip_bert bert_model r.
Proof.
  unfold evaluate_row.
  destruct (getitem r "id") as [sid|]; [|done].
  destruct (getitem r "transcript_path") as [tp|]; [|done].
  destruct (getitem r "reference_blog_path") as [rp|]; [|done].
  cbn [mbind result_bind].
  destruct (read_text files (Py.joinpath BASE_DIR tp)) as [t|]; [|done].
  destruct (read_text files (Py.joinpath BASE_DIR rp)) as [ref|]; [|done].
  cbn [mbind result_bind generate_blog rouge_scorer bert_score].
  by rewrite resolve_live_tone.
Qed.

End Tone.

(** C9, as stated, fails: the record's tone "Educational" is not one of
    the recognized values, yet the tone the capability is called with, and
    works with, is "educational": neither "professional" nor the record's
    value. *)
Lemma tone_capitalised_not_defaulted :
  capitalised_row !! "tone" = Some "Educational"
  ∧ tone_instructions !! "Educational" = None
  ∧ ("Educational" ∉ recognized_tones)
  ∧ resolve_generated_text echo_tone ∅ capitalised_sample "live" "mock_outputs"
    = Ok "educational"
  ∧ effective_tone (live_tone capitalised_sample) = "educational"
  ∧ effective_tone (live_tone capitalised_sample) ≠ "professional"
  ∧ effective_tone (live_tone capitalised_sample) ≠ "Educational".
Proof.
  split_and!; try (vm_compute; reflexivity); try (vm_compute; discriminate).
  unfold recognized_tones. rewrite !elem_of_cons, elem_of_nil.
  intros [H|[H|[H|[H|[]]]]]; discriminate H.
Qed.

(** C9, amended.  For every record, the tone the generation capability is
    called with in live mode is the lower-cased tone field of the record,
    or "professional" when the field is absent, also when the sample comes
    from a row of [evaluate]; the capability works with that value when it
    is one of the four recognized tones and with "professional"
    otherwise. *)
Theorem tone_lowercased_then_defaulted (r : row)
    (sid transcript reference generated_dir : string) (files : fs) :
  let sample := make_sample sid transcript reference r in
  let passed := Py.lower (default "professional" (r !! "tone")) in
  live_tone sample = passed
  ∧ resolve_generated_text echo_tone files sample "live" generated_dir
    = Ok passed
  ∧ (∀ generate_blog : generate_blog_t,
       resolve_generated_text generate_blog files sample "live" generated_dir
       = resolve_generated_text (λ t _, generate_blog t passed) files sample
           "live" generated_dir)
  ∧ (∀ (ext : externals) (BASE_DIR : string) (skip_bert : bool)
       (bert_model : option string),
       evaluate_row ext BASE_DIR files "live" generated_dir skip_bert
         bert_model r
       = evaluate_row
           (Externals (rouge_scorer ext) (bert_score ext)
              (λ t _, generate_blog ext t passed) (json_loads ext))
           BASE_DIR files "live" generated_dir skip_bert bert_model r)
  ∧ effective_tone passed
    = (if decide (passed ∈ recognized_tones) then passed else "professional")
  ∧ match r !! "tone" with
    | None => passed = "professional" ∧ effective_tone passed = "professional"
    | Some _ => True
    end.
Proof.
  intros sample passed.
  destruct (make_sample_lookup sid transcript reference r) as (Htone & Ht & Hid).
  assert (live_tone sample = passed) as Hlive.
  { unfold live_tone, sample. by rewrite Htone. }
  split_and!.
  - done.
  - unfold resolve_generated_text, echo_tone. rewrite decide_True by done.
    fold sample. rewrite (getitem_Some sample "transcript" transcript) by done.
    simpl. by rewrite Hlive.
  - intros generate_blog. apply resolve_live_tone.
  - intros ext BASE_DIR skip_bert bert_model. apply evaluate_row_live_tone.
  - unfold effective_tone.
    destruct (decide (tone_instructions !! passed = None)) as [Hn|Hn].
    + apply tone_instructions_recognized in Hn. by rewrite decide_False.
    + rewrite decide_True; [done|].
      destruct (decide (passed ∈ recognized_tones)) as [|Hnot]; [done|].
      by apply tone_instructions_recognized in Hnot.
  - destruct (r !! "tone") eqn:Hr; [done|]. subst passed. simpl.
    split; vm_compute; reflexivity.
Qed.

(** ** The aggregator *)

Section Aggregate.

Lemma sum_list_Permutation (l1 l2 : list Qc) :
  l1 ≡ₚ l2 → sum_list l1 = sum_list l2.
Proof.
  induction 1 as [|x l1 l2 _ IH|x y l|l1 l2 l3 _ IH1 _ IH2]; simpl.
  - done.
  - by rewrite IH.
  - ring.
  - by rewrite IH1.
Qed.

Lemma metric_values_empty (metric : string) : metric_values ∅ metric = [].
Proof. unfold metric_values. by rewrite map_to_list_empty. Qed.

Lemma metric_values_insert (results : gmap string (gmap string Qc))
    (id : string) (sample : gmap string Qc) (metric : string) :
  results !! id = None →
  metric_values (<[id := sample]> results) metric
  ≡ₚ option_list (sample !! metric) ++ metric_values results metric.
Proof.
  intros Hid. unfold metric_values.
  rewrite (map_to_list_insert results id sample Hid). simpl.
  by destruct (sample !! metric).
Qed.

Lemma reporting_insert (results : gmap string (gmap string Qc))
    (id : string) (sample : gmap string Qc) (metric : string) :
  results !! id = None →
  reporting (<[id := sample]> results) metric
  = if decide (is_Some (sample !! metric))
    then <[id := sample]> (reporting results metric)
    else reporting results metric.
Proof.
  intros Hid. unfold reporting. case_decide as Hs.
  - by rewrite map_filter_insert_True.
  - apply map_filter_insert_not'; [done|]. intros y Hy. congruence.
Qed.

(** The values the code collects for a metric are those of the samples
    that report it: same sum, same count. *)
Lemma metric_values_reporting (results : gmap string (gmap string Qc))
    (metric : string) :
  sum_list (metric_values results metric)
  = map_fold (λ _ sample acc, default 0 (sample !! metric) + acc)%Qc 0%Qc
             (reporting results metric)
  ∧ length (metric_values results metric) = size (reporting results metric).
Proof.
  induction results as [|id sample results Hid IH] using map_ind.
  - rewrite metric_values_empty. unfold reporting.
    rewrite map_filter_empty, map_fold_empty, map_size_empty. done.
  - destruct IH as [IHsum IHlen].
    rewrite (sum_list_Permutation _ _
               (metric_values_insert results id sample metric Hid)).
    rewrite (Permutation_length
               (metric_values_insert results id sample metric Hid)).
    rewrite reporting_insert by done.
    assert (reporting results metric !! id = None) as Hrep.
    { unfold reporting. apply map_lookup_filter_None. by left. }
    destruct (decide (is_Some (sample !! metric))) as [[v Hv]|Hnone].
    + rewrite map_fold_insert_L; [| intros; ring | done].
      rewrite map_size_insert_None by done.
      rewrite Hv. simpl. by rewrite IHsum, IHlen.
    + destruct (sample !! metric) as [v|] eqn:Hv; [by destruct Hnone|].
      done.
Qed.

Lemma agg_value_spec (results : gmap string (gmap string Qc))
    (metric : string) :
  observed results metric →
  agg_value results metric = spec_mean results metric.
Proof.
  intros (id & sample & Hid & v & Hv).
  destruct (metric_values_reporting results metric) as [Hsum Hlen].
  unfold agg_value, spec_mean. rewrite <- Hsum, <- Hlen.
  rewrite decide_False; [done|].
  intros Hnil. assert (v ∈ metric_values results metric) as Hin.
  { unfold metric_values. apply list_elem_of_omap. exists sample.
    split; [|done]. apply list_elem_of_fmap. exists (id, sample).
    split; [done|]. by apply elem_of_map_to_list. }
  rewrite Hnil in Hin. by apply elem_of_nil in Hin.
Qed.

End Aggregate.

Section AggregateLoop.

Variable results : gmap string (gmap string Qc).

Lemma mean_values (metric : string) :
  (if decide (metric_values results metric = []) then Ok 0%Qc
   else mean (metric_values results metric))
  = Ok (agg_value results metric).
Proof.
  unfold agg_value, mean.
  destruct (decide (metric_values results metric = [])); done.
Qed.

(** The loop binds [avg_<metric>] for every metric of its list and
    leaves the other keys of the summary alone. *)
Lemma aggregate_loop_ok (all_keys : list string) (summary : gmap string Qc) :
  ∃ summary' : gmap string Qc,
    aggregate_loop results all_keys summary = Ok summary'
    ∧ (∀ metric, metric ∈ all_keys →
         summary' !! ("avg_" +:+ metric) = Some (agg_value results metric))
    ∧ (∀ key, (∀ metric, metric ∈ all_keys → key ≠ "avg_" +:+ metric) →
         summary' !! key = summary !! key).
Proof.
  revert summary. induction all_keys as [|m0 rest IH]; intros summary.
  - exists summary. split_and!; [done | | done].
    intros metric Hin. by apply elem_of_nil in Hin.
  - cbn [aggregate_loop]. rewrite mean_values. simpl.
    destruct (IH (<["avg_" +:+ m0 := agg_value results m0]> summary))
      as (summary' & Hrun & Hin & Hout).
    exists summary'. split_and!; [done | |].
    + intros metric Hm. destruct (decide (metric ∈ rest)) as [Hr|Hr].
      { by apply Hin. }
      apply elem_of_cons in Hm as [->|Hm]; [|done].
      rewrite Hout; [by rewrite lookup_insert_eq|].
      intros metric Hmetric Heq. apply (inj _) in Heq. by subst.
    + intros key Hkey. rewrite Hout.
      * rewrite lookup_insert_ne; [done|]. intros <-.
        by apply (Hkey m0); [left|].
      * intros metric Hm. apply Hkey. by right.
Qed.

Lemma elem_of_all_keys (metric : string) :
  metric ∈ merge_sort String.le
    (elements (⋃ ((λ sample : gmap string Qc, dom sample)
                    <$> (map_to_list results).*2) : gset string))
  ↔ observed results metric.
Proof.
  rewrite merge_sort_Permutation, elem_of_elements, elem_of_union_list.
  unfold observed. split.
  - intros (X & HX & Hm). apply list_elem_of_fmap in HX as (sample & -> & Hs).
    apply list_elem_of_fmap in Hs as ([id sample'] & -> & Hs).
    apply elem_of_map_to_list in Hs. apply elem_of_dom in Hm. eauto.
  - intros (id & sample & Hid & Hm). exists (dom sample). split.
    + apply list_elem_of_fmap. exists sample. split; [done|].
      apply list_elem_of_fmap. exists (id, sample). split; [done|].
      by apply elem_of_map_to_list.
    + by apply elem_of_dom.
Qed.

End AggregateLoop.

(** C2.  For every mapping from sample id to metric result, [aggregate]
    returns a summary that binds [avg_<metric>], for each metric some
    sample reports, to the arithmetic mean of the metric over the samples
    that report it, and binds nothing else; the empty mapping gives the
    empty summary; [{"a": {"m": 1.0}, "b": {"m": 3.0}}] gives
    [avg_m = 2.0]. *)
Theorem aggregate_means (results : gmap string (gmap string Qc)) :
  (∃ summary : gmap string Qc,
     aggregate results = Ok summary
     ∧ (∀ metric, observed results metric →
          summary !! ("avg_" +:+ metric) = Some (spec_mean results metric))
     ∧ (∀ key, is_Some (summary !! key) →
          ∃ metric, key = "avg_" +:+ metric ∧ observed results metric))
  ∧ aggregate ∅ = Ok ∅
  ∧ (∃ summary : gmap string Qc,
       aggregate example_results = Ok summary
       ∧ summary !! "avg_m" = Some (Q2Qc (2 # 1))).
Proof.
  split_and!.
  - unfold aggregate. destruct (decide (results = ∅)) as [->|Hne].
    + exists ∅. split_and!; [done | |].
      * intros metric (id & sample & Hid & _). by rewrite lookup_empty in Hid.
      * intros key [v Hv]. by rewrite lookup_empty in Hv.
    + destruct (aggregate_loop_ok results
                  (merge_sort String.le
                     (elements (⋃ ((λ sample : gmap string Qc, dom sample)
                                     <$> (map_to_list results).*2)
                                : gset string))) ∅)
        as (summary & Hrun & Hin & Hout).
      exists summary. split_and!; [done | |].
      * intros metric Hobs. rewrite Hin by by apply elem_of_all_keys.
        by rewrite agg_value_spec.
      * intros key Hkey.
        destruct (decide (Exists (λ metric, key = "avg_" +:+ metric)
                    (merge_sort String.le
                       (elements (⋃ ((λ sample : gmap string Qc, dom sample)
                                       <$> (map_to_list results).*2)
                                  : gset string))))) as [Hex|Hex].
        { apply Exists_exists in Hex as (metric & Hm & ->).
          exists metric. split; [done | by apply elem_of_all_keys]. }
        rewrite Hout in Hkey; [by apply is_Some_None in Hkey|].
        intros metric Hm ->. apply Hex, Exists_exists. eauto.
  - done.
  - eexists. split; [vm_compute; reflexivity|].
    vm_compute. f_equal. by apply Qc_is_canon.
Qed.

Lemma aggregate_means_witness :
  observed example_results "m"
  ∧ ∃ summary : gmap string Qc,
      aggregate example_results = Ok summary
      ∧ summary !! "avg_m" = Some (spec_mean example_results "m").
Proof.
  assert (observed example_results "m") as Hobs.
  { exists "a", (<["m" := 1%Qc]> ∅). split; [reflexivity|].
    exists 1%Qc. reflexivity. }
  split; [exact Hobs|].
  destruct (proj1 (aggregate_means example_results))
    as (summary & Hrun & Hin & _).
  exists summary. split; [exact Hrun | exact (Hin "m" Hobs)].
Defined.

(** A metric only one sample reports is averaged over that sample alone:
    [{"a": {"m": 1.0, "n": 4.0}, "b": {"m": 3.0}}] gives [avg_n = 4.0]. *)
Example aggregate_absent_excluded :
  ∃ summary : gmap string Qc,
    aggregate (<["b" := <["m" := Q2Qc (3 # 1)]> ∅]>
                (<["a" := <["n" := Q2Qc (4 # 1)]> (<["m" := 1%Qc]> ∅)]> ∅))
    = Ok summary
    ∧ summary !! "avg_n" = Some (Q2Qc (4 # 1))
    ∧ summary !! "avg_m" = Some (Q2Qc (2 # 1)).
Proof.
  eexists. split; [vm_compute; reflexivity|].
  split; vm_compute; f_equal; by apply Qc_is_canon.
Qed.

(** ** The dataset store *)

Section DatasetStore.

Import PrepareDataset.

Variable json_loads : string → result row.
Variable json_dumps : row → string.

Lemma file_lines_line (s rest : string) :
  no_newline s = true →
  Py.file_lines (s +:+ String "010" rest) = s :: Py.file_lines rest.
Proof.
  unfold Py.file_lines. induction s as [|c s IH]; intros Hs.
  - change ("" +:+ String "010" rest) with (String "010" rest).
    destruct rest as [|c' rest']; [done|].
    cbn [Py.lines_by]. done.
  - simpl in Hs. apply andb_true_iff in Hs as [Hc Hs].
    apply negb_true_iff in Hc.
    rewrite append_cons. cbn [Py.lines_by]. rewrite Hc.
    by rewrite (IH Hs).
Qed.

Lemma file_lines_dump (rows : list row) :
  Forall (codec_ok json_loads json_dumps) rows →
  Py.file_lines (dump_lines json_dumps rows) = json_dumps <$> rows.
Proof.
  induction 1 as [|r rows (Hnl & _ & _) _ IH]; [done|].
  cbn [dump_lines fmap list_fmap].
  change (String "010" "" +:+ dump_lines json_dumps rows)
    with (String "010" (dump_lines json_dumps rows)).
  rewrite file_lines_line by done. by rewrite IH.
Qed.

Lemma parse_lines_dumped (rows : list row) :
  Forall (codec_ok json_loads json_dumps) rows →
  parse_lines json_loads (json_dumps <$> rows) = Ok rows.
Proof.
  induction 1 as [|r rows (_ & Hblank & Hload) _ IH]; [done|].
  cbn [fmap list_fmap parse_lines].
  rewrite decide_False by done. rewrite Hload. simpl.
  change (list_fmap _ _ json_dumps rows) with (json_dumps <$> rows).
  by rewrite IH.
Qed.

(** What [write_rows] writes, [load_rows] reads back. *)
Lemma load_rows_written (dataset_path : string) (rows : list row) (w : world) :
  Forall (codec_ok json_loads json_dumps) rows →
  w_files w !! dataset_path = Some (dump_lines json_dumps rows) →
  load_rows json_loads dataset_path w = (Ok rows, w).
Proof.
  intros Hok Hfile. unfold load_rows. rewrite Hfile.
  by rewrite file_lines_dump, parse_lines_dumped.
Qed.

Lemma any_id_duplicate (rows : list row) (id : string) :
  Forall (λ r : row, is_Some (r !! "id")) rows →
  with_id id rows ≠ [] →
  any_id rows id = Ok true.
Proof.
  unfold with_id. induction 1 as [|r rows [i Hi] _ IH]; intros Hdup; [done|].
  cbn [any_id]. rewrite (getitem_Some r "id" i) by done. simpl.
  destruct (decide (i = id)) as [->|Hne]; [done|].
  apply IH. rewrite filter_cons_False in Hdup; [done|]. congruence.
Qed.

Lemma any_id_fresh (rows : list row) (id : string) :
  any_id rows id = Ok false → with_id id rows = [].
Proof.
  unfold with_id. induction rows as [|r rows IH]; [done|].
  cbn [any_id]. unfold getitem. destruct (r !! "id") as [i|] eqn:Hi; [|done].
  simpl. destruct (decide (i = id)) as [->|Hne]; [done|].
  intros Hrest. rewrite filter_cons_False by congruence. by apply IH.
Qed.

Lemma new_row_id (args : add_args) : new_row args !! "id" = Some (args_id args).
Proof. unfold new_row. by rewrite !lookup_insert_ne, lookup_insert_eq by done. Qed.

Lemma new_row_well_formed (args : add_args) : well_formed (new_row args).
Proof.
  unfold well_formed, new_row.
  split_and!;
    repeat first [ by rewrite lookup_insert_eq
                 | rewrite lookup_insert_ne by done ].
Qed.

Lemma ensure_file_ok (what path : string) (w : world) :
  ∃ w' : world, ensure_file what path w = (Ok (), w').
Proof.
  unfold ensure_file, mbind, prog_bind, exists_, touch, print, mret, prog_ret.
  simpl. destruct (bool_decide _); by eexists.
Qed.

End DatasetStore.

Section AddAndList.

Import PrepareDataset.

Variable json_loads : string → result row.
Variable json_dumps : row → string.

Lemma any_id_fresh_ok (rows : list row) (id : string) :
  Forall (λ r : row, is_Some (r !! "id")) rows →
  with_id id rows = [] →
  any_id rows id = Ok false.
Proof.
  unfold with_id. induction 1 as [|r rows [i Hi] _ IH]; intros Hnone; [done|].
  cbn [any_id]. rewrite (getitem_Some r "id" i) by done. simpl.
  destruct (decide (i = id)) as [->|Hne].
  - by rewrite filter_cons_True in Hnone.
  - apply IH. by rewrite filter_cons_False in Hnone by congruence.
Qed.

(** A duplicate id stops [add_sample] before it touches anything. *)
Lemma add_sample_duplicate (args : add_args) (w : world) (rows : list row) :
  load_rows json_loads (args_dataset args) w = (Ok rows, w) →
  any_id rows (args_id args) = Ok true →
  add_sample json_loads json_dumps args w
  = (Raise (SystemExit ("Dataset already contains id '" +:+ args_id args
                        +:+ "'. Use a unique identifier.")), w).
Proof.
  intros Hload Hany. unfold add_sample, mbind, prog_bind, lift.
  by rewrite Hload, Hany.
Qed.

Lemma add_sample_fresh (args : add_args) (w : world) (rows : list row) :
  load_rows json_loads (args_dataset args) w = (Ok rows, w) →
  any_id rows (args_id args) = Ok false →
  ∃ w' : world,
    add_sample json_loads json_dumps args w = (Ok (), w')
    ∧ w_files w' !! args_dataset args
      = Some (dump_lines json_dumps (rows ++ [new_row args])).
Proof.
  intros Hload Hany. unfold add_sample, mbind, prog_bind, lift.
  rewrite Hload, Hany.
  destruct (ensure_file_ok "transcript" (args_transcript args) w) as [w1 ->].
  destruct (ensure_file_ok "reference" (args_reference args) w1) as [w2 ->].
  unfold write_rows, print. simpl. eexists. split; [done|].
  simpl. by rewrite lookup_insert_eq.
Qed.

Lemma add_sample_failed (args : add_args) (w : world) (rows : list row)
    (e : exn) :
  load_rows json_loads (args_dataset args) w = (Ok rows, w) →
  any_id rows (args_id args) = Raise e →
  add_sample json_loads json_dumps args w = (Raise e, w).
Proof.
  intros Hload Hany. unfold add_sample, mbind, prog_bind, lift.
  by rewrite Hload, Hany.
Qed.

Lemma list_row_ok (r : row) (w : world) :
  well_formed r →
  list_row r w = (Ok (), World (w_files w) (w_stdout w ++ entry_lines r)).
Proof.
  intros ([i Hi] & [t Ht] & [tp Htp] & [rp Hrp]).
  unfold list_row, entry_lines, mbind, prog_bind, lift, print, getitem.
  rewrite Hi, Ht, Htp, Hrp. simpl.
  destruct (r !! "notes") as [n|]; simpl.
  - destruct (bool_decide (n ≠ "")); simpl; by rewrite <- !app_assoc.
  - by rewrite <- !app_assoc.
Qed.

Lemma list_loop_ok (rows : list row) (w : world) :
  Forall well_formed rows →
  list_loop rows w
  = (Ok (), World (w_files w) (w_stdout w ++ flat_map entry_lines rows)).
Proof.
  intros Hwf. revert w. induction Hwf as [|r rows Hr _ IH]; intros w.
  - simpl. rewrite app_nil_r. by destruct w.
  - cbn [list_loop flat_map]. unfold mbind, prog_bind.
    rewrite list_row_ok by done. rewrite IH. simpl. by rewrite <- app_assoc.
Qed.

End AddAndList.

(** C7.  For a stored dataset that holds the id already, [add] fails and
    leaves every file and the output as they were; when every stored row
    has an id, the failure is [SystemExit] with the duplicate-id message.
    For an id that is not there, [add] succeeds; and after a successful
    [add], with a JSON codec that writes each row on one line and reads it
    back, the store holds the old rows followed by the new one, exactly one
    of them carries the id, and [list] prints them all. *)
Theorem add_rejects_duplicate_lists_once (json_loads : string → result row)
    (json_dumps : row → string) (args : PrepareDataset.add_args)
    (w : PrepareDataset.world) (rows : list row) :
  PrepareDataset.load_rows json_loads (PrepareDataset.args_dataset args) w
  = (Ok rows, w) →
  (with_id (PrepareDataset.args_id args) rows ≠ [] →
     (∃ e : exn,
        PrepareDataset.add_sample json_loads json_dumps args w = (Raise e, w))
     ∧ (Forall (λ r : row, is_Some (r !! "id")) rows →
        PrepareDataset.add_sample json_loads json_dumps args w
        = (Raise (SystemExit ("Dataset already contains id '"
                              +:+ PrepareDataset.args_id args
                              +:+ "'. Use a unique identifier.")), w)))
  ∧ (with_id (PrepareDataset.args_id args) rows = [] →
     Forall (λ r : row, is_Some (r !! "id")) rows →
     ∃ w' : PrepareDataset.world,
       PrepareDataset.add_sample json_loads json_dumps args w = (Ok (), w'))
  ∧ (∀ w' : PrepareDataset.world,
       PrepareDataset.add_sample json_loads json_dumps args w = (Ok (), w') →
       Forall (codec_ok json_loads json_dumps)
              (rows ++ [PrepareDataset.new_row args]) →
       PrepareDataset.load_rows json_loads (PrepareDataset.args_dataset args) w'
       = (Ok (rows ++ [PrepareDataset.new_row args]), w')
       ∧ length (with_id (PrepareDataset.args_id args)
                   (rows ++ [PrepareDataset.new_row args])) = 1
       ∧ (Forall well_formed rows →
          PrepareDataset.list_samples json_loads
            (PrepareDataset.args_dataset args) w'
          = (Ok (),
             PrepareDataset.World (PrepareDataset.w_files w')
               (PrepareDataset.w_stdout w'
                ++ flat_map entry_lines
                     (rows ++ [PrepareDataset.new_row args]))))).
Proof.
  intros Hload. split_and!.
  - intros Hdup.
    destruct (PrepareDataset.any_id rows (PrepareDataset.args_id args))
      as [[|]|e] eqn:Hany.
    + split; [eexists|intros _];
        by apply (add_sample_duplicate json_loads json_dumps args w rows).
    + by apply any_id_fresh in Hany.
    + split.
      * exists e. by apply (add_sample_failed json_loads json_dumps args w rows).
      * intros Hids. rewrite (any_id_duplicate rows _ Hids Hdup) in Hany.
        discriminate Hany.
  - intros Hnone Hids.
    destruct (add_sample_fresh json_loads json_dumps args w rows Hload)
      as (w' & Hrun & _); [by apply any_id_fresh_ok | by exists w'].
  - intros w' Hrun Hcodec.
    destruct (PrepareDataset.any_id rows (PrepareDataset.args_id args))
      as [[|]|e] eqn:Hany.
    + rewrite (add_sample_duplicate json_loads json_dumps args w rows) in Hrun
        by done. by inversion Hrun.
    + destruct (add_sample_fresh json_loads json_dumps args w rows Hload Hany)
        as (w'' & Hrun' & Hfile).
      assert (w'' = w') as -> by congruence.
      assert (PrepareDataset.load_rows json_loads
                (PrepareDataset.args_dataset args) w'
              = (Ok (rows ++ [PrepareDataset.new_row args]), w')) as Hload'.
      { by apply (load_rows_written json_loads json_dumps). }
      split_and!.
      * done.
      * unfold with_id. rewrite filter_app.
        fold (with_id (PrepareDataset.args_id args) rows).
        rewrite (any_id_fresh rows _ Hany).
        rewrite filter_cons_True by apply new_row_id. done.
      * intros Hwf.
        unfold PrepareDataset.list_samples, mbind, PrepareDataset.prog_bind.
        rewrite Hload'. rewrite decide_False by (by destruct rows).
        apply list_loop_ok. apply Forall_app. split; [done|].
        constructor; [apply new_row_well_formed | constructor].
    + rewrite (add_sample_failed json_loads json_dumps args w rows e) in Hrun
        by done. by inversion Hrun.
Qed.

Example kv_roundtrip :
  kv_loads (kv_dumps (PrepareDataset.new_row args_b))
  = Ok (PrepareDataset.new_row args_b).
Proof. vm_compute. reflexivity. Qed.

Lemma add_rejects_duplicate_lists_once_witness :
  PrepareDataset.add_sample kv_loads kv_dumps args_a world_a
  = (Raise (SystemExit
              "Dataset already contains id 'a'. Use a unique identifier."),
     world_a)
  ∧ PrepareDataset.add_sample kv_loads kv_dumps args_b world_a
    = (Ok (), world_ab)
  ∧ length (with_id "b" [PrepareDataset.new_row args_a;
                         PrepareDataset.new_row args_b]) = 1
  ∧ PrepareDataset.list_samples kv_loads "dataset.jsonl" world_ab
    = (Ok (),
       PrepareDataset.World (PrepareDataset.w_files world_ab)
         (PrepareDataset.w_stdout world_ab
          ++ flat_map entry_lines [PrepareDataset.new_row args_a;
                                   PrepareDataset.new_row args_b])).
Proof.
  assert (PrepareDataset.load_rows kv_loads "dataset.jsonl" world_a
          = (Ok [PrepareDataset.new_row args_a], world_a)) as Hload
    by (vm_compute; reflexivity).
  assert (Forall (λ r : row, is_Some (r !! "id"))
            [PrepareDataset.new_row args_a]) as Hids.
  { repeat constructor. vm_compute. eauto. }
  assert (Forall well_formed [PrepareDataset.new_row args_a]) as Hwf.
  { repeat constructor; vm_compute; eauto. }
  assert (with_id "a" [PrepareDataset.new_row args_a] ≠ []) as Hdup.
  { intros H. apply (f_equal length) in H. vm_compute in H. discriminate H. }
  assert (PrepareDataset.add_sample kv_loads kv_dumps args_b world_a
          = (Ok (), world_ab)) as Hrun by (vm_compute; reflexivity).
  assert (Forall (codec_ok kv_loads kv_dumps)
            ([PrepareDataset.new_row args_a] ++ [PrepareDataset.new_row args_b]))
    as Hcodec.
  { repeat constructor; vm_compute; (reflexivity || discriminate). }
  pose proof (add_rejects_duplicate_lists_once kv_loads kv_dumps args_a
                world_a [PrepareDataset.new_row args_a] Hload) as (Ha & _ & _).
  pose proof (add_rejects_duplicate_lists_once kv_loads kv_dumps args_b
                world_a [PrepareDataset.new_row args_a] Hload) as (_ & _ & Hb).
  destruct (Hb world_ab Hrun Hcodec) as (_ & Hone & Hlist).
  split_and!.
  - exact (proj2 (Ha Hdup) Hids).
  - exact Hrun.
  - exact Hone.
  - exact (Hlist Hwf).
Defined.

Example list_after_add :
  (PrepareDataset.list_samples kv_loads "dataset.jsonl" world_ab).1 = Ok ()
  ∧ PrepareDataset.w_stdout
      (PrepareDataset.list_samples kv_loads "dataset.jsonl" world_ab).2
    = [ "Created empty transcript file at transcripts/b.txt";
        "Created empty reference file at references/b.md";
        "Added sample 'b' to dataset.jsonl";
        "- a: Mini album tutorial (Educational)";
        "  transcript -> transcripts/a.txt";
        "  reference  -> references/a.md";
        "- b: Second video (professional)";
        "  transcript -> transcripts/b.txt";
        "  reference  -> references/b.md";
        "  notes      -> tricky case" ].
Proof. split; vm_compute; reflexivity. Qed.

(** * Further properties of the code *)

(** ** Texts as lists of characters *)

Section Chars.

Lemma chars_app (a b : string) : chars (a +:+ b) = chars a ++ chars b.
Proof.
  unfold chars. induction a as [|c a IH]; [done|].
  rewrite append_cons. simpl. by rewrite IH.
Qed.

Lemma chars_cons (c : ascii) (s : string) : chars (String c s) = c :: chars s.
Proof. reflexivity. Qed.

Lemma chars_inj (a b : string) : chars a = chars b → a = b.
Proof.
  unfold chars. intros H.
  rewrite <- (String.string_of_list_ascii_of_string a),
          <- (String.string_of_list_ascii_of_string b). by rewrite H.
Qed.

Lemma chars_rev_app (a b : string) :
  chars (String.rev_app a b) = reverse (chars a) ++ chars b.
Proof.
  revert b. induction a as [|c a IH]; intros b; [done|].
  cbn [String.rev_app]. rewrite IH. unfold chars.
  cbn [String.list_ascii_of_string]. rewrite reverse_cons.
  by rewrite <- app_assoc.
Qed.

Lemma chars_rev (a : string) : chars (String.rev a) = reverse (chars a).
Proof. unfold String.rev. rewrite chars_rev_app. apply app_nil_r. Qed.

Lemma chars_map_chars (f : ascii → ascii) (s : string) :
  chars (Py.map_chars f s) = f <$> chars s.
Proof. unfold chars. induction s as [|c s IH]; [done|]. simpl. by rewrite IH. Qed.

Lemma map_chars_app (f : ascii → ascii) (a b : string) :
  Py.map_chars f (a +:+ b) = Py.map_chars f a +:+ Py.map_chars f b.
Proof.
  induction a as [|c a IH]; [done|].
  rewrite append_cons. simpl. rewrite IH. by rewrite append_cons.
Qed.

Lemma lower_char_idemp (c : ascii) :
  Py.lower_char (Py.lower_char c) = Py.lower_char c.
Proof. destruct c as [[] [] [] [] [] [] [] []]; vm_compute; done. Qed.

Lemma lower_idemp (s : string) : Py.lower (Py.lower s) = Py.lower s.
Proof.
  unfold Py.lower. induction s as [|c s IH]; [done|].
  simpl. by rewrite IH, lower_char_idemp.
Qed.

End Chars.

(** ** What tokens look like *)

Section Tokens.

(** The pieces of a split hold no separator, and only characters of the
    text. *)
Lemma split_go_chars (sep : ascii → bool) (s : string) :
  Forall (λ c, sep c = false ∧ c ∈ chars s) (chars (Py.split_go sep s).1)
  ∧ Forall (λ tok, Forall (λ c, sep c = false ∧ c ∈ chars s) (chars tok))
           (Py.split_go sep s).2.
Proof.
  induction s as [|d s [IHw IHws]]; [by split; constructor|].
  assert (∀ l : list ascii,
            Forall (λ c, sep c = false ∧ c ∈ chars s) l →
            Forall (λ c, sep c = false ∧ c ∈ chars (String d s)) l) as Hweak.
  { intros l Hl. eapply Forall_impl; [exact Hl|]. intros c [? ?]. split; [done|].
    unfold chars in *. simpl. by right. }
  cbn [Py.split_go]. destruct (Py.split_go sep s) as [w ws]. simpl in IHw, IHws.
  assert (Forall (λ tok, Forall (λ c, sep c = false ∧ c ∈ chars (String d s))
                                (chars tok)) ws) as Hws.
  { eapply Forall_impl; [exact IHws|]. intros tok. apply Hweak. }
  destruct (sep d) eqn:Hd; simpl.
  - split; [constructor|]. unfold Py.cons_word. case_decide; [done|].
    constructor; [by apply Hweak | done].
  - split; [|done]. unfold chars at 1. simpl. constructor.
    + split; [done|]. unfold chars. simpl. by left.
    + by apply Hweak.
Qed.

Lemma split_by_chars (sep : ascii → bool) (s : string) :
  Forall (λ tok, Forall (λ c, sep c = false ∧ c ∈ chars s) (chars tok))
         (Py.split_by sep s).
Proof.
  unfold Py.split_by. destruct (split_go_chars sep s) as [Hw Hws].
  destruct (Py.split_go sep s) as [w ws]. simpl in *.
  unfold Py.cons_word. case_decide; [done|]. by constructor.
Qed.

End Tokens.

(** X1.  Every token [tokenize] gives is not empty, is no stop word, and is
    made of alphanumeric characters that are their own lower case. *)
Theorem tokenize_tokens (text : string) :
  Forall (λ tok, tok ≠ "" ∧ (tok ∉ STOPWORDS) ∧ Forall token_char (chars tok))
         (tokenize text).
Proof.
  rewrite tokenize_spec. unfold spec_tokens.
  apply Forall_forall. intros tok Htok.
  apply list_elem_of_filter in Htok as [Hstop Htok].
  pose proof (split_by_nonempty (λ c, negb (Py.isalnum c)) (Py.lower text)) as Hne.
  pose proof (split_by_chars (λ c, negb (Py.isalnum c)) (Py.lower text)) as Hch.
  rewrite Forall_forall in Hne, Hch. split_and!; [by apply Hne | done |].
  eapply Forall_impl; [exact (Hch tok Htok)|].
  intros c [Hc Hin]. apply negb_false_iff in Hc. split; [done|].
  unfold Py.lower in Hin. rewrite chars_map_chars in Hin.
  apply list_elem_of_fmap in Hin as (c0 & -> & _). apply lower_char_idemp.
Qed.

Section TokenizeCompose.

Lemma tokenize_lower (text : string) : tokenize (Py.lower text) = tokenize text.
Proof. rewrite !tokenize_spec. unfold spec_tokens. by rewrite lower_idemp. Qed.

Lemma split_go_sep (sep : ascii → bool) (a b : string) (d : ascii) :
  sep d = true →
  Py.split_go sep (a +:+ String d b)
  = ((Py.split_go sep a).1, (Py.split_go sep a).2 ++ Py.split_by sep b).
Proof.
  intros Hd. induction a as [|e a IH].
  - change ("" +:+ String d b) with (String d b). cbn [Py.split_go].
    unfold Py.split_by. destruct (Py.split_go sep b) as [w ws]. by rewrite Hd.
  - rewrite append_cons. cbn [Py.split_go]. rewrite IH.
    destruct (Py.split_go sep a) as [w ws]. simpl.
    destruct (sep e); [|done]. simpl. f_equal.
    unfold Py.cons_word. by case_decide.
Qed.

(** Splitting a text that holds a separator is splitting its two sides. *)
Lemma split_by_sep (sep : ascii → bool) (a b : string) (d : ascii) :
  sep d = true →
  Py.split_by sep (a +:+ String d b) = Py.split_by sep a ++ Py.split_by sep b.
Proof.
  intros Hd. unfold Py.split_by at 1 2. rewrite split_go_sep by done.
  destruct (Py.split_go sep a) as [w ws]. simpl.
  unfold Py.cons_word. by case_decide.
Qed.

End TokenizeCompose.

(** X2.  On ASCII texts the metrics do not see the case of the letters:
    lower-casing the reference or the generated text changes neither the
    tokens nor the lexical overlap nor the keyword recall. *)
Theorem metrics_ignore_case (reference generated : string) :
  ascii_text reference → ascii_text generated →
  tokenize (Py.lower reference) = tokenize reference
  ∧ simple_overlap (Py.lower reference) generated
    = simple_overlap reference generated
  ∧ simple_overlap reference (Py.lower generated)
    = simple_overlap reference generated
  ∧ keyword_recall (Py.lower reference) generated
    = keyword_recall reference generated
  ∧ keyword_recall reference (Py.lower generated)
    = keyword_recall reference generated.
Proof.
  intros _ _.
  split_and!; [apply tokenize_lower | ..];
    unfold simple_overlap, keyword_recall; by rewrite !tokenize_lower.
Qed.

Lemma metrics_ignore_case_witness :
  tokenize (Py.lower "Quick BROWN Foxes") = tokenize "Quick BROWN Foxes"
  ∧ simple_overlap (Py.lower "Quick BROWN Foxes") "The quick Dog"
    = simple_overlap "Quick BROWN Foxes" "The quick Dog"
  ∧ simple_overlap "Quick BROWN Foxes" (Py.lower "The quick Dog")
    = simple_overlap "Quick BROWN Foxes" "The quick Dog"
  ∧ keyword_recall (Py.lower "Quick BROWN Foxes") "The quick Dog"
    = keyword_recall "Quick BROWN Foxes" "The quick Dog"
  ∧ keyword_recall "Quick BROWN Foxes" (Py.lower "The quick Dog")
    = keyword_recall "Quick BROWN Foxes" "The quick Dog".
Proof.
  apply (metrics_ignore_case "Quick BROWN Foxes" "The quick Dog");
    unfold ascii_text; apply (bool_decide_unpack _); vm_compute; exact I.
Defined.

(** X3.  Tokenizing two texts joined by a character that is not
    alphanumeric gives the tokens of the first followed by the tokens of the
    second. *)
Theorem tokenize_joined (a b : string) (d : ascii) :
  Py.isalnum d = false →
  tokenize (a +:+ String d b) = tokenize a ++ tokenize b.
Proof.
  intros Hd. rewrite !tokenize_spec. unfold spec_tokens, Py.lower.
  rewrite map_chars_app. cbn [Py.map_chars].
  rewrite split_by_sep; [by rewrite filter_app|].
  by rewrite isalnum_lower_char, Hd.
Qed.

Lemma tokenize_joined_witness :
  tokenize ("Quick fox" +:+ String "," "the Dog")
  = tokenize "Quick fox" ++ tokenize "the Dog".
Proof. apply tokenize_joined. reflexivity. Defined.

(** ** The range and the order of the scores *)

Section ScoreFacts.

Lemma jaccard_range (A B : gset string) :
  (0 <= jaccard A B)%Qc ∧ (jaccard A B <= 1)%Qc.
Proof.
  apply ratio_range, subseteq_size. intros x Hx.
  apply elem_of_intersection in Hx as [Hx _]. by apply elem_of_union_l.
Qed.

Lemma recall_range (K G : gset string) :
  (0 <= recall K G)%Qc ∧ (recall K G <= 1)%Qc.
Proof.
  apply ratio_range, subseteq_size. intros x Hx.
  by apply elem_of_intersection in Hx as [Hx _].
Qed.

Lemma jaccard_disjoint (A B : gset string) : A ∩ B = ∅ → jaccard A B = 0%Qc.
Proof. intros H. unfold jaccard. rewrite H, size_empty. apply ratio_0_l. Qed.

Lemma recall_disjoint (K G : gset string) : K ∩ G = ∅ → recall K G = 0%Qc.
Proof. intros H. unfold recall. rewrite H, size_empty. apply ratio_0_l. Qed.

Lemma recall_covered (K G : gset string) : K ≠ ∅ → K ⊆ G → recall K G = 1%Qc.
Proof.
  intros HK Hsub. unfold recall.
  rewrite (subseteq_intersection_1_L K G Hsub). by apply ratio_diag, size_nonempty.
Qed.

Lemma recall_mono (K G G' : gset string) : G ⊆ G' → (recall K G <= recall K G')%Qc.
Proof.
  intros H. apply ratio_le, subseteq_size. intros x Hx.
  apply elem_of_intersection in Hx as [HK HG].
  apply elem_of_intersection. split; [done | by apply H].
Qed.

End ScoreFacts.

(** X4.  Lexical overlap and keyword recall always return a score between
    0 and 1. *)
Theorem scores_in_unit_interval (reference generated : string) :
  (∃ v : Qc, simple_overlap reference generated = Ok v
             ∧ (0 <= v)%Qc ∧ (v <= 1)%Qc)
  ∧ (∃ v : Qc, keyword_recall reference generated = Ok v
               ∧ (0 <= v)%Qc ∧ (v <= 1)%Qc).
Proof.
  split.
  - rewrite simple_overlap_eq. eexists. split; [done|].
    case_decide; [done|]. apply score_range; apply jaccard_range.
  - rewrite keyword_recall_eq. eexists. split; [done|].
    case_decide; [done|]. apply score_range; apply recall_range.
Qed.

(** X5.  The extremes of the two scores.  Two texts with the same set of
    content words, not empty, overlap by 1.0 whatever the order and the
    repetitions; texts without a common content word overlap by 0.0.
    Keyword recall is 1.0 when every keyword of the reference is a token of
    the generated text and there is a keyword, 0.0 when none is. *)
Theorem score_extremes (reference generated : string) :
  let R : gset string := list_to_set (tokenize reference) in
  let G : gset string := list_to_set (tokenize generated) in
  let K : gset string :=
    list_to_set (filter (λ tok, 4 < String.length tok) (tokenize reference)) in
  (R ≠ ∅ → R = G → simple_overlap reference generated = Ok 1%Qc)
  ∧ (R ∩ G = ∅ → simple_overlap reference generated = Ok 0%Qc)
  ∧ (K ≠ ∅ → K ⊆ G → keyword_recall reference generated = Ok 1%Qc)
  ∧ (K ∩ G = ∅ → keyword_recall reference generated = Ok 0%Qc).
Proof.
  intros R G K.
  destruct (token_sets reference) as [HR HK].
  destruct (token_sets generated) as [HG _].
  fold R in HR. fold K in HK. fold G in HG.
  rewrite simple_overlap_eq, keyword_recall_eq. rewrite <- HR, <- HG, <- HK.
  split_and!.
  - intros Hne <-. rewrite decide_False by done.
    by rewrite jaccard_diag, score_1.
  - intros Hd. case_decide; [done|]. by rewrite jaccard_disjoint, score_0.
  - intros Hne Hsub. rewrite decide_False by done.
    by rewrite recall_covered, score_1.
  - intros Hd. case_decide; [done|]. by rewrite recall_disjoint, score_0.
Qed.

Lemma score_extremes_witness :
  simple_overlap "the quick fox" "Fox, quick quick!" = Ok 1%Qc
  ∧ simple_overlap "quick fox" "lazy dog" = Ok 0%Qc
  ∧ keyword_recall "quick brown fox" "a brown and quick dog" = Ok 1%Qc
  ∧ keyword_recall "quick brown fox" "lazy dog" = Ok 0%Qc.
Proof.
  split_and!.
  - apply (proj1 (score_extremes "the quick fox" "Fox, quick quick!")).
    + intros H. apply (f_equal size) in H. vm_compute in H. discriminate H.
    + vm_compute. reflexivity.
  - apply (proj1 (proj2 (score_extremes "quick fox" "lazy dog"))).
    vm_compute. reflexivity.
  - apply (proj1 (proj2 (proj2
             (score_extremes "quick brown fox" "a brown and quick dog")))).
    + intros H. apply (f_equal size) in H. vm_compute in H. discriminate H.
    + apply (bool_decide_unpack (_ ⊆ _)). vm_compute. exact I.
  - apply (proj2 (proj2 (proj2 (score_extremes "quick brown fox" "lazy dog")))).
    vm_compute. reflexivity.
Defined.

(** X6.  Keyword recall never drops when the generated text gains tokens:
    it is monotone in the set of the generated tokens, so appending text
    after a character that is not alphanumeric cannot lower it. *)
Theorem keyword_recall_monotone (reference generated generated' : string) :
  tokenize generated ⊆ tokenize generated' →
  ∃ v v' : Qc,
    keyword_recall reference generated = Ok v
    ∧ keyword_recall reference generated' = Ok v'
    ∧ (v <= v')%Qc.
Proof.
  intros Hsub. rewrite !keyword_recall_eq. eexists _, _.
  split; [done|]. split; [done|].
  case_decide; [apply Qcle_refl|]. apply score_mono; [apply recall_range|].
  apply recall_mono.
  destruct (token_sets generated) as [<- _].
  destruct (token_sets generated') as [<- _].
  intros tok. rewrite !elem_of_list_to_set. apply Hsub.
Qed.

Lemma keyword_recall_monotone_witness :
  ∃ v v' : Qc,
    keyword_recall "quick brown foxes" "a quick dog" = Ok v
    ∧ keyword_recall "quick brown foxes"
        ("a quick dog" +:+ String "." "Brown foxes too") = Ok v'
    ∧ (v <= v')%Qc.
Proof.
  apply keyword_recall_monotone.
  apply (bool_decide_unpack (_ ⊆ _)). vm_compute. exact I.
Defined.

(** ** Call-to-action detection *)

Section Contains.

Lemma startswith_prefix (p s : string) :
  Py.startswith p s = true → ∃ b, s = p +:+ b.
Proof.
  revert s. induction p as [|c p IH]; intros s H; [by exists s|].
  destruct s as [|d s]; [done|]. simpl in H.
  apply andb_true_iff in H as [Hc Hp]. apply bool_decide_eq_true in Hc as ->.
  destruct (IH s Hp) as [b ->]. by exists b.
Qed.

(** [p in s] holds exactly when [s] is some text, [p], some text. *)
Lemma contains_iff (p s : string) :
  Py.contains p s = true ↔ ∃ a b, s = a +:+ p +:+ b.
Proof.
  split; [|intros (a & b & ->); apply contains_infix].
  induction s as [|c s IH]; simpl.
  - rewrite orb_false_r. intros H. destruct (startswith_prefix p "" H) as [b Hb].
    by exists "", b.
  - intros H. apply orb_true_iff in H as [H|H].
    + destruct (startswith_prefix p _ H) as [b Hb]. by exists "", b.
    + destruct (IH H) as (a & b & ->). by exists (String c a), b.
Qed.

Lemma lower_app (a b : string) : Py.lower (a +:+ b) = Py.lower a +:+ Py.lower b.
Proof. apply map_chars_app. Qed.

End Contains.

(** X7.  [detect_cta] holds exactly when the lower-cased text holds one of
    the nine call-to-action phrases; so it does not see the case of the
    text, and a text that has a call to action keeps it when other text is
    put before and after it. *)
Theorem detect_cta_spec (text before after : string) :
  (detect_cta text = true
   ↔ ∃ keyword a b, keyword ∈ CTA_KEYWORDS ∧ Py.lower text = a +:+ keyword +:+ b)
  ∧ detect_cta (Py.lower text) = detect_cta text
  ∧ (detect_cta text = true → detect_cta (before +:+ text +:+ after) = true).
Proof.
  assert (∀ t, detect_cta t = true
               ↔ ∃ keyword a b, keyword ∈ CTA_KEYWORDS
                                ∧ Py.lower t = a +:+ keyword +:+ b) as Hspec.
  { intros t. unfold detect_cta. rewrite existsb_exists. split.
    - intros (keyword & Hin & Hc). apply contains_iff in Hc as (a & b & Hc).
      exists keyword, a, b. split; [by apply list_elem_of_In | done].
    - intros (keyword & a & b & Hin & Hc). exists keyword.
      split; [by apply list_elem_of_In|]. apply contains_iff. eauto. }
  split_and!.
  - apply Hspec.
  - unfold detect_cta. by rewrite lower_idemp.
  - intros H. apply Hspec in H as (keyword & a & b & Hin & Hl). apply Hspec.
    exists keyword, (Py.lower before +:+ a), (b +:+ Py.lower after).
    split; [done|]. rewrite !lower_app, Hl.
    apply chars_inj. rewrite !chars_app. by rewrite <- !app_assoc.
Qed.

Lemma detect_cta_spec_witness :
  detect_cta "Subscribe" = true
  ∧ detect_cta ("If you liked it, please " +:+ "Subscribe" +:+ " now!") = true.
Proof.
  assert (detect_cta "Subscribe" = true) as H by reflexivity.
  split; [exact H|].
  exact (proj2 (proj2 (detect_cta_spec "Subscribe" "If you liked it, please "
                         " now!")) H).
Defined.

(** ** Stripping, [read_text] and the lines of a dataset *)

Section Strip.

Lemma rev_rev (s : string) : String.rev (String.rev s) = s.
Proof. apply chars_inj. by rewrite !chars_rev, reverse_involutive. Qed.

Lemma rev_append (a b : string) :
  String.rev (a +:+ b) = String.rev b +:+ String.rev a.
Proof.
  apply chars_inj. by rewrite chars_app, !chars_rev, chars_app, reverse_app.
Qed.

Lemma blank_rev (s : string) : blank s → blank (String.rev s).
Proof. unfold blank. rewrite chars_rev. apply Forall_reverse. Qed.

Lemma blank_nil_head (s : string) (c : ascii) :
  blank s → head (chars s) = Some c → Py.isspace c = true.
Proof.
  unfold blank. destruct (chars s) as [|d l]; [done|].
  intros H [= <-]. by apply Forall_cons_1 in H as [? _].
Qed.

(** [lstrip] takes a white prefix off and stops at the first character
    that is not white space. *)
Lemma lstrip_spec (s : string) :
  ∃ a, s = a +:+ Py.lstrip s ∧ blank a
       ∧ ∀ c, head (chars (Py.lstrip s)) = Some c → Py.isspace c = false.
Proof.
  induction s as [|d s (a & Hs & Ha & Hh)].
  - exists "". split_and!; [done | constructor | done].
  - simpl. destruct (Py.isspace d) eqn:Hd.
    + exists (String d a). split_and!; [by rewrite append_cons, <- Hs | | done].
      unfold blank, chars. simpl. by constructor.
    + exists "". split_and!; [done | constructor |].
      unfold chars. simpl. by intros c [= <-].
Qed.

Lemma head_app_nonempty (a b : string) (c : ascii) :
  head (chars a) = Some c → head (chars (a +:+ b)) = Some c.
Proof. rewrite chars_app. by destruct (chars a). Qed.

Lemma last_rev_head (s : string) : last (chars (String.rev s)) = head (chars s).
Proof. rewrite chars_rev. apply last_reverse. Qed.

(** [strip] takes the white space off both ends and nothing else. *)
Lemma strip_spec (s : string) :
  ∃ a b, s = a +:+ Py.strip s +:+ b ∧ blank a ∧ blank b
         ∧ (∀ c, head (chars (Py.strip s)) = Some c → Py.isspace c = false)
         ∧ (∀ c, last (chars (Py.strip s)) = Some c → Py.isspace c = false).
Proof.
  unfold Py.strip.
  destruct (lstrip_spec s) as (a & Hs & Ha & Hh).
  destruct (lstrip_spec (String.rev (Py.lstrip s))) as (b & Hu & Hb & Hv).
  set (u := Py.lstrip s) in *. set (v := Py.lstrip (String.rev u)) in *.
  assert (u = String.rev v +:+ String.rev b) as Hu'.
  { rewrite <- (rev_rev u), Hu. apply rev_append. }
  exists a, (String.rev b). split_and!.
  - by rewrite <- Hu'.
  - done.
  - by apply blank_rev.
  - intros c Hc. apply Hh. rewrite Hu'. by apply head_app_nonempty.
  - intros c Hc. apply Hv. by rewrite <- last_rev_head.
Qed.

Lemma blank_app (a b : string) : blank (a +:+ b) ↔ blank a ∧ blank b.
Proof. unfold blank. rewrite chars_app. apply Forall_app. Qed.

Lemma chars_nil (s : string) : chars s = [] → s = "".
Proof. by destruct s. Qed.

(** A text strips to nothing exactly when it is white space only. *)
Lemma strip_empty_iff (s : string) : Py.strip s = "" ↔ blank s.
Proof.
  destruct (strip_spec s) as (a & b & Hs & Ha & Hb & Hh & _). split.
  - intros H. rewrite H in Hs. rewrite Hs. apply blank_app. split; [done|].
    apply blank_app. split; [constructor | done].
  - intros Hblank. rewrite Hs in Hblank.
    apply blank_app in Hblank as [_ Hblank]. apply blank_app in Hblank as [Ht _].
    apply chars_nil. destruct (chars (Py.strip s)) as [|c l] eqn:Hc; [done|].
    assert (Py.isspace c = false) as Hn by (by apply Hh).
    unfold blank in Ht. rewrite Hc in Ht. apply Forall_cons_1 in Ht as [Hy _].
    congruence.
Qed.

End Strip.

(** X8.  [read_text] raises [FileNotFoundError] with a message that ends
    in the path when the file is missing; otherwise it returns the text of
    the file with the white space of both ends taken off and nothing else:
    the result neither starts nor ends with white space. *)
Theorem read_text_stripped (files : fs) (path : string) :
  match files !! path with
  | None =>
      read_text files path
      = Raise (FileNotFoundError ("Expected file missing: " +:+ path))
  | Some text =>
      ∃ t a b,
        read_text files path = Ok t
        ∧ text = a +:+ t +:+ b ∧ blank a ∧ blank b
        ∧ (∀ c, head (chars t) = Some c → Py.isspace c = false)
        ∧ (∀ c, last (chars t) = Some c → Py.isspace c = false)
  end.
Proof.
  unfold read_text. destruct (files !! path) as [text|]; [|done].
  destruct (strip_spec text) as (a & b & H). by exists (Py.strip text), a, b.
Qed.

Section ParseLines.

Variable json_loads : string → result row.

Lemma parse_lines_cons_blank (line : string) (rest : list string) :
  blank line →
  parse_lines json_loads (line :: rest) = parse_lines json_loads rest.
Proof.
  intros Hb. cbn [parse_lines]. apply strip_empty_iff in Hb.
  by rewrite decide_True.
Qed.

Lemma parse_lines_cons (line : string) (rest : list string) :
  ¬ blank line →
  parse_lines json_loads (line :: rest)
  = (r ← json_loads (Py.strip line);
     rs ← parse_lines json_loads rest;
     Ok (r :: rs)).
Proof.
  intros Hb. cbn [parse_lines]. rewrite decide_False; [done|].
  by rewrite strip_empty_iff.
Qed.

End ParseLines.

(** X9.  Reading the lines of a dataset: a line of white space only is
    skipped, every other line is stripped and parsed, and the rows come in
    the order of the lines; the reading succeeds exactly when every line
    that is not blank parses, so one bad line fails the whole file. *)
Theorem parse_lines_rows (json_loads : string → result row)
    (lines : list string) (rows : list row) :
  (parse_lines json_loads lines = Ok rows
   ↔ Forall2 (λ line r, json_loads (Py.strip line) = Ok r)
             (filter (λ line, ¬ blank line) lines) rows)
  ∧ parse_lines json_loads (filter (λ line, ¬ blank line) lines)
    = parse_lines json_loads lines.
Proof.
  split.
  - revert rows. induction lines as [|line rest IH]; intros rows.
    + simpl. split; [intros [= <-]; constructor | by intros ->%Forall2_nil_inv_l].
    + destruct (decide (blank line)) as [Hb|Hb].
      * rewrite parse_lines_cons_blank by done.
        rewrite filter_cons_False by (by intros H). apply IH.
      * rewrite parse_lines_cons by done. rewrite filter_cons_True by done.
        destruct (json_loads (Py.strip line)) as [r|e] eqn:Hr; simpl.
        -- destruct (parse_lines json_loads rest) as [rs|e] eqn:Hrs; simpl.
           ++ split.
              ** intros [= <-]. constructor; [done|]. by apply IH.
              ** intros (r' & rs' & Hr' & Hrs' & ->)%Forall2_cons_inv_l.
                 apply IH in Hrs'. congruence.
           ++ split; [done|].
              intros (r' & rs' & Hr' & Hrs' & ->)%Forall2_cons_inv_l.
              apply IH in Hrs'. congruence.
        -- split; [done|].
           intros (r' & rs' & Hr' & Hrs' & ->)%Forall2_cons_inv_l. congruence.
  - induction lines as [|line rest IH]; [done|].
    destruct (decide (blank line)) as [Hb|Hb].
    + rewrite parse_lines_cons_blank by done.
      by rewrite filter_cons_False by (by intros H).
    + rewrite filter_cons_True by done. rewrite !parse_lines_cons by done.
      by rewrite IH.
Qed.

(** ** Headings *)

Section Headings.

Lemma lines_by_line (brk : ascii → bool) (s rest : string) :
  brk "010"%char = true → no_break brk s →
  Py.lines_by brk (s +:+ String "010" rest) = s :: Py.lines_by brk rest.
Proof.
  intros Hlf. unfold no_break. induction s as [|c s IH]; intros Hs.
  - change ("" +:+ String "010" rest) with (String "010" rest).
    cbn [Py.lines_by]. rewrite Hlf. by destruct rest.
  - unfold chars in Hs. simpl in Hs. apply Forall_cons_1 in Hs as [Hc Hs].
    rewrite append_cons. cbn [Py.lines_by]. rewrite Hc. by rewrite (IH Hs).
Qed.

Lemma lines_by_one (brk : ascii → bool) (s : string) :
  no_break brk s → Py.lines_by brk s = if decide (s = "") then [] else [s].
Proof.
  unfold no_break. induction s as [|c s IH]; intros Hs; [done|].
  unfold chars in Hs. simpl in Hs. apply Forall_cons_1 in Hs as [Hc Hs].
  cbn [Py.lines_by]. rewrite Hc, (IH Hs). rewrite (decide_False (P := String c s = "")) by done.
  by destruct (decide (s = "")) as [->|].
Qed.

Lemma lstrip_blank_app (a s : string) : blank a → Py.lstrip (a +:+ s) = Py.lstrip s.
Proof.
  unfold blank. induction a as [|c a IH]; intros Ha; [done|].
  unfold chars in Ha. simpl in Ha. apply Forall_cons_1 in Ha as [Hc Ha].
  rewrite append_cons. simpl. rewrite Hc. by apply IH.
Qed.

(** What [strip] leaves is what [lstrip] leaves, less white space at the
    end. *)
Lemma lstrip_strip (s : string) :
  ∃ b, Py.lstrip s = Py.strip s +:+ b ∧ blank b.
Proof.
  unfold Py.strip.
  destruct (lstrip_spec (String.rev (Py.lstrip s))) as (b & Hu & Hb & _).
  exists (String.rev b). split; [|by apply blank_rev].
  rewrite <- (rev_rev (Py.lstrip s)) at 1. rewrite Hu at 1. apply rev_append.
Qed.

Lemma startswith_hash (s : string) :
  Py.startswith "#" s = true ↔ head (chars s) = Some "#"%char.
Proof.
  destruct s as [|c s]; [done|]. unfold chars. simpl.
  rewrite andb_true_r, bool_decide_eq_true. split; [by intros <- | by intros [= ->]].
Qed.

(** A line counts as a heading exactly when its first character that is
    not white space is ['#']. *)
Lemma heading_line_iff (line : string) :
  Py.startswith "#" (Py.strip line) = true ↔ heading_line line.
Proof.
  unfold heading_line. split.
  - intros H. destruct (startswith_prefix _ _ H) as [t Ht].
    destruct (strip_spec line) as (a & b & Hl & Ha & _).
    exists a, (t +:+ b). split; [|done]. rewrite Hl at 1. rewrite Ht.
    apply chars_inj. rewrite !chars_app, !chars_cons, !chars_app.
    simpl. by rewrite <- ?app_assoc.
  - intros (a & rest & -> & Ha). apply startswith_hash.
    destruct (lstrip_strip (a +:+ String "#" rest)) as (b & Hl & Hb).
    rewrite lstrip_blank_app in Hl by done. simpl in Hl.
    apply (f_equal chars) in Hl. rewrite chars_app in Hl.
    destruct (chars (Py.strip (a +:+ String "#" rest))) as [|c l].
    + simpl in Hl. unfold blank in Hb. rewrite <- Hl in Hb.
      unfold chars in Hb. simpl in Hb. by apply Forall_cons_1 in Hb as [? _].
    + unfold chars in Hl. simpl in Hl. by injection Hl as <- _.
Qed.

Lemma heading_count_one (line : string) :
  no_break Py.is_linebreak line →
  heading_count line = if Py.startswith "#" (Py.strip line) then 1 else 0.
Proof.
  intros Hl. unfold heading_count, Py.splitlines. rewrite lines_by_one by done.
  destruct (decide (line = "")) as [->|Hne]; [done|].
  destruct (Py.startswith "#" (Py.strip line)) eqn:H.
  - by rewrite filter_cons_True.
  - rewrite filter_cons_False; [done|]. by rewrite H.
Qed.

Lemma heading_count_line (line rest : string) :
  no_break Py.is_linebreak line →
  heading_count (line +:+ String "010" rest)
  = heading_count line + heading_count rest.
Proof.
  intros Hl. rewrite (heading_count_one line Hl).
  unfold heading_count, Py.splitlines. rewrite lines_by_line by done.
  destruct (Py.startswith "#" (Py.strip line)) eqn:H.
  - by rewrite filter_cons_True.
  - rewrite filter_cons_False; [done|]. by rewrite H.
Qed.

End Headings.

(** X10.  [heading_count] counts the lines whose first character that is
    not white space is ['#'].  A line without line break counts for one when
    it is such a line and for nothing otherwise, and the count of a line
    followed by a line feed and more text is the sum of the two counts. *)
Theorem heading_count_additive (line rest : string) :
  no_break Py.is_linebreak line →
  (heading_line line → heading_count line = 1)
  ∧ (¬ heading_line line → heading_count line = 0)
  ∧ heading_count (line +:+ String "010" rest)
    = heading_count line + heading_count rest.
Proof.
  intros Hl. rewrite (heading_count_one line Hl). split_and!.
  - intros H. apply heading_line_iff in H. by rewrite H.
  - intros H. destruct (Py.startswith "#" (Py.strip line)) eqn:Hs; [|done].
    by apply heading_line_iff in Hs.
  - rewrite <- (heading_count_one line Hl). by apply heading_count_line.
Qed.

Lemma heading_count_additive_witness :
  heading_count "  ## Intro" = 1
  ∧ heading_count ("  ## Intro" +:+ String "010" "text # not a heading")
    = heading_count "  ## Intro" + heading_count "text # not a heading".
Proof.
  assert (no_break Py.is_linebreak "  ## Intro") as H.
  { unfold no_break. apply (bool_decide_unpack _). vm_compute. exact I. }
  destruct (heading_count_additive "  ## Intro" "text # not a heading" H)
    as (H1 & _ & H2).
  split; [|exact H2]. apply H1. exists "  ", "# Intro".
  split; [reflexivity|]. apply (bool_decide_unpack _). vm_compute. exact I.
Defined.

(** ** The cached mode and the runner *)

(** X11.  In cached mode the [.md] file wins: when it exists its stripped
    text is the generated text, whether or not a [.txt] file exists too;
    the [.txt] file is read only when there is no [.md] file. *)
Theorem cached_md_first (generate_blog : generate_blog_t) (files : fs)
    (sample : row) (mode generated_dir sid : string) :
  mode ≠ "live" →
  sample !! "id" = Some sid →
  resolve_generated_text generate_blog files sample mode generated_dir
  = match files !! Py.joinpath generated_dir (sid +:+ ".md") with
    | Some md => Ok (Py.strip md)
    | None =>
        match files !! Py.joinpath generated_dir (sid +:+ ".txt") with
        | Some txt => Ok (Py.strip txt)
        | None =>
            Raise (FileNotFoundError
                     ("No cached output found for sample " +:+ sid +:+ " in "
                      +:+ generated_dir))
        end
    end.
Proof.
  intros Hmode Hid. unfold resolve_generated_text. rewrite decide_False by done.
  unfold find_cached. rewrite (getitem_Some sample "id" sid) by done. simpl.
  unfold read_text.
  destruct (files !! Py.joinpath generated_dir (sid +:+ ".md")) as [md|] eqn:Hmd.
  { by rewrite decide_True by eauto. }
  rewrite decide_False by (by intros [? ?]).
  destruct (files !! Py.joinpath generated_dir (sid +:+ ".txt")) as [txt|] eqn:Htxt.
  { by rewrite decide_True by eauto. }
  by rewrite decide_False by (by intros [? ?]).
Qed.

Lemma cached_md_first_witness :
  resolve_generated_text (λ _ _, Ok RespOther)
    (<["out/v1.txt" := "from txt"]> (<["out/v1.md" := " # From md "]> ∅))
    (<["id" := "v1"]> ∅) "mock" "out"
  = Ok "# From md".
Proof.
  exact (cached_md_first (λ _ _, Ok RespOther)
           (<["out/v1.txt" := "from txt"]> (<["out/v1.md" := " # From md "]> ∅))
           (<["id" := "v1"]> ∅) "mock" "out" "v1"
           ltac:(discriminate) eq_refl).
Defined.

Section Runner.

Variable ext : externals.
Variable BASE_DIR : string.
Variable files : fs.
Variable mode generated_dir : string.
Variable skip_bert : bool.
Variable bert_model : option string.

Lemma evaluate_row_ok (r : row) (sid : string) (metrics : gmap string Qc) :
  evaluate_row ext BASE_DIR files mode generated_dir skip_bert bert_model r
  = Ok (sid, metrics) →
  r !! "id" = Some sid ∧ usable_row BASE_DIR files r.
Proof.
  unfold evaluate_row, usable_row, getitem, read_text.
  destruct (r !! "id") as [i|]; [|done].
  destruct (r !! "transcript_path") as [tp|]; [|done].
  destruct (r !! "reference_blog_path") as [rp|]; [|done].
  cbn [mbind result_bind].
  destruct (files !! Py.joinpath BASE_DIR tp) as [t|] eqn:Ht; [|done].
  destruct (files !! Py.joinpath BASE_DIR rp) as [ref|] eqn:Href; [|done].
  cbn [mbind result_bind].
  destruct (resolve_generated_text _ _ _ _ _) as [g|]; [|done].
  cbn [mbind result_bind].
  destruct (collect_metrics _ _ _ _ _ _) as [m|]; [|done].
  cbn [mbind result_bind]. intros [= -> ->].
  split; [done|]. exists sid, tp, rp. rewrite Ht, Href. eauto 10.
Qed.

Lemma evaluate_loop_ok (dataset : list row)
    (acc results : gmap string (gmap string Qc)) :
  evaluate_loop ext BASE_DIR files mode generated_dir skip_bert bert_model
    dataset acc = Ok results →
  dom results = dom acc ∪ row_ids dataset
  ∧ Forall (usable_row BASE_DIR files) dataset.
Proof.
  revert acc. induction dataset as [|r rest IH]; intros acc.
  - simpl. intros [= ->]. split; [|constructor].
    unfold row_ids. simpl. by rewrite (right_id_L ∅ (∪)).
  - cbn [evaluate_loop].
    destruct (evaluate_row _ _ _ _ _ _ _ r) as [[sid m]|] eqn:Hrow; [|done].
    cbn [mbind result_bind fst snd]. intros Hrest.
    apply evaluate_row_ok in Hrow as [Hid Hus].
    destruct (IH _ Hrest) as [Hdom Hall]. split; [|by constructor].
    rewrite Hdom, dom_insert_L. unfold row_ids. cbn [omap list_omap].
    rewrite Hid. rewrite list_to_set_cons.
    rewrite (comm_L (∪) {[sid]} (dom acc)). by rewrite (assoc_L (∪)).
Qed.

End Runner.

(** X12.  When [evaluate] returns, the report has an entry for exactly the
    ids of the dataset's rows, and every row had an id, both paths, and both
    files under the base directory: a missing transcript or reference file
    is fatal to the whole run. *)
Theorem evaluate_results_keys (ext : externals) (BASE_DIR : string) (files : fs)
    (dataset_path mode generated_dir : string) (skip_bert : bool)
    (bert_model : option string) (results : gmap string (gmap string Qc)) :
  evaluate ext BASE_DIR files dataset_path mode generated_dir skip_bert
    bert_model = Ok results →
  ∃ rows : list row,
    read_jsonl (json_loads ext) files dataset_path = Ok rows
    ∧ dom results = row_ids rows
    ∧ Forall (usable_row BASE_DIR files) rows.
Proof.
  unfold evaluate.
  destruct (read_jsonl (json_loads ext) files dataset_path) as [rows|]; [|done].
  cbn [mbind result_bind]. intros H. apply evaluate_loop_ok in H as [Hdom Hall].
  exists rows. split_and!; [done | | done].
  by rewrite Hdom, dom_empty_L, (left_id_L ∅ (∪)).
Qed.

Lemma evaluate_results_keys_witness :
  ∃ rows : list row,
    read_jsonl kv_loads run_files "dataset.jsonl" = Ok rows
    ∧ dom run_results = row_ids rows
    ∧ Forall (usable_row "base" run_files) rows.
Proof.
  apply (evaluate_results_keys run_ext "base" run_files "dataset.jsonl" "mock"
           "out" true None run_results).
  vm_compute. reflexivity.
Defined.

Example run_results_keys : dom run_results = {["v1"]}.
Proof. vm_compute. reflexivity. Qed.

Section MockMode.

Lemma evaluate_loop_mock (ext : externals) (generate_blog' : generate_blog_t)
    (BASE_DIR : string) (files : fs) (mode generated_dir : string)
    (skip_bert : bool) (bert_model : option string) (dataset : list row)
    (acc : gmap string (gmap string Qc)) :
  mode ≠ "live" →
  evaluate_loop ext BASE_DIR files mode generated_dir skip_bert bert_model
    dataset acc
  = evaluate_loop
      (Externals (rouge_scorer ext) (bert_score ext) generate_blog'
         (json_loads ext))
      BASE_DIR files mode generated_dir skip_bert bert_model dataset acc.
Proof.
  intros Hmode. revert acc. induction dataset as [|r rest IH]; intros acc; [done|].
  cbn [evaluate_loop].
  assert (evaluate_row ext BASE_DIR files mode generated_dir skip_bert
            bert_model r
          = evaluate_row
              (Externals (rouge_scorer ext) (bert_score ext) generate_blog'
                 (json_loads ext))
              BASE_DIR files mode generated_dir skip_bert bert_model r) as ->.
  { unfold evaluate_row.
    destruct (getitem r "id") as [sid|]; [|done].
    destruct (getitem r "transcript_path") as [tp|]; [|done].
    destruct (getitem r "reference_blog_path") as [rp|]; [|done].
    cbn [mbind result_bind].
    destruct (read_text files (Py.joinpath BASE_DIR tp)) as [t|]; [|done].
    destruct (read_text files (Py.joinpath BASE_DIR rp)) as [ref|]; [|done].
    cbn [mbind result_bind generate_blog rouge_scorer bert_score].
    unfold resolve_generated_text. by rewrite !decide_False by done. }
  destruct (evaluate_row _ _ _ _ _ _ _ r) as [entry|]; [|done].
  cbn [mbind result_bind]. apply IH.
Qed.

End MockMode.

(** X13.  In cached mode the run never consults the generation
    capability: with any other capability in its place, [evaluate] gives
    the same result or the same error. *)
Theorem evaluate_mock_ignores_capability (ext : externals)
    (generate_blog' : generate_blog_t) (BASE_DIR : string) (files : fs)
    (dataset_path mode generated_dir : string) (skip_bert : bool)
    (bert_model : option string) :
  mode ≠ "live" →
  evaluate ext BASE_DIR files dataset_path mode generated_dir skip_bert
    bert_model
  = evaluate
      (Externals (rouge_scorer ext) (bert_score ext) generate_blog'
         (json_loads ext))
      BASE_DIR files dataset_path mode generated_dir skip_bert bert_model.
Proof.
  intros Hmode. unfold evaluate. cbn [json_loads].
  destruct (read_jsonl (json_loads ext) files dataset_path) as [rows|]; [|done].
  cbn [mbind result_bind]. by apply evaluate_loop_mock.
Qed.

Lemma evaluate_mock_ignores_capability_witness :
  evaluate run_ext "base" run_files "dataset.jsonl" "mock" "out" true None
  = evaluate (Externals None None echo_tone kv_loads) "base" run_files
      "dataset.jsonl" "mock" "out" true None.
Proof.
  apply (evaluate_mock_ignores_capability run_ext echo_tone).
  discriminate.
Defined.

(** ** The shape of a sample's metrics *)

(** X14.  Without the semantic-similarity scorer, or with it skipped, the
    metrics of a sample are exactly the seven base metrics.  When the
    scorer runs and its three tensors can be read, the metrics are the
    seven and [bert_precision], [bert_recall], [bert_f1], each rounded to 4
    decimal places, and there is no error flag. *)
Theorem collect_metrics_shape (rouge : option rouge_scorer_t)
    (bert_score : option bert_score_t) (reference generated : string)
    (skip_bert : bool) (bert_model : option string) :
  ∃ metrics : gmap string Qc,
    collect_metrics rouge bert_score reference generated skip_bert bert_model
    = Ok metrics
    ∧ match bert_score with
      | None => dom metrics = list_to_set base_keys
      | Some bert =>
          if skip_bert then dom metrics = list_to_set base_keys
          else
            match bert [generated] [reference] (bert_call_kwargs bert_model) with
            | BertReturns (Some p) (Some r) (Some f) =>
                dom metrics = list_to_set (base_keys ++ bert_keys)
                ∧ metrics !! "bert_precision" = Some (Py.round4 p)
                ∧ metrics !! "bert_recall" = Some (Py.round4 r)
                ∧ metrics !! "bert_f1" = Some (Py.round4 f)
            | _ => metrics !! "bert_f1" = None
            end
      end.
Proof.
  unfold collect_metrics.
  destruct (rouge_scores_ok rouge reference generated) as (a & b & ->).
  rewrite keyword_recall_eq. cbn [mbind result_bind].
  destruct bert_score as [bert|]; [destruct skip_bert|].
  - eexists. split; [done|]. vm_compute. reflexivity.
  - eexists. split; [done|]. unfold collect_bert.
    destruct (bert _ _ _) as [|[p|] [r|] [f|]]; cbn zeta;
      try (vm_compute; reflexivity).
    split_and!; vm_compute; reflexivity.
  - eexists. split; [done|]. vm_compute. reflexivity.
Qed.

(** ** Averages stay within the values *)

Section Mean.

Lemma float_of_nat_S (n : nat) :
  Py.float_of_nat (S n) = (Py.float_of_nat n + 1)%Qc.
Proof.
  unfold Py.float_of_nat. apply Qc_is_canon. simpl.
  rewrite !Qred_correct. unfold Qeq. simpl. lia.
Qed.

Lemma float_of_nat_pos (n : nat) : n ≠ 0 → (0 < Py.float_of_nat n)%Qc.
Proof.
  intros Hn. unfold Qclt, Py.float_of_nat.
  change (this (Q2Qc (Z.of_nat n # 1))) with (Qred (Z.of_nat n # 1)).
  rewrite Qred_correct. change (this 0) with (0 # 1)%Q.
  unfold Qlt. cbn [Qnum Qden]. lia.
Qed.

Lemma sum_list_bounds (lo hi : Qc) (l : list Qc) :
  Forall (λ v, (lo <= v)%Qc ∧ (v <= hi)%Qc) l →
  (lo * Py.float_of_nat (length l) <= sum_list l)%Qc
  ∧ (sum_list l <= hi * Py.float_of_nat (length l))%Qc.
Proof.
  induction 1 as [|v l [Hlo Hhi] _ [IHlo IHhi]].
  - simpl. change (Py.float_of_nat 0) with 0%Qc. rewrite !Qcmult_0_r.
    split; apply Qcle_refl.
  - cbn [length sum_list foldr]. fold (sum_list l). rewrite float_of_nat_S.
    rewrite !Qcmult_plus_distr_r, !Qcmult_1_r.
    rewrite (Qcplus_comm (lo * _) lo), (Qcplus_comm (hi * _) hi).
    split; by apply Qcplus_le_compat.
Qed.

(** The mean of values between [lo] and [hi] is between [lo] and [hi]. *)
Lemma mean_bounds (lo hi : Qc) (l : list Qc) :
  l ≠ [] →
  Forall (λ v, (lo <= v)%Qc ∧ (v <= hi)%Qc) l →
  (lo <= sum_list l / Py.float_of_nat (length l))%Qc
  ∧ (sum_list l / Py.float_of_nat (length l) <= hi)%Qc.
Proof.
  intros Hne Hall. destruct (sum_list_bounds lo hi l Hall) as [Hlo Hhi].
  assert (length l ≠ 0) as Hlen by (by destruct l).
  pose proof (float_of_nat_pos _ Hlen) as Hpos.
  assert (Py.float_of_nat (length l) ≠ 0%Qc) as Hnz.
  { intros H. rewrite H in Hpos. by apply Qclt_not_eq in Hpos. }
  assert ((sum_list l / Py.float_of_nat (length l))
          * Py.float_of_nat (length l) = sum_list l)%Qc as Hdiv.
  { rewrite Qcmult_comm. by apply Qcmult_div_r. }
  split; apply (Qcmult_lt_0_le_reg_r _ _ _ Hpos); by rewrite Hdiv.
Qed.

Lemma elem_of_metric_values (results : gmap string (gmap string Qc))
    (metric : string) (v : Qc) :
  v ∈ metric_values results metric
  ↔ ∃ id sample, results !! id = Some sample ∧ sample !! metric = Some v.
Proof.
  unfold metric_values. rewrite list_elem_of_omap. split.
  - intros (sample & Hin & Hv). apply list_elem_of_fmap in Hin as ([id s] & -> & Hin).
    apply elem_of_map_to_list in Hin. eauto.
  - intros (id & sample & Hid & Hv). exists sample. split; [|done].
    apply list_elem_of_fmap. exists (id, sample). split; [done|].
    by apply elem_of_map_to_list.
Qed.

Lemma aggregate_lookup (results : gmap string (gmap string Qc))
    (summary : gmap string Qc) (metric : string) :
  aggregate results = Ok summary →
  observed results metric →
  summary !! ("avg_" +:+ metric) = Some (agg_value results metric).
Proof.
  unfold aggregate. intros Hagg Hobs.
  destruct (decide (results = ∅)) as [->|Hne].
  { destruct Hobs as (id & sample & Hid & _). by rewrite lookup_empty in Hid. }
  destruct (aggregate_loop_ok results
              (merge_sort String.le
                 (elements (⋃ ((λ sample : gmap string Qc, dom sample)
                                 <$> (map_to_list results).*2)
                            : gset string))) ∅)
    as (summary' & Hrun & Hin & _).
  rewrite Hrun in Hagg. injection Hagg as <-.
  by apply Hin, elem_of_all_keys.
Qed.

Lemma aggregate_ok (results : gmap string (gmap string Qc)) :
  ∃ summary : gmap string Qc, aggregate results = Ok summary.
Proof.
  unfold aggregate. case_decide; [by eexists|].
  destruct (aggregate_loop_ok results
              (merge_sort String.le
                 (elements (⋃ ((λ sample : gmap string Qc, dom sample)
                                 <$> (map_to_list results).*2)
                            : gset string))) ∅)
    as (summary' & Hrun & _). by exists summary'.
Qed.

Lemma aggregate_bounds (results : gmap string (gmap string Qc))
    (summary : gmap string Qc) (metric : string) (lo hi : Qc) :
  aggregate results = Ok summary →
  observed results metric →
  (∀ id sample v,
     results !! id = Some sample → sample !! metric = Some v →
     (lo <= v)%Qc ∧ (v <= hi)%Qc) →
  summary !! ("avg_" +:+ metric) = Some (agg_value results metric)
  ∧ (lo <= agg_value results metric)%Qc ∧ (agg_value results metric <= hi)%Qc.
Proof.
  intros Hagg Hobs Hall.
  split; [by apply aggregate_lookup|].
  assert (metric_values results metric ≠ []) as Hne.
  { destruct Hobs as (id & sample & Hid & v & Hv). intros Hnil.
    assert (v ∈ metric_values results metric) as Hin
      by (apply elem_of_metric_values; eauto).
    rewrite Hnil in Hin. by apply elem_of_nil in Hin. }
  unfold agg_value. rewrite decide_False by done. apply mean_bounds; [done|].
  apply Forall_forall. intros v Hv.
  apply elem_of_metric_values in Hv as (id & sample & Hid & Hv). eauto.
Qed.

End Mean.

(** X15.  An average of the summary lies between any two bounds that hold
    of every reported value of the metric; so a metric every sample reports
    with the same value, or that one sample alone reports, is averaged to
    that value. *)
Theorem aggregate_within_bounds (results : gmap string (gmap string Qc))
    (summary : gmap string Qc) (metric : string) (lo hi : Qc) :
  aggregate results = Ok summary →
  observed results metric →
  (∀ id sample v,
     results !! id = Some sample → sample !! metric = Some v →
     (lo <= v)%Qc ∧ (v <= hi)%Qc) →
  ∃ avg : Qc,
    summary !! ("avg_" +:+ metric) = Some avg
    ∧ (lo <= avg)%Qc ∧ (avg <= hi)%Qc
    ∧ (lo = hi → avg = lo).
Proof.
  intros Hagg Hobs Hall. exists (agg_value results metric).
  destruct (aggregate_bounds results summary metric lo hi Hagg Hobs Hall)
    as (Hk & Hlo & Hhi).
  split_and!; [done | done | done |].
  intros <-. by apply Qcle_antisym.
Qed.

Lemma aggregate_within_bounds_witness :
  ∃ avg : Qc,
    (match aggregate example_results with Ok s => s | Raise _ => ∅ end)
      !! "avg_m" = Some avg
    ∧ (1 <= avg)%Qc ∧ (avg <= Q2Qc (3 # 1))%Qc
    ∧ (1%Qc = Q2Qc (3 # 1) → avg = 1%Qc).
Proof.
  apply (aggregate_within_bounds example_results _ "m" 1%Qc (Q2Qc (3 # 1))).
  - vm_compute. reflexivity.
  - exists "a", (<["m" := 1%Qc]> ∅). split; [reflexivity|].
    exists 1%Qc. reflexivity.
  - intros id sample v Hid Hv.
    unfold example_results in Hid.
    apply lookup_insert_Some in Hid as [[_ <-]|[_ Hid]].
    + apply lookup_insert_Some in Hv as [[_ <-]|[_ Hv]]; [|done].
      split; vm_compute; discriminate.
    + apply lookup_insert_Some in Hid as [[_ <-]|[_ Hid]]; [|done].
      apply lookup_insert_Some in Hv as [[_ <-]|[_ Hv]]; [|done].
      split; vm_compute; discriminate.
Defined.

(** ** The dataset store: writing, adding, validating, listing *)

(** X16.  What [write_rows] writes, [load_rows] reads back: with a JSON
    codec that writes each of the rows on one line and reads it back, the
    store holds the rows in their order after the write, whatever it held
    before; no other file and no output is touched. *)
Theorem write_then_load (json_loads : string → result row)
    (json_dumps : row → string) (dataset_path : string) (rows : list row)
    (w : PrepareDataset.world) :
  Forall (codec_ok json_loads json_dumps) rows →
  let w' := (PrepareDataset.write_rows json_dumps dataset_path rows w).2 in
  PrepareDataset.load_rows json_loads dataset_path w' = (Ok rows, w')
  ∧ (∀ p, p ≠ dataset_path →
          PrepareDataset.w_files w' !! p = PrepareDataset.w_files w !! p)
  ∧ PrepareDataset.w_stdout w' = PrepareDataset.w_stdout w.
Proof.
  intros Hok w'. split_and!.
  - apply (load_rows_written json_loads json_dumps); [done|].
    unfold w', PrepareDataset.write_rows. simpl. by rewrite lookup_insert_eq.
  - intros p Hp. unfold w', PrepareDataset.write_rows. simpl.
    by rewrite lookup_insert_ne.
  - done.
Qed.

Lemma write_then_load_witness :
  let rows := [PrepareDataset.new_row args_b; PrepareDataset.new_row args_a] in
  let w' := (PrepareDataset.write_rows kv_dumps "dataset.jsonl" rows world_a).2 in
  PrepareDataset.load_rows kv_loads "dataset.jsonl" w' = (Ok rows, w').
Proof.
  intros rows w'.
  apply (write_then_load kv_loads kv_dumps "dataset.jsonl" rows world_a).
  repeat constructor; vm_compute; (reflexivity || discriminate).
Defined.

Section AddEffects.

Import PrepareDataset.

Variable json_loads : string → result row.
Variable json_dumps : row → string.

Lemma ensure_file_files (what path : string) (w : world) :
  ∃ w', ensure_file what path w = (Ok (), w')
        ∧ ∀ p, w_files w' !! p
               = match w_files w !! p with
                 | Some t => Some t
                 | None => if decide (p = path) then Some "" else None
                 end.
Proof.
  unfold ensure_file, mbind, prog_bind, exists_, touch, print, mret, prog_ret.
  simpl. destruct (w_files w !! path) as [t|] eqn:Hpath.
  - rewrite bool_decide_eq_true_2 by eauto. eexists. split; [done|].
    intros p. destruct (w_files w !! p) eqn:Hp; [done|].
    case_decide; [congruence | done].
  - rewrite bool_decide_eq_false_2 by (by intros [? ?]).
    rewrite decide_False by (rewrite Hpath; by intros [? ?]).
    eexists. split; [done|].
    intros p. simpl. destruct (decide (p = path)) as [->|Hne].
    + by rewrite lookup_insert_eq, Hpath.
    + rewrite lookup_insert_ne by done. by destruct (w_files w !! p).
Qed.

(** What a successful [add_sample] leaves in the files. *)
Lemma add_sample_files (args : add_args) (w w' : world) :
  add_sample json_loads json_dumps args w = (Ok (), w') →
  ∀ p, p ≠ args_dataset args →
       w_files w' !! p
       = match w_files w !! p with
         | Some t => Some t
         | None =>
             if decide (p = args_transcript args ∨ p = args_reference args)
             then Some "" else None
         end.
Proof.
  unfold add_sample, mbind, prog_bind, lift.
  destruct (load_rows json_loads (args_dataset args) w) as [[rows|e] w0] eqn:Hl;
    [|done].
  assert (w0 = w) as ->.
  { unfold load_rows in Hl. destruct (w_files w !! args_dataset args); congruence. }
  destruct (any_id rows (args_id args)) as [[|]|e]; [done| |done].
  destruct (ensure_file_files "transcript" (args_transcript args) w)
    as (w1 & -> & H1).
  destruct (ensure_file_files "reference" (args_reference args) w1)
    as (w2 & -> & H2).
  unfold write_rows, print. simpl. intros [= <-] p Hp. simpl.
  rewrite lookup_insert_ne by done. rewrite H2, H1.
  destruct (w_files w !! p); [done|].
  destruct (decide (p = args_transcript args)) as [->|Ht].
  - by rewrite decide_True by (by left).
  - destruct (decide (p = args_reference args)) as [->|Hr].
    + by rewrite decide_True by (by right).
    + rewrite decide_False; [done|]. by intros [?|?].
Qed.

(** A failing [add_sample] has changed nothing. *)
Lemma add_sample_raise (args : add_args) (w w' : world) (e : exn) :
  add_sample json_loads json_dumps args w = (Raise e, w') → w' = w.
Proof.
  unfold add_sample, mbind, prog_bind, lift.
  destruct (load_rows json_loads (args_dataset args) w) as [[rows|e0] w0] eqn:Hl.
  - assert (w0 = w) as ->.
    { unfold load_rows in Hl. destruct (w_files w !! args_dataset args); congruence. }
    destruct (any_id rows (args_id args)) as [[|]|e1].
    + unfold raise. congruence.
    + destruct (ensure_file_ok "transcript" (args_transcript args) w) as [w1 ->].
      destruct (ensure_file_ok "reference" (args_reference args) w1) as [w2 ->].
      unfold write_rows, print. simpl. congruence.
    + congruence.
  - unfold load_rows in Hl. destruct (w_files w !! args_dataset args); congruence.
Qed.

End AddEffects.

(** X17.  When [add_sample] ends in one of the failures that precede its
    writes (a dataset that does not parse, a row without id, a duplicate
    id), the files and the output are as they were.  When it succeeds then,
    the dataset file apart, every file that was there keeps its text, the
    transcript and the reference file are there, empty when they were
    missing, and no other file appears. *)
Theorem add_sample_effects (json_loads : string → result row)
    (json_dumps : row → string) (args : PrepareDataset.add_args)
    (w : PrepareDataset.world) :
  match PrepareDataset.add_sample json_loads json_dumps args w with
  | (Raise e, w') => read_failure e → w' = w
  | (Ok _, w') =>
      ∀ p, p ≠ PrepareDataset.args_dataset args →
           PrepareDataset.w_files w' !! p
           = match PrepareDataset.w_files w !! p with
             | Some t => Some t
             | None =>
                 if decide (p = PrepareDataset.args_transcript args
                            ∨ p = PrepareDataset.args_reference args)
                 then Some "" else None
             end
  end.
Proof.
  destruct (PrepareDataset.add_sample json_loads json_dumps args w)
    as [[[]|e] w'] eqn:Hrun.
  - by apply (add_sample_files json_loads json_dumps args).
  - intros _. by apply (add_sample_raise json_loads json_dumps args w w' e).
Qed.

Example add_sample_effects_ex :
  PrepareDataset.add_sample kv_loads kv_dumps args_a world_a
  = (Raise (SystemExit
              "Dataset already contains id 'a'. Use a unique identifier."),
     world_a)
  ∧ PrepareDataset.w_files world_ab !! "transcripts/a.txt" = Some "hello"
  ∧ PrepareDataset.w_files world_ab !! "transcripts/b.txt" = Some ""
  ∧ PrepareDataset.w_files world_ab !! "references/b.md" = Some ""
  ∧ PrepareDataset.w_files world_ab !! "references/a.md" = None.
Proof. split_and!; vm_compute; reflexivity. Qed.

Section Validate.

Import PrepareDataset.

Lemma issues_length (files : gmap string string) (r : row) :
  length (issues files r) = missing_paths files r.
Proof.
  unfold issues, missing_paths. rewrite length_app.
  by repeat case_decide.
Qed.

Lemma issues_nil (files : gmap string string) (r : row) :
  well_formed r → issues files r = [] ↔ valid_row files r.
Proof.
  intros (_ & _ & [tp Htp] & [rp Hrp]). unfold issues, valid_row.
  rewrite Htp, Hrp. simpl. split.
  - intros H. exists tp, rp.
    destruct (decide (is_Some (files !! tp))), (decide (is_Some (files !! rp)));
      done.
  - intros (tp' & rp' & [= <-] & [= <-] & Ht & Hr).
    by rewrite !decide_True by done.
Qed.

Lemma validate_loop_ok (rows : list row) (missing : list string) (w : world) :
  Forall well_formed rows →
  validate_loop rows missing w
  = (Ok (missing ++ flat_map (issues (w_files w)) rows), w).
Proof.
  intros Hwf. revert missing. induction Hwf as [|r rows Hr _ IH]; intros missing.
  - simpl. by rewrite app_nil_r.
  - destruct Hr as ([i Hi] & _ & [tp Htp] & [rp Hrp]).
    cbn [validate_loop flat_map]. unfold mbind, prog_bind, lift, exists_, getitem.
    rewrite Htp, Hrp, Hi. unfold issues at 1. rewrite Htp, Hrp, Hi.
    cbn [mbind option_bind default].
    destruct (decide (is_Some (w_files w !! tp))) as [Ht|Ht],
      (decide (is_Some (w_files w !! rp))) as [Hr|Hr];
      [rewrite (bool_decide_eq_true_2 _ Ht)
      |rewrite (bool_decide_eq_true_2 _ Ht)
      |rewrite (bool_decide_eq_false_2 _ Ht)
      |rewrite (bool_decide_eq_false_2 _ Ht)];
      unfold mret, prog_ret; cbn beta iota;
      [rewrite (bool_decide_eq_true_2 _ Hr)
      |rewrite (bool_decide_eq_false_2 _ Hr)
      |rewrite (bool_decide_eq_true_2 _ Hr)
      |rewrite (bool_decide_eq_false_2 _ Hr)];
      simpl; rewrite IH; by rewrite <- ?app_assoc.
Qed.

Lemma validate_loop_world (rows : list row) (missing : list string) (w : world) :
  (validate_loop rows missing w).2 = w.
Proof.
  revert missing. induction rows as [|r rows IH]; intros missing; [done|].
  cbn [validate_loop]. unfold mbind, prog_bind, lift, exists_, getitem.
  destruct (r !! "transcript_path") as [tp|]; [|done].
  destruct (r !! "reference_blog_path") as [rp|]; [|done].
  destruct (bool_decide (is_Some (w_files w !! tp))); simpl.
  - destruct (bool_decide (is_Some (w_files w !! rp))); simpl; [apply IH|].
    destruct (r !! "id"); simpl; [apply IH|done].
  - destruct (r !! "id"); simpl; [|done].
    destruct (bool_decide (is_Some (w_files w !! rp))); simpl; apply IH.
Qed.

Lemma print_items_ok (items : list string) (w : world) :
  print_items items w
  = (Ok (), World (w_files w) (w_stdout w ++ map (λ i, "- " +:+ i) items)).
Proof.
  revert w. induction items as [|i items IH]; intros w.
  - simpl. rewrite app_nil_r. by destruct w.
  - cbn [print_items map]. unfold mbind, prog_bind, print at 1.
    rewrite IH. simpl. by rewrite <- app_assoc.
Qed.

Lemma flat_map_nil_Forall {A B : Type} (f : A → list B) (l : list A) :
  flat_map f l = [] ↔ Forall (λ a, f a = []) l.
Proof.
  induction l as [|a l IH]; simpl.
  - split; [constructor|done].
  - split.
    + intros [H1 H2]%app_eq_nil. constructor; [done|by apply IH].
    + intros H. inversion_clear H as [|? ? H1 H2].
      rewrite H1. simpl. by apply IH.
Qed.

Lemma flat_map_length_sum {A B : Type} (f : A → list B) (l : list A) :
  length (flat_map f l) = sum_list_with (λ a, length (f a)) l.
Proof.
  induction l as [|a l IH]; simpl; [done|]. by rewrite length_app, IH.
Qed.

Lemma load_rows_world (json_loads : string → result row) (path : string)
    (w : world) :
  (load_rows json_loads path w).2 = w.
Proof.
  unfold load_rows. by destruct (w_files w !! path).
Qed.

Lemma validate_dataset_run (json_loads : string → result row) (path : string)
    (w : world) (rows : list row) :
  load_rows json_loads path w = (Ok rows, w) →
  Forall well_formed rows →
  validate_dataset json_loads path w
  = if decide (flat_map (issues (w_files w)) rows = [])
    then (Ok (), World (w_files w)
                   (w_stdout w ++ ["All dataset paths are valid."]))
    else (Raise (SystemExit "1"),
          World (w_files w)
            (w_stdout w ++ "Validation failed:"
               :: map (λ i, "- " +:+ i) (flat_map (issues (w_files w)) rows))).
Proof.
  intros Hload Hwf. unfold validate_dataset, mbind, prog_bind.
  rewrite Hload, validate_loop_ok by done. cbn [app].
  case_decide as Hm; [done|].
  unfold print at 1. rewrite print_items_ok. unfold raise. simpl.
  by rewrite <- app_assoc.
Qed.

Lemma validate_dataset_world (json_loads : string → result row) (path : string)
    (w : world) :
  w_files (validate_dataset json_loads path w).2 = w_files w.
Proof.
  unfold validate_dataset, mbind, prog_bind.
  pose proof (load_rows_world json_loads path w) as Hl.
  destruct (load_rows json_loads path w) as [[rows|e] w0]; simpl in Hl; subst w0;
    [|done].
  pose proof (validate_loop_world rows [] w) as Hv.
  destruct (validate_loop rows [] w) as [[missing|e] w0]; simpl in Hv; subst w0;
    [|done].
  case_decide; [done|]. unfold print at 1. rewrite print_items_ok. done.
Qed.

Lemma list_row_world (r : row) (w : world) :
  w_files (list_row r w).2 = w_files w.
Proof.
  unfold list_row, mbind, prog_bind, lift, print, getitem.
  destruct (r !! "id"); [|done].
  destruct (r !! "video_title"); [|done]. simpl.
  destruct (r !! "transcript_path"); [|done]. simpl.
  destruct (r !! "reference_blog_path"); [|done]. simpl.
  destruct (truthy (r !! "notes")); [|done].
  by destruct (r !! "notes").
Qed.

Lemma list_loop_world (rows : list row) (w : world) :
  w_files (list_loop rows w).2 = w_files w.
Proof.
  revert w. induction rows as [|r rows IH]; intros w; [done|].
  cbn [list_loop]. unfold mbind, prog_bind.
  pose proof (list_row_world r w) as Hr.
  destruct (list_row r w) as [[[]|e] w1]; simpl in Hr; [|done].
  by rewrite IH.
Qed.

Lemma list_samples_world (json_loads : string → result row) (path : string)
    (w : world) :
  w_files (list_samples json_loads path w).2 = w_files w.
Proof.
  unfold list_samples, mbind, prog_bind.
  pose proof (load_rows_world json_loads path w) as Hl.
  destruct (load_rows json_loads path w) as [[rows|e] w0]; simpl in Hl; subst w0;
    [|done].
  case_decide; [done|]. apply list_loop_world.
Qed.

End Validate.

(** X18.  [validate] on a dataset of well-formed rows: when every row has
    both its files it prints that all paths are valid and returns;
    otherwise it prints the failure header and one line per missing file, a
    transcript before a reference and row after row, and exits with code 1.
    The number of lines is the number of missing paths. *)
Theorem validate_dataset_outcome (json_loads : string → result row)
    (dataset_path : string) (w : PrepareDataset.world) (rows : list row) :
  PrepareDataset.load_rows json_loads dataset_path w = (Ok rows, w) →
  Forall well_formed rows →
  let files := PrepareDataset.w_files w in
  let out := PrepareDataset.validate_dataset json_loads dataset_path w in
  (Forall (valid_row files) rows →
   out = (Ok (), PrepareDataset.World files
                   (PrepareDataset.w_stdout w
                    ++ ["All dataset paths are valid."])))
  ∧ (¬ Forall (valid_row files) rows →
     ∃ items : list string,
       out = (Raise (SystemExit "1"),
              PrepareDataset.World files
                (PrepareDataset.w_stdout w ++ "Validation failed:" :: items))
       ∧ items = map (λ i, "- " +:+ i) (flat_map (issues files) rows)
       ∧ length items = sum_list_with (missing_paths files) rows
       ∧ items ≠ []).
Proof.
  intros Hload Hwf files out.
  assert (flat_map (issues files) rows = [] ↔ Forall (valid_row files) rows)
    as Hnil.
  { rewrite flat_map_nil_Forall. split; intros H.
    - apply Forall_forall. intros r Hr. apply issues_nil.
      + by apply (proj1 (Forall_forall _ _) Hwf).
      + by apply (proj1 (Forall_forall _ _) H).
    - apply Forall_forall. intros r Hr. apply issues_nil.
      + by apply (proj1 (Forall_forall _ _) Hwf).
      + by apply (proj1 (Forall_forall _ _) H). }
  unfold out. rewrite (validate_dataset_run json_loads dataset_path w rows)
    by done.
  fold files. split.
  - intros Hall. by rewrite decide_True by by apply Hnil.
  - intros Hnot. rewrite decide_False by (by rewrite Hnil).
    eexists. split_and!; [done | done | |].
    + rewrite length_map, flat_map_length_sum.
      generalize rows. intros l. induction l as [|r l IH]; [done|]. simpl.
      by rewrite issues_length, IH.
    + intros Hmap. apply Hnot, Hnil. by apply fmap_nil_inv in Hmap.
Qed.

Lemma validate_dataset_outcome_witness :
  PrepareDataset.validate_dataset kv_loads "dataset.jsonl" world_a
  = (Raise (SystemExit "1"),
     PrepareDataset.World (PrepareDataset.w_files world_a)
       ["Validation failed:"; "- Missing reference for a: references/a.md"]).
Proof.
  assert (PrepareDataset.load_rows kv_loads "dataset.jsonl" world_a
          = (Ok [PrepareDataset.new_row args_a], world_a)) as Hload
    by (vm_compute; reflexivity).
  assert (Forall well_formed [PrepareDataset.new_row args_a]) as Hwf.
  { repeat constructor; vm_compute; eauto. }
  destruct (validate_dataset_outcome kv_loads "dataset.jsonl" world_a
              [PrepareDataset.new_row args_a] Hload Hwf) as [_ Hfail].
  destruct Hfail as (items & Hout & Hitems & _).
  - intros Hall. apply Forall_cons_1 in Hall as [(tp & rp & _ & Hrp & _ & Hr) _].
    vm_compute in Hrp. injection Hrp as <-. vm_compute in Hr.
    by destruct Hr.
  - rewrite Hout, Hitems. vm_compute. reflexivity.
Defined.

Section AddThenValidate.

Import PrepareDataset.

Variable json_loads : string → result row.
Variable json_dumps : row → string.

Lemma add_sample_dataset (args : add_args) (w w' : world) (rows : list row) :
  load_rows json_loads (args_dataset args) w = (Ok rows, w) →
  add_sample json_loads json_dumps args w = (Ok (), w') →
  w_files w' !! args_dataset args
  = Some (dump_lines json_dumps (rows ++ [new_row args])).
Proof.
  intros Hload Hrun.
  destruct (any_id rows (args_id args)) as [[|]|e] eqn:Hany.
  - rewrite (add_sample_duplicate json_loads json_dumps args w rows) in Hrun
      by done. discriminate Hrun.
  - destruct (add_sample_fresh json_loads json_dumps args w rows Hload Hany)
      as (w'' & Hrun' & Hfile). congruence.
  - rewrite (add_sample_failed json_loads json_dumps args w rows e) in Hrun
      by done. discriminate Hrun.
Qed.

(** After a successful [add_sample] every file that was there is there,
    and so are the transcript and the reference of the new row. *)
Lemma add_sample_keeps (args : add_args) (w w' : world) (p : string) :
  add_sample json_loads json_dumps args w = (Ok (), w') →
  is_Some (w_files w !! p) ∨ p = args_transcript args ∨ p = args_reference args →
  is_Some (w_files w' !! p).
Proof.
  intros Hrun Hp. destruct (decide (p = args_dataset args)) as [->|Hne].
  - revert Hrun. unfold add_sample, mbind, prog_bind, lift.
    destruct (load_rows json_loads (args_dataset args) w) as [[rows|e] w0] eqn:Hl;
      [|done].
    pose proof (load_rows_world json_loads (args_dataset args) w) as Hw.
    rewrite Hl in Hw. simpl in Hw. subst w0.
    intros Hrun.
    assert (add_sample json_loads json_dumps args w = (Ok (), w')) as Hrun'.
    { unfold add_sample, mbind, prog_bind, lift. by rewrite Hl. }
    rewrite (add_sample_dataset args w w' rows Hl Hrun'). eauto.
  - rewrite (add_sample_files json_loads json_dumps args w w' Hrun p Hne).
    destruct (w_files w !! p) as [t|]; [eauto|].
    destruct Hp as [[? ?]|Hp]; [done|]. by rewrite decide_True.
Qed.

End AddThenValidate.

(** X19.  Adding keeps a dataset valid.  After a successful [add] the new
    row has both its files, every row that had both its files still has
    them, and so [validate] on a dataset that was valid before prints that
    all paths are valid. *)
Theorem add_then_validate (json_loads : string → result row)
    (json_dumps : row → string) (args : PrepareDataset.add_args)
    (w w' : PrepareDataset.world) (rows : list row) :
  PrepareDataset.load_rows json_loads (PrepareDataset.args_dataset args) w
  = (Ok rows, w) →
  PrepareDataset.add_sample json_loads json_dumps args w = (Ok (), w') →
  Forall (codec_ok json_loads json_dumps)
    (rows ++ [PrepareDataset.new_row args]) →
  Forall well_formed rows →
  valid_row (PrepareDataset.w_files w') (PrepareDataset.new_row args)
  ∧ (∀ r, valid_row (PrepareDataset.w_files w) r →
          valid_row (PrepareDataset.w_files w') r)
  ∧ (Forall (valid_row (PrepareDataset.w_files w)) rows →
     PrepareDataset.validate_dataset json_loads (PrepareDataset.args_dataset args) w'
     = (Ok (), PrepareDataset.World (PrepareDataset.w_files w')
                 (PrepareDataset.w_stdout w'
                  ++ ["All dataset paths are valid."]))).
Proof.
  intros Hload Hrun Hcodec Hwf.
  assert (valid_row (PrepareDataset.w_files w') (PrepareDataset.new_row args))
    as Hnew.
  { exists (PrepareDataset.args_transcript args),
           (PrepareDataset.args_reference args).
    unfold PrepareDataset.new_row. split_and!.
    - by rewrite !lookup_insert_ne, lookup_insert_eq by done.
    - by rewrite !lookup_insert_ne, lookup_insert_eq by done.
    - apply (add_sample_keeps json_loads json_dumps args w w'); auto.
    - apply (add_sample_keeps json_loads json_dumps args w w'); auto. }
  assert (∀ r, valid_row (PrepareDataset.w_files w) r →
               valid_row (PrepareDataset.w_files w') r) as Hold.
  { intros r (tp & rp & Htp & Hrp & Ht & Hr). exists tp, rp.
    split_and!; [done | done | |];
      apply (add_sample_keeps json_loads json_dumps args w w'); auto. }
  split_and!; [done | done |]. intros Hall.
  assert (PrepareDataset.load_rows json_loads
            (PrepareDataset.args_dataset args) w'
          = (Ok (rows ++ [PrepareDataset.new_row args]), w')) as Hload'.
  { apply (load_rows_written json_loads json_dumps); [done|].
    by apply (add_sample_dataset json_loads json_dumps args w w' rows). }
  assert (Forall well_formed (rows ++ [PrepareDataset.new_row args])) as Hwf'.
  { apply Forall_app. split; [done|].
    constructor; [apply new_row_well_formed | constructor]. }
  rewrite (validate_dataset_run json_loads _ w' _ Hload' Hwf').
  rewrite decide_True; [done|].
  apply flat_map_nil_Forall, Forall_forall. intros r Hr.
  apply issues_nil.
  - by apply (proj1 (Forall_forall _ _) Hwf').
  - apply elem_of_app in Hr as [Hr|Hr].
    + by apply Hold, (proj1 (Forall_forall _ _) Hall).
    + apply list_elem_of_singleton in Hr. by subst r.
Qed.

Lemma add_then_validate_witness :
  let w := PrepareDataset.World ∅ [] in
  let w' := (PrepareDataset.add_sample kv_loads kv_dumps args_a w).2 in
  PrepareDataset.validate_dataset kv_loads "dataset.jsonl" w'
  = (Ok (), PrepareDataset.World (PrepareDataset.w_files w')
              (PrepareDataset.w_stdout w' ++ ["All dataset paths are valid."])).
Proof.
  intros w w'.
  refine (proj2 (proj2 (add_then_validate kv_loads kv_dumps args_a w w' []
                          _ _ _ _)) _).
  - vm_compute. reflexivity.
  - vm_compute. reflexivity.
  - repeat constructor; vm_compute; (reflexivity || discriminate).
  - constructor.
  - constructor.
Defined.

(** X20.  [list] and [validate] only read: whatever the dataset holds and
    however they end, the files are as before.  On a dataset file that does
    not exist both succeed: [list] prints that the dataset is empty and
    [validate] that all paths are valid. *)
Theorem list_validate_read_only (json_loads : string → result row)
    (dataset_path : string) (w : PrepareDataset.world) :
  PrepareDataset.w_files
    (PrepareDataset.list_samples json_loads dataset_path w).2
  = PrepareDataset.w_files w
  ∧ PrepareDataset.w_files (PrepareDataset.validate_dataset json_loads dataset_path w).2
    = PrepareDataset.w_files w
  ∧ (PrepareDataset.w_files w !! dataset_path = None →
     PrepareDataset.list_samples json_loads dataset_path w
     = (Ok (), PrepareDataset.World (PrepareDataset.w_files w)
                 (PrepareDataset.w_stdout w ++ ["Dataset is empty."]))
     ∧ PrepareDataset.validate_dataset json_loads dataset_path w
       = (Ok (), PrepareDataset.World (PrepareDataset.w_files w)
                   (PrepareDataset.w_stdout w
                    ++ ["All dataset paths are valid."]))).
Proof.
  split_and!.
  - apply list_samples_world.
  - apply validate_dataset_world.
  - intros Hnone.
    assert (PrepareDataset.load_rows json_loads dataset_path w = (Ok [], w))
      as Hload by (unfold PrepareDataset.load_rows; by rewrite Hnone).
    split.
    + unfold PrepareDataset.list_samples, mbind, PrepareDataset.prog_bind.
      by rewrite Hload.
    + by rewrite (validate_dataset_run json_loads dataset_path w []).
Qed.

Lemma list_validate_read_only_witness :
  let w := PrepareDataset.World ∅ ["$ list"] in
  PrepareDataset.list_samples kv_loads "dataset.jsonl" w
  = (Ok (), PrepareDataset.World ∅ ["$ list"; "Dataset is empty."])
  ∧ PrepareDataset.validate_dataset kv_loads "dataset.jsonl" w
    = (Ok (), PrepareDataset.World ∅ ["$ list"; "All dataset paths are valid."]).
Proof.
  intros w.
  apply (list_validate_read_only kv_loads "dataset.jsonl" w).
  reflexivity.
Defined.

(** ** The tone of [generate_blog] *)

(** X21.  The tone [generate_blog] works with always has instructions, so
    the prompt's [tone_instructions[tone]] cannot fail; a recognized tone
    is kept, and defaulting twice is defaulting once.  The tone options of
    the app are capitalised and passed as they are: each of them is
    replaced by "professional", whereas the runner's lower-casing turns
    each into a recognized tone that is kept. *)
Theorem effective_tone_recognized (tone : string) :
  is_Some (tone_instructions !! effective_tone tone)
  ∧ effective_tone tone ∈ recognized_tones
  ∧ (effective_tone tone = tone ↔ tone ∈ recognized_tones)
  ∧ effective_tone (effective_tone tone) = effective_tone tone
  ∧ Forall (λ t, effective_tone t = "professional") tone_options
  ∧ Forall (λ t, effective_tone (Py.lower t) = Py.lower t) tone_options
  ∧ recognized_tones = Py.lower <$> tone_options.
Proof.
  assert (effective_tone tone ∈ recognized_tones) as Hin.
  { unfold effective_tone. case_decide as H.
    - unfold recognized_tones. apply elem_of_cons. by left.
    - destruct (decide (tone ∈ recognized_tones)) as [|Hn]; [done|].
      by apply tone_instructions_recognized in Hn. }
  assert (∀ t, t ∈ recognized_tones → effective_tone t = t) as Hfix.
  { intros t Ht. unfold effective_tone. rewrite decide_False; [done|].
    intros Hn. by apply tone_instructions_recognized in Hn. }
  split_and!.
  - destruct (tone_instructions !! effective_tone tone) eqn:H; [eauto|].
    by apply tone_instructions_recognized in H.
  - done.
  - split; [intros <-; done | apply Hfix].
  - by apply Hfix.
  - repeat constructor.
  - repeat constructor.
  - reflexivity.
Qed.

(** ** From the run to the summary *)

Section RunSummary.

Lemma collect_bert_other (bert : bert_score_t) (reference generated : string)
    (bert_model : option string) (metrics : gmap string Qc) (k : string) :
  k ∉ "bert_f1_error" :: bert_keys →
  collect_bert bert reference generated bert_model metrics !! k = metrics !! k.
Proof.
  intros Hk. unfold bert_keys in Hk. rewrite !not_elem_of_cons in Hk.
  destruct Hk as (? & ? & ? & ? & _). unfold collect_bert.
  destruct (bert _ _ _) as [|[p|] [r|] [f|]]; cbn zeta;
    by rewrite ?lookup_insert_ne by done.
Qed.

Lemma float_of_bool_range (b : bool) :
  (0 <= Py.float_of_bool b)%Qc ∧ (Py.float_of_bool b <= 1)%Qc.
Proof. destruct b; split; vm_compute; discriminate. Qed.

Lemma collect_metrics_run (rouge : option rouge_scorer_t)
    (bert_score : option bert_score_t) (reference generated : string)
    (skip_bert : bool) (bert_model : option string) (m : gmap string Qc) :
  collect_metrics rouge bert_score reference generated skip_bert bert_model
  = Ok m →
  run_metrics rouge m.
Proof.
  unfold collect_metrics.
  assert (∃ a b : Qc,
            rouge_scores rouge reference generated
            = Ok (<["rougeL_f" := b]> (<["rouge1_f" := a]> ∅))
            ∧ (rouge = None →
               ((0 <= a)%Qc ∧ (a <= 1)%Qc) ∧ ((0 <= b)%Qc ∧ (b <= 1)%Qc)))
    as (a & b & -> & Hab).
  { destruct rouge as [score|]; simpl.
    - by eexists _, _.
    - rewrite simple_overlap_eq. eexists _, _. split; [done|]. intros _.
      assert (∀ x : Qc, (0 <= x)%Qc ∧ (x <= 1)%Qc →
                (0 <= Py.round4 (Py.to_float x))%Qc
                ∧ (Py.round4 (Py.to_float x) <= 1)%Qc) as Hr
        by (intros x [? ?]; by apply score_range).
      case_decide; [by split|]. split; apply Hr, jaccard_range. }
  rewrite keyword_recall_eq. cbn [mbind result_bind].
  set (c := if decide (spec_keyword_set reference = ∅) then 0%Qc
            else Py.round4 (Py.to_float (recall (spec_keyword_set reference)
                                                (spec_token_set generated)))).
  assert ((0 <= c)%Qc ∧ (c <= 1)%Qc) as Hc.
  { unfold c. case_decide; [by split|]. apply score_range; apply recall_range. }
  pose proof (float_of_bool_range (detect_cta generated)) as Hd.
  set (base := <["word_count_reference" := _]> _).
  assert (run_metrics rouge base) as Hbase.
  { split; [apply base_keys_present|].
    unfold unit_keys, base. rewrite (right_id_L ∅ (∪)).
    apply Forall_app. split.
    - constructor; [|constructor; [|constructor]]; intros v;
        rewrite ?lookup_insert_ne by done; rewrite lookup_insert_eq;
        by intros [= <-].
    - destruct rouge; [constructor|]. destruct (Hab eq_refl) as [Ha Hb].
      constructor; [|constructor; [|constructor]]; intros v;
        rewrite ?lookup_insert_ne by done; rewrite lookup_insert_eq;
        by intros [= <-]. }
  assert (run_metrics rouge
            (match bert_score with
             | Some bert =>
                 collect_bert bert reference generated bert_model base
             | None => base
             end)) as Hbert.
  { destruct bert_score as [bert|]; [|done].
    destruct Hbase as [Hkeys Hunit]. split.
    - eapply Forall_impl; [exact Hkeys|]. intros k. apply collect_bert_keeps.
    - apply Forall_forall. intros k Hk v.
      rewrite collect_bert_other.
      + by apply (proj1 (Forall_forall _ _) Hunit).
      + unfold unit_keys in Hk. intros Hin.
        apply elem_of_app in Hk as [Hk|Hk].
        * rewrite !elem_of_cons, elem_of_nil in Hk.
          unfold bert_keys in Hin. rewrite !elem_of_cons, elem_of_nil in Hin.
          destruct Hk as [->|[->|[]]];
            destruct Hin as [?|[?|[?|[?|[]]]]]; discriminate.
        * destruct rouge; [by apply elem_of_nil in Hk|].
          rewrite !elem_of_cons, elem_of_nil in Hk.
          unfold bert_keys in Hin. rewrite !elem_of_cons, elem_of_nil in Hin.
          destruct Hk as [->|[->|[]]];
            destruct Hin as [?|[?|[?|[?|[]]]]]; discriminate. }
  destruct bert_score as [bert|]; [destruct skip_bert|]; intros [= <-]; done.
Qed.

Lemma evaluate_row_metrics (ext : externals) (BASE_DIR : string) (files : fs)
    (mode generated_dir : string) (skip_bert : bool) (bert_model : option string)
    (r : row) (sid : string) (m : gmap string Qc) :
  evaluate_row ext BASE_DIR files mode generated_dir skip_bert bert_model r
  = Ok (sid, m) →
  run_metrics (rouge_scorer ext) m.
Proof.
  unfold evaluate_row.
  destruct (getitem r "id") as [i|]; [|done]. cbn [mbind result_bind].
  destruct (getitem r "transcript_path") as [tp|]; [|done].
  cbn [mbind result_bind].
  destruct (getitem r "reference_blog_path") as [rp|]; [|done].
  cbn [mbind result_bind].
  destruct (read_text files (Py.joinpath BASE_DIR tp)) as [t|]; [|done].
  cbn [mbind result_bind].
  destruct (read_text files (Py.joinpath BASE_DIR rp)) as [ref|]; [|done].
  cbn [mbind result_bind].
  destruct (resolve_generated_text _ _ _ _ _) as [g|]; [|done].
  cbn [mbind result_bind].
  destruct (collect_metrics _ _ _ _ _ _) as [m'|] eqn:Hm; [|done].
  cbn [mbind result_bind]. intros [= _ <-]. by apply collect_metrics_run in Hm.
Qed.

Lemma evaluate_loop_metrics (ext : externals) (BASE_DIR : string) (files : fs)
    (mode generated_dir : string) (skip_bert : bool) (bert_model : option string)
    (dataset : list row) (acc results : gmap string (gmap string Qc)) :
  evaluate_loop ext BASE_DIR files mode generated_dir skip_bert bert_model
    dataset acc = Ok results →
  map_Forall (λ _ m, run_metrics (rouge_scorer ext) m) acc →
  map_Forall (λ _ m, run_metrics (rouge_scorer ext) m) results.
Proof.
  revert acc. induction dataset as [|r rest IH]; intros acc.
  - simpl. by intros [= ->].
  - cbn [evaluate_loop].
    destruct (evaluate_row _ _ _ _ _ _ _ r) as [[sid m]|] eqn:Hrow; [|done].
    cbn [mbind result_bind fst snd]. intros Hrest Hacc.
    apply (IH _ Hrest). apply map_Forall_insert_2; [|exact Hacc].
    exact (evaluate_row_metrics _ _ _ _ _ _ _ _ _ _ Hrow).
Qed.

Lemma unit_keys_base (rouge : option rouge_scorer_t) (k : string) :
  k ∈ unit_keys rouge → k ∈ base_keys.
Proof.
  unfold unit_keys, base_keys. intros Hk. apply elem_of_app in Hk as [Hk|Hk].
  - rewrite !elem_of_cons, elem_of_nil in Hk. rewrite !elem_of_cons.
    destruct Hk as [->|[->|[]]]; auto.
  - destruct rouge; [by apply elem_of_nil in Hk|].
    rewrite !elem_of_cons, elem_of_nil in Hk. rewrite !elem_of_cons.
    destruct Hk as [->|[->|[]]]; auto.
Qed.

End RunSummary.

(** X22.  From the run to the summary, as [main] chains them: after an
    evaluation that returned, [aggregate] returns; unless the dataset had no
    row, the summary holds the average of each of the seven base metrics;
    and the averages of keyword recall and of the call-to-action flag, and
    without the ROUGE scorer those of the two ROUGE keys, lie between 0
    and 1. *)
Theorem run_summary (ext : externals) (BASE_DIR : string) (files : fs)
    (dataset_path mode generated_dir : string) (skip_bert : bool)
    (bert_model : option string) (results : gmap string (gmap string Qc)) :
  evaluate ext BASE_DIR files dataset_path mode generated_dir skip_bert
    bert_model = Ok results →
  ∃ summary : gmap string Qc,
    aggregate results = Ok summary
    ∧ (results ≠ ∅ →
       Forall (λ k, is_Some (summary !! ("avg_" +:+ k))) base_keys)
    ∧ Forall (λ k, ∀ avg, summary !! ("avg_" +:+ k) = Some avg →
                          (0 <= avg)%Qc ∧ (avg <= 1)%Qc)
        (unit_keys (rouge_scorer ext)).
Proof.
  intros Hrun.
  assert (map_Forall (λ _ m, run_metrics (rouge_scorer ext) m) results) as Hall.
  { revert Hrun. unfold evaluate.
    destruct (read_jsonl (json_loads ext) files dataset_path) as [rows|]; [|done].
    cbn [mbind result_bind]. intros H.
    apply (evaluate_loop_metrics _ _ _ _ _ _ _ _ _ _ H), map_Forall_empty. }
  destruct (aggregate_ok results) as [summary Hagg]. exists summary.
  split; [done|].
  destruct (decide (results = ∅)) as [->|Hne].
  { split; [done|]. apply Forall_forall. intros k _ avg.
    unfold aggregate in Hagg. rewrite decide_True in Hagg by done.
    injection Hagg as <-. by rewrite lookup_empty. }
  assert (∀ k, k ∈ base_keys → observed results k) as Hobs.
  { intros k Hk. apply map_choose in Hne as (id & m & Hid).
    exists id, m. split; [done|].
    destruct (Hall id m Hid) as [Hkeys _].
    by apply (proj1 (Forall_forall _ _) Hkeys). }
  split.
  - intros _. apply Forall_forall. intros k Hk.
    rewrite (aggregate_lookup results summary k Hagg (Hobs k Hk)). eauto.
  - apply Forall_forall. intros k Hk avg Havg.
    destruct (aggregate_bounds results summary k 0%Qc 1%Qc Hagg)
      as (Hval & Hlo & Hhi).
    + by apply Hobs, (unit_keys_base (rouge_scorer ext)).
    + intros id m v Hid Hv. destruct (Hall id m Hid) as [_ Hunit].
      by apply (proj1 (Forall_forall _ _) Hunit k Hk).
    + rewrite Hval in Havg. by injection Havg as <-.
Qed.

Lemma run_summary_witness :
  ∃ summary : gmap string Qc,
    aggregate run_results = Ok summary
    ∧ (run_results ≠ ∅ →
       Forall (λ k, is_Some (summary !! ("avg_" +:+ k))) base_keys)
    ∧ Forall (λ k, ∀ avg, summary !! ("avg_" +:+ k) = Some avg →
                          (0 <= avg)%Qc ∧ (avg <= 1)%Qc)
        (unit_keys (rouge_scorer run_ext)).
Proof.
  apply (run_summary run_ext "base" run_files "dataset.jsonl" "mock" "out" true
           None run_results).
  vm_compute. reflexivity.
Defined.

(** ** The video id of a URL *)

Section VideoId.

Import Downloader.

Lemma split_on_sep (sep : ascii) (s : string) :
  split_on sep (String sep s) = "" :: split_on sep s.
Proof. simpl. by rewrite bool_decide_eq_true_2. Qed.

Lemma split_on_nonempty (sep : ascii) (s : string) :
  ∃ piece rest, split_on sep s = piece :: rest.
Proof.
  induction s as [|c s (piece & rest & IH)]; simpl; [by eexists _, _|].
  case_bool_decide; [by eexists _, _|]. rewrite IH. by eexists _, _.
Qed.

Lemma split_on_other (sep c : ascii) (s : string) :
  c ≠ sep →
  ∃ piece rest, split_on sep s = piece :: rest
                ∧ split_on sep (String c s) = String c piece :: rest.
Proof.
  intros Hc. destruct (split_on_nonempty sep s) as (piece & rest & H).
  exists piece, rest. split; [done|]. simpl.
  by rewrite bool_decide_eq_false_2, H by done.
Qed.

(** The first piece runs up to the first separator. *)
Lemma split_on_head (sep : ascii) (s : string) :
  ∃ piece post,
    head (split_on sep s) = Some piece
    ∧ s = piece +:+ post
    ∧ (sep ∉ chars piece)
    ∧ (post = "" ∨ ∃ q, post = String sep q).
Proof.
  induction s as [|c s (piece & post & Hh & Hs & Hp & Hq)].
  - exists "", "". split_and!; [done | done | apply not_elem_of_nil | by left].
  - destruct (decide (c = sep)) as [->|Hc].
    + rewrite split_on_sep. exists "", (String sep s).
      split_and!; [done | done | apply not_elem_of_nil | right; by eexists].
    + destruct (split_on_other sep c s Hc) as (piece' & rest & H1 & H2).
      rewrite H1 in Hh. injection Hh as ->. rewrite H2.
      exists (String c piece), post. split_and!; [done | by rewrite Hs at 1 | | done].
      rewrite chars_cons. apply not_elem_of_cons. by split.
Qed.

Lemma split_on_single (sep : ascii) (s piece : string) :
  split_on sep s = [piece] → sep ∉ chars s.
Proof.
  revert piece. induction s as [|c s IH]; intros piece; [intros _; apply not_elem_of_nil|].
  destruct (decide (c = sep)) as [->|Hc].
  - rewrite split_on_sep. destruct (split_on_nonempty sep s) as (p & r & ->).
    discriminate.
  - destruct (split_on_other sep c s Hc) as (p & r & H1 & ->).
    intros [= _ ->]. rewrite chars_cons. apply not_elem_of_cons.
    split; [done | by apply (IH p)].
Qed.

Lemma split_on_none (sep : ascii) (s : string) :
  sep ∉ chars s → split_on sep s = [s].
Proof.
  induction s as [|c s IH]; [done|]. rewrite chars_cons.
  intros [Hc Hs]%not_elem_of_cons. simpl.
  rewrite bool_decide_eq_false_2 by done. by rewrite IH.
Qed.

(** The last piece starts after the last separator. *)
Lemma split_on_last (sep : ascii) (s : string) :
  ∃ pre piece,
    last (split_on sep s) = Some piece
    ∧ s = pre +:+ piece
    ∧ (sep ∉ chars piece)
    ∧ (pre = "" ∨ ∃ p, pre = p +:+ String sep "").
Proof.
  induction s as [|c s (pre & piece & Hl & Hs & Hp & Hq)].
  - exists "", "". split_and!; [done | done | apply not_elem_of_nil | by left].
  - destruct (split_on_nonempty sep s) as (piece0 & rest & H0).
    destruct (decide (c = sep)) as [->|Hc].
    + rewrite split_on_sep, H0. rewrite H0 in Hl.
      exists (String sep pre), piece.
      split_and!; [done | by rewrite Hs at 1 | done |].
      right. destruct Hq as [->|[p ->]]; [by exists "" | by exists (String sep p)].
    + destruct (split_on_other sep c s Hc) as (piece' & rest' & H1 & H2).
      rewrite H2. rewrite H1 in Hl. destruct Hq as [->|[p ->]].
      * simpl in Hs. subst s. rewrite split_on_none in H1 by done.
        injection H1 as <- <-. exists "", (String c piece).
        split_and!; [done | done | | by left].
        rewrite chars_cons. apply not_elem_of_cons. by split.
      * destruct rest' as [|r rest'].
        { exfalso. apply split_on_single in H1. apply H1. rewrite Hs.
          rewrite !chars_app, chars_cons. apply elem_of_app. left.
          apply elem_of_app. right. by left. }
        exists (String c (p +:+ String sep "")), piece.
        split_and!; [done | by rewrite Hs at 1 | done |].
        right. by exists (String c p).
Qed.

Lemma split_on_app (sep : ascii) (a b : string) :
  sep ∉ chars a → split_on sep (a +:+ String sep b) = a :: split_on sep b.
Proof.
  induction a as [|c a IH].
  - intros _. apply split_on_sep.
  - rewrite chars_cons. intros [Hc Ha]%not_elem_of_cons.
    rewrite append_cons. cbn [split_on].
    rewrite bool_decide_eq_false_2 by done. by rewrite IH.
Qed.

Lemma split_on_embed (rest : string) :
  ∃ x, split_on "/" ("/embed/" +:+ rest) !! 2 = Some x.
Proof.
  destruct (split_on_nonempty "/" rest) as (p & r & H). exists p.
  change ("/embed/" +:+ rest) with (String "/" ("embed" +:+ String "/" rest)).
  rewrite split_on_sep, split_on_app, H; [done|].
  unfold chars. simpl. rewrite !not_elem_of_cons.
  split_and!; [done..|apply not_elem_of_nil].
Qed.

Lemma split_on_last_sep (sep : ascii) (s : string) :
  last (split_on sep (s +:+ String sep "")) = Some "".
Proof.
  induction s as [|c s IH].
  - simpl. by rewrite bool_decide_eq_true_2.
  - rewrite append_cons.
    destruct (split_on_nonempty sep (s +:+ String sep "")) as (p & r & H).
    destruct (decide (c = sep)) as [->|Hc].
    + rewrite split_on_sep, H. by rewrite H in IH.
    + destruct (split_on_other sep c (s +:+ String sep "") Hc)
        as (p' & r' & H1 & ->).
      rewrite H1 in IH. destruct r' as [|x r']; [|done]. exfalso.
      apply split_on_single in H1. apply H1. rewrite chars_app, chars_cons.
      apply elem_of_app. right. by left.
Qed.

End VideoId.

(** X23.  A URL that contains "youtu.be" is taken for a short link,
    whatever the URL parser would make of it: the id is what stands
    between the last slash and the first question mark after it.  So the
    function returns, the id holds neither a slash nor a question mark, and
    a URL that ends in a slash has the empty id. *)
Theorem short_link_id (urlparse : string → option Downloader.parse_result)
    (parse_qs : string → gmap string (list string)) (url : string) :
  Py.contains "youtu.be" url = true →
  (∃ pre id post : string,
     Downloader.extract_video_id urlparse parse_qs url = Downloader.Returns id
     ∧ url = pre +:+ id +:+ post
     ∧ ("/"%char ∉ chars (id +:+ post))
     ∧ ("?"%char ∉ chars id)
     ∧ (pre = "" ∨ ∃ p, pre = p +:+ "/")
     ∧ (post = "" ∨ ∃ q, post = "?" +:+ q))
  ∧ Downloader.extract_video_id urlparse parse_qs (url +:+ "/")
    = Downloader.Returns "".
Proof.
  intros Hshort. split.
  - unfold Downloader.extract_video_id. rewrite Hshort.
    destruct (split_on_last "/" url) as (pre & piece & Hl & Hurl & Hp & Hpre).
    destruct (split_on_head "?" piece) as (id & post & Hh & Hpiece & Hid & Hpost).
    exists pre, id, post. rewrite Hl. cbn [Downloader.item]. rewrite Hh.
    cbn [Downloader.item].
    split_and!; [done | by rewrite <- Hpiece | by rewrite <- Hpiece | done..].
  - unfold Downloader.extract_video_id.
    apply contains_iff in Hshort as (a & b & ->).
    replace ((a +:+ "youtu.be" +:+ b) +:+ "/")
      with (a +:+ "youtu.be" +:+ (b +:+ "/")).
    + rewrite contains_infix.
      replace (a +:+ "youtu.be" +:+ (b +:+ "/"))
        with ((a +:+ "youtu.be" +:+ b) +:+ String "/" "").
      * by rewrite split_on_last_sep.
      * apply chars_inj. rewrite !chars_app. by rewrite <- !app_assoc.
    + apply chars_inj. rewrite !chars_app. by rewrite <- !app_assoc.
Qed.

Lemma short_link_id_witness :
  (∃ pre id post : string,
     Downloader.extract_video_id urlparse_a parse_qs_a
       "https://youtu.be/abc?t=1" = Downloader.Returns id
     ∧ "https://youtu.be/abc?t=1" = pre +:+ id +:+ post
     ∧ ("/"%char ∉ chars (id +:+ post))
     ∧ ("?"%char ∉ chars id)
     ∧ (pre = "" ∨ ∃ p, pre = p +:+ "/")
     ∧ (post = "" ∨ ∃ q, post = "?" +:+ q))
  ∧ Downloader.extract_video_id urlparse_a parse_qs_a
      ("https://youtu.be/abc?t=1" +:+ "/")
    = Downloader.Returns "".
Proof.
  apply (short_link_id urlparse_a parse_qs_a "https://youtu.be/abc?t=1").
  vm_compute. reflexivity.
Defined.

Example extract_video_id_ex :
  Downloader.extract_video_id urlparse_a parse_qs_a "https://youtu.be/abc?t=1"
  = Downloader.Returns "abc"
  ∧ Downloader.extract_video_id urlparse_a parse_qs_a
      "https://www.youtube.com/watch?v=abc&feature=youtu.be"
    = Downloader.Returns "watch".
Proof. split; vm_compute; reflexivity. Qed.

(** X24.  [extract_video_id] fails only through the two library calls: when
    it raises, the URL is no short link, and either [urlparse] raised, or
    the URL is a [youtube.com] page whose query holds "v=" while [parse_qs]
    has no value for the key [v].  The short-link branch and the [/embed/]
    branch index their pieces within range. *)
Theorem extract_video_id_failures
    (urlparse : string → option Downloader.parse_result)
    (parse_qs : string → gmap string (list string)) (url : string)
    (e : Downloader.error) :
  Downloader.extract_video_id urlparse parse_qs url = Downloader.Raises e →
  Py.contains "youtu.be" url = false
  ∧ match urlparse url with
    | None => e = Downloader.ValueError
    | Some parsed =>
        Py.contains "youtube.com" (Downloader.netloc parsed) = true
        ∧ Py.contains "v=" (Downloader.query parsed) = true
        ∧ match parse_qs (Downloader.query parsed) !! "v" with
          | None => e = Downloader.KeyError "v"
          | Some values => values = [] ∧ e = Downloader.IndexError
          end
    end.
Proof.
  unfold Downloader.extract_video_id.
  destruct (Py.contains "youtu.be" url) eqn:Hshort.
  { destruct (split_on_last "/" url) as (pre & piece & -> & _).
    cbn [Downloader.item].
    destruct (split_on_head "?" piece) as (id & post & -> & _). done. }
  intros H. split; [done|].
  destruct (urlparse url) as [parsed|]; [|by injection H as <-].
  destruct (Py.contains "youtube.com" (Downloader.netloc parsed)); [|done].
  destruct (Py.contains "v=" (Downloader.query parsed)).
  - split_and!; [done..|].
    destruct (parse_qs (Downloader.query parsed) !! "v") as [[|v values]|];
      [by injection H as <- | done | by injection H as <-].
  - destruct (Py.startswith "/embed/" (Downloader.path parsed)) eqn:Hembed;
      [|done].
    apply startswith_prefix in Hembed as [rest Hpath]. rewrite Hpath in H.
    destruct (split_on_embed rest) as [x Hx]. by rewrite Hx in H.
Qed.

Lemma extract_video_id_failures_witness :
  Py.contains "youtu.be" "https://www.youtube.com/watch?xv=1" = false
  ∧ match urlparse_a "https://www.youtube.com/watch?xv=1" with
    | None => Downloader.KeyError "v" = Downloader.ValueError
    | Some parsed =>
        Py.contains "youtube.com" (Downloader.netloc parsed) = true
        ∧ Py.contains "v=" (Downloader.query parsed) = true
        ∧ match parse_qs_a (Downloader.query parsed) !! "v" with
          | None => Downloader.KeyError "v" = Downloader.KeyError "v"
          | Some values =>
              values = [] ∧ Downloader.KeyError "v" = Downloader.IndexError
          end
    end.
Proof.
  apply (extract_video_id_failures urlparse_a parse_qs_a
           "https://www.youtube.com/watch?xv=1" (Downloader.KeyError "v")).
  vm_compute. reflexivity.
Defined.

(** ** From the dataset store to the runner *)

(** X25.  What [add] writes, the runner reads: after a successful [add]
    the runner's [read_jsonl] finds the old rows followed by the new one.
    The two readers differ on a dataset file that does not exist: the
    store takes it for empty, the runner raises [FileNotFoundError]. *)
Theorem added_sample_read_by_runner (json_loads : string → result row)
    (json_dumps : row → string) (args : PrepareDataset.add_args)
    (w w' : PrepareDataset.world) (rows : list row) :
  PrepareDataset.load_rows json_loads (PrepareDataset.args_dataset args) w
  = (Ok rows, w) →
  PrepareDataset.add_sample json_loads json_dumps args w = (Ok (), w') →
  Forall (codec_ok json_loads json_dumps)
    (rows ++ [PrepareDataset.new_row args]) →
  read_jsonl json_loads (PrepareDataset.w_files w')
    (PrepareDataset.args_dataset args)
  = Ok (rows ++ [PrepareDataset.new_row args])
  ∧ (PrepareDataset.w_files w !! PrepareDataset.args_dataset args = None →
     rows = []
     ∧ ∃ msg, read_jsonl json_loads (PrepareDataset.w_files w)
                (PrepareDataset.args_dataset args)
              = Raise (FileNotFoundError msg)).
Proof.
  intros Hload Hrun Hcodec. split.
  - pose proof (add_sample_dataset json_loads json_dumps args w w' rows
                  Hload Hrun) as Hfile.
    pose proof (load_rows_written json_loads json_dumps
                  (PrepareDataset.args_dataset args) _ w' Hcodec Hfile) as Hl.
    unfold PrepareDataset.load_rows in Hl. unfold read_jsonl.
    rewrite Hfile in Hl |- *. by injection Hl as ->.
  - intros Hnone. unfold PrepareDataset.load_rows in Hload. unfold read_jsonl.
    rewrite Hnone in Hload |- *. injection Hload as <-. eauto.
Qed.

Lemma added_sample_read_by_runner_witness :
  let w := PrepareDataset.World ∅ [] in
  let w' := (PrepareDataset.add_sample kv_loads kv_dumps args_a w).2 in
  read_jsonl kv_loads (PrepareDataset.w_files w') "dataset.jsonl"
  = Ok [PrepareDataset.new_row args_a]
  ∧ ∃ msg, read_jsonl kv_loads ∅ "dataset.jsonl" = Raise (FileNotFoundError msg).
Proof.
  intros w w'.
  destruct (added_sample_read_by_runner kv_loads kv_dumps args_a w w' [])
    as [Hread Hmissing].
  - vm_compute. reflexivity.
  - vm_compute. reflexivity.
  - repeat constructor; vm_compute; (reflexivity || discriminate).
  - split; [exact Hread|]. by destruct (Hmissing eq_refl) as [_ Hm].
Defined.
